(** * reMarkable page renderer and document converter

    A shallow embedding of [pdf-renderer.ts] (constants, pen tables,
    geometry calibration, stroke rendering, text layout, page painting,
    the files returned), of [document-converter.ts] ([parse],
    [convertToPdf], [convertDocument], [emptyPage], the typing of a
    document and the extraction of its original file) and of
    [sync-manager.ts] (the sync state, the paths and hash of a synced
    document, [sync], [syncDocument], [listRemote]).

    Numbers.  The TypeScript code computes on IEEE doubles.  Here a
    JavaScript number is an exact rational ([Q]): every constant of the
    source is a finite decimal or a quotient of integers, and every
    operation the modelled code applies ([+], [-], [*], [/], [Math.max],
    [Math.min], [<], [>]) is the rational one.  Rounding of doubles, NaN
    and the infinities are outside the model.  Equality of numbers is
    [Qeq] ([==]).

    Effects.  A [PDFPage] of pdf-lib is a mutable object that drawing
    calls append operators to; it is threaded explicitly.  A function
    that can throw returns [option] or a sum. *)

From Stdlib Require Import QArith Qminmax Qabs Qround ZArith List String Bool Lia.
From Stdlib Require Import Orders Sorting.Mergesort Sorted Permutation.
From Stdlib Require Import Strings.Byte Strings.Ascii.
From Stdlib Require Import Lqa.
From Stdlib Require Floats.PrimFloat.
Import ListNotations.

Local Open Scope Q_scope.

(** ** JavaScript helpers *)

(** [a > b] on numbers. *)
Definition Qgtb (a b : Q) : bool := negb (Qle_bool a b).

(** [Math.max] and [Math.min] on two numbers. *)
Definition Math_max (a b : Q) : Q := Qmax a b.
Definition Math_min (a b : Q) : Q := Qmin a b.

(** [n.toFixed(2)], kept as a number: the nearest multiple of 1/100, a tie
    going away from zero (the string is formed from the absolute value and
    the sign is put back). *)
Definition toFixed2 (n : Q) : Q :=
  let m := Qfloor (Qabs n * 100 + 0.5) in
  if Qle_bool 0 n then m # 100 else (- m) # 100.

(** What a [throw] carries to the caller: an [Error] with its message, or
    the [TypeError] of reading a property of [null], with the name of the
    property. *)
Inductive Thrown : Type :=
| ThrownError (message : string)
| ThrownNullRead (property : string).

(** [ToUint32], the conversion [>>>] applies to its left operand. *)
Definition ToUint32 (n : Z) : Z := (n mod 2 ^ 32)%Z.

(** [Array.prototype.sort((a, b) => a - b)] on numbers: a stable ascending
    sort. *)
Module NumberOrder <: TotalLeBool.
Definition t := Q.
Definition leb := Qle_bool.
Lemma leb_total : forall a b, leb a b = true \/ leb b a = true.
Proof.
  intros a b. unfold leb. rewrite !Qle_bool_iff.
  destruct (Qlt_le_dec a b) as [Hlt | Hle].
  - left. now apply Qlt_le_weak.
  - now right.
Qed.
End NumberOrder.

Module NumberSort := Sort NumberOrder.

(** ** rm-parser: the page model *)

Module RmParser.

(** Modelled from the spec: the pen-type enumeration [PenType] exported by
    rm-parser, whose declaration is not among the sources.  The
    constructors are the members the renderer names; the spec describes
    it as an enumerated variant with two eraser variants and two variants
    each for several physical pens.  [UNKNOWN_PEN] stands for a numeric
    tag of the file that is no member named by the renderer: it is what
    reaches the [default] branches and the [??] fallbacks. *)
Inductive PenType : Type :=
| BALLPOINT_1 | BALLPOINT_2
| MARKER_1 | MARKER_2
| FINELINER_1 | FINELINER_2
| PENCIL_1 | PENCIL_2
| MECHANICAL_PENCIL_1 | MECHANICAL_PENCIL_2
| BRUSH | PAINTBRUSH_2
| HIGHLIGHTER_1 | HIGHLIGHTER_2
| CALLIGRAPHY
| SHADER
| ERASER | ERASER_AREA
| UNKNOWN_PEN (tag : Z).

(** [Point]: fields [x], [y], [width]. *)
Record Point : Type := mkPoint {
  pt_x : Q;
  pt_y : Q;
  pt_width : Q
}.

(** [Stroke]: [colorArgb] is [number | null]. *)
Record Stroke : Type := mkStroke {
  penType : PenType;
  color : Z;
  colorArgb : option Z;
  points : list Point
}.

Record Layer : Type := mkLayer {
  strokes : list Stroke
}.

(** [TextBlock]: [paragraphStyles] is a [Map<number, number>] from
    character offset to style code. *)
Record TextBlock : Type := mkTextBlock {
  posX : Q;
  posY : Q;
  tb_width : Q;
  text : string;
  paragraphStyles : list (Z * Z)
}.

(** The renderer and the converter never look inside a text span. *)
Inductive TextSpan : Type := mkTextSpan (raw : string).

Record Page : Type := mkPage {
  pageId : string;
  layers : list Layer;
  textSpans : list TextSpan;
  textBlocks : list TextBlock;
  width : Q;
  height : Q
}.

(** [page.pageId = v] and [page.height = v]. *)
Definition set_pageId (page : Page) (v : string) : Page :=
  {| pageId := v; layers := layers page; textSpans := textSpans page;
     textBlocks := textBlocks page; width := width page;
     height := height page |}.

Definition set_height (page : Page) (v : Q) : Page :=
  {| pageId := pageId page; layers := layers page;
     textSpans := textSpans page; textBlocks := textBlocks page;
     width := width page; height := v |}.

End RmParser.

Import RmParser.

(** ** pdf-renderer *)

Module PdfRenderer.

(** *** Constants *)

Definition RM_DEFAULT_WIDTH_PX : Q := 1404.
Definition RM_DEFAULT_HEIGHT_PX : Q := 1872.
Definition RM_SCREEN_WIDTH_PX : Q := 1620.
Definition RM_SCREEN_HEIGHT_PX : Q := 2160.

Definition SCALE : Q := 514 / RM_DEFAULT_WIDTH_PX.
Definition COORD_SCALE : Q := 514 / RM_SCREEN_WIDTH_PX.

Record RGB : Type := mkRGB { r : Q; g : Q; b : Q }.

Definition BLACK : RGB := mkRGB 0 0 0.

Definition COLOR_MAP (colorIndex : Z) : option RGB :=
  match colorIndex with
  | 0%Z => Some BLACK
  | 1%Z => Some (mkRGB 0.5647 0.5647 0.5647)
  | 2%Z => Some (mkRGB 1 1 1)
  | 3%Z => Some (mkRGB 0.9804 0.9059 0.0980)
  | 4%Z => Some (mkRGB 0.5686 0.8549 0.4431)
  | 5%Z => Some (mkRGB 0.7529 0.4980 0.8235)
  | 6%Z => Some (mkRGB 0.1882 0.2902 0.8784)
  | 7%Z => Some (mkRGB 0.7608 0.1922 0.1961)
  | 8%Z => Some (mkRGB 0.5647 0.5647 0.5647)
  | 9%Z => Some (mkRGB 0.9804 0.9059 0.0980)
  | 10%Z => Some (mkRGB 0.5686 0.8549 0.4431)
  | 11%Z => Some (mkRGB 0.4549 0.8235 0.9098)
  | 12%Z => Some (mkRGB 0.7529 0.4980 0.8235)
  | 13%Z => Some (mkRGB 0.9804 0.9059 0.0980)
  | _ => None
  end.

Record PenStyle : Type := mkPenStyle {
  opacity : Q;
  isHighlighter : bool
}.

Definition PEN_STYLES (pen : PenType) : option PenStyle :=
  match pen with
  | BALLPOINT_1 | BALLPOINT_2 => Some (mkPenStyle 1.0 false)
  | MARKER_1 | MARKER_2 => Some (mkPenStyle 1.0 false)
  | FINELINER_1 | FINELINER_2 => Some (mkPenStyle 1.0 false)
  | PENCIL_1 | PENCIL_2 => Some (mkPenStyle 0.35 false)
  | MECHANICAL_PENCIL_1 | MECHANICAL_PENCIL_2 => Some (mkPenStyle 0.7 false)
  | BRUSH => Some (mkPenStyle 1.0 false)
  | HIGHLIGHTER_1 | HIGHLIGHTER_2 => Some (mkPenStyle 0.45 true)
  | PAINTBRUSH_2 => Some (mkPenStyle 1.0 false)
  | CALLIGRAPHY => Some (mkPenStyle 1.0 false)
  | SHADER => Some (mkPenStyle 0.3 true)
  | ERASER | ERASER_AREA | UNKNOWN_PEN _ => None
  end.

(** *** Helpers *)

Definition getPenStyle (pen : PenType) : PenStyle :=
  match PEN_STYLES pen with
  | Some style => style
  | None => mkPenStyle 1.0 false
  end.

(** [COLOR_MAP[colorIndex] ?? COLOR_MAP[0]]; entry 0 is [BLACK]. *)
Definition getColor (colorIndex : Z) : RGB :=
  match COLOR_MAP colorIndex with
  | Some c => c
  | None => BLACK
  end.

Record ARGB : Type := mkARGB { a_a : Q; a_r : Q; a_g : Q; a_b : Q }.

(** [(argb >>> k) & 0xFF]. *)
Definition channel (argb : Z) (k : Z) : Z :=
  Z.land (Z.shiftr (ToUint32 argb) k) 255.

Definition getArgbColor (argb : Z) : ARGB :=
  {| a_a := inject_Z (channel argb 24) / 255;
     a_r := inject_Z (channel argb 16) / 255;
     a_g := inject_Z (channel argb 8) / 255;
     a_b := inject_Z (Z.land argb 255) / 255 |}.

Definition WIDTH_FACTOR : Q := 0.216.

Definition pointWidthPt (point : Point) (pen : PenType) : Q :=
  let base := pt_width point * SCALE * WIDTH_FACTOR in
  match pen with
  | BALLPOINT_1 | BALLPOINT_2 => Math_max 0.3 (Math_min base 3.0)
  | FINELINER_1 | FINELINER_2 => Math_max 0.3 (Math_min base 4.0)
  | PENCIL_1 | PENCIL_2 => Math_max 0.2 (Math_min base 4.0)
  | MECHANICAL_PENCIL_1 | MECHANICAL_PENCIL_2 =>
      Math_max 0.2 (Math_min base 3.0)
  | MARKER_1 | MARKER_2 => Math_max 1.0 (Math_min base 15.0)
  | CALLIGRAPHY => Math_max 0.2 (Math_min base 10.0)
  | PAINTBRUSH_2 => Math_max 0.3 (Math_min base 8.0)
  | BRUSH => Math_max 0.2 (Math_min base 10.0)
  | _ => Math_max 0.2 (Math_min base 20.0)
  end.

(** *** Page geometry *)

Record PageGeometry : Type := mkPageGeometry {
  xOffset : Q;
  yOffset : Q;
  pageWidthPt : Q;
  pageHeightPt : Q
}.

(** The two font arguments of the source are unused. *)
Definition computePageGeometry (page : Page) : PageGeometry :=
  let halfScreenWidth := RM_SCREEN_WIDTH_PX / 2 in
  {| xOffset := halfScreenWidth;
     yOffset := 0;
     pageWidthPt := RM_SCREEN_WIDTH_PX * COORD_SCALE;
     pageHeightPt := height page * SCALE |}.

Record PdfPoint : Type := mkPdfPoint { px : Q; py : Q }.

Definition toPdf (x y : Q) (geo : PageGeometry) : PdfPoint :=
  {| px := (x + xOffset geo) * COORD_SCALE;
     py := pageHeightPt geo - (y - yOffset geo) * COORD_SCALE |}.

(** *** The page being drawn

    The operators pdf-lib appends to a page's content, one constructor
    per call the renderer makes: [drawLine], [pushOperators(setLineJoin
    ...)], [drawSvgPath] and [drawText], with the options the renderer
    passes. *)

Inductive LineCapStyle : Type := CapButt | CapRound | CapProjecting.
Inductive LineJoinStyle : Type := JoinMiter | JoinRound | JoinBevel.

(** The commands of the path string [d]: [M x y] and [L x y]. *)
Inductive SvgCommand : Type :=
| SvgM (x y : Q)
| SvgL (x y : Q).

Inductive Operator : Type :=
| DrawLine (start finish : PdfPoint) (thickness : Q) (lineColor : RGB)
           (lineOpacity : Q) (lineCap : LineCapStyle)
| SetLineJoin (style : LineJoinStyle)
| DrawSvgPath (d : list SvgCommand) (borderColor : RGB)
              (borderWidth borderOpacity : Q)
              (borderLineCap : LineCapStyle) (y : Q)
| DrawText (line : string) (x y size : Q) (bold : bool) (textColor : RGB).

Record PDFPage : Type := mkPDFPage {
  pageSize : Q * Q;
  operators : list Operator
}.

(** [doc.addPage([w, h])]. *)
Definition addPage (size : Q * Q) : PDFPage :=
  {| pageSize := size; operators := [] |}.

Definition pushOperators (pdfPage : PDFPage) (ops : list Operator) : PDFPage :=
  {| pageSize := pageSize pdfPage; operators := operators pdfPage ++ ops |}.

Definition drawLine (pdfPage : PDFPage) (start finish : PdfPoint)
    (thickness : Q) (lineColor : RGB) (lineOpacity : Q)
    (lineCap : LineCapStyle) : PDFPage :=
  pushOperators pdfPage
    [DrawLine start finish thickness lineColor lineOpacity lineCap].

Definition drawSvgPath (pdfPage : PDFPage) (d : list SvgCommand)
    (borderColor : RGB) (borderWidth borderOpacity : Q)
    (borderLineCap : LineCapStyle) (y : Q) : PDFPage :=
  pushOperators pdfPage
    [DrawSvgPath d borderColor borderWidth borderOpacity borderLineCap y].

(** *** Rendering *)

Definition isEraser (pen : PenType) : bool :=
  match pen with
  | ERASER | ERASER_AREA => true
  | _ => false
  end.

Definition isShader (pen : PenType) : bool :=
  match pen with
  | SHADER => true
  | _ => false
  end.

(** [stroke.points.map((p) => p.width).sort((a, b) => a - b)]. *)
Definition sortedWidths (stroke : Stroke) : list Q :=
  NumberSort.sort (map pt_width (points stroke)).

(** One path command per point, in SVG space. *)
Definition svgPoint (geo : PageGeometry) (p : Point) : Q * Q :=
  let pt := toPdf (pt_x p) (pt_y p) geo in
  (toFixed2 (px pt), toFixed2 (pageHeightPt geo - py pt)).

Definition svgPath (geo : PageGeometry) (pts : list Point) : list SvgCommand :=
  match pts with
  | [] => []
  | p0 :: rest =>
      SvgM (fst (svgPoint geo p0)) (snd (svgPoint geo p0))
      :: map (fun p => SvgL (fst (svgPoint geo p)) (snd (svgPoint geo p))) rest
  end.

Definition renderHighlighterStroke (pdfPage : PDFPage) (stroke : Stroke)
    (strokeColor : RGB) (strokeOpacity : Q) (geo : PageGeometry) : PDFPage :=
  if (List.length (points stroke) <? 2)%nat then pdfPage
  else
    let widths := sortedWidths stroke in
    let medianRaw :=
      nth (List.length widths / 2)%nat widths 0 * SCALE * WIDTH_FACTOR in
    let medianW := Math_max 1.0 (Math_min medianRaw 15.0) in
    let effectiveOpacity := strokeOpacity in
    let d := svgPath geo (points stroke) in
    let pdfPage := pushOperators pdfPage [SetLineJoin JoinRound] in
    drawSvgPath pdfPage d strokeColor medianW effectiveOpacity CapRound
      (pageHeightPt geo).

(** The loop [for (let i = 1; i < stroke.points.length; i++)] over the
    pairs [prev = points[i - 1]], [curr = points[i]]. *)
Fixpoint drawSegments (pdfPage : PDFPage) (pen : PenType)
    (strokeColor : RGB) (strokeOpacity : Q) (geo : PageGeometry)
    (prev : Point) (rest : list Point) : PDFPage :=
  match rest with
  | [] => pdfPage
  | curr :: rest' =>
      let w := pointWidthPt curr pen in
      let p0 := toPdf (pt_x prev) (pt_y prev) geo in
      let p1 := toPdf (pt_x curr) (pt_y curr) geo in
      let pdfPage :=
        drawLine pdfPage p0 p1 w strokeColor strokeOpacity CapRound in
      drawSegments pdfPage pen strokeColor strokeOpacity geo curr rest'
  end.

(** The effective color and opacity of a stroke (lines 546-560). *)
Definition strokePaint (stroke : Stroke) : RGB * Q :=
  let style := getPenStyle (penType stroke) in
  match colorArgb stroke with
  | Some v =>
      let argb := getArgbColor v in
      (mkRGB (a_r argb) (a_g argb) (a_b argb),
       if isHighlighter style && isShader (penType stroke)
       then a_a argb else opacity style)
  | None => (getColor (color stroke), opacity style)
  end.

Definition renderStroke (pdfPage : PDFPage) (stroke : Stroke)
    (geo : PageGeometry) : PDFPage :=
  if (List.length (points stroke) <? 2)%nat then pdfPage
  else if isEraser (penType stroke) then pdfPage
  else
    let style := getPenStyle (penType stroke) in
    let (strokeColor, strokeOpacity) := strokePaint stroke in
    if isHighlighter style then
      renderHighlighterStroke pdfPage stroke strokeColor strokeOpacity geo
    else
      match points stroke with
      | [] => pdfPage
      | p0 :: rest =>
          drawSegments pdfPage (penType stroke) strokeColor strokeOpacity
            geo p0 rest
      end.

(** What [renderPageToPdf] draws when it returns: the annotation page
    and, when a background document was given, that document, which
    [mergeWithBackground] draws the annotation page over.  [filePages]
    below gives the pages of the file returned. *)
Record PdfOutputPage : Type := mkPdfOutputPage {
  annotation : PDFPage;
  background : option (list byte)
}.

Section Page.

(** The operators [renderTextBlock] appends for a text block.  The
    layout measures text with pdf-lib's font metrics
    ([widthOfTextAtSize]). *)
Variable textBlockOps : TextBlock -> PageGeometry -> list Operator.

Definition renderTextBlock (pdfPage : PDFPage) (tb : TextBlock)
    (geo : PageGeometry) : PDFPage :=
  pushOperators pdfPage (textBlockOps tb geo).

(** One pass of [renderPageToPdf] over all layers and strokes, keeping
    the strokes whose highlighter flag is [want]. *)
Definition renderPass (want : bool) (page : Page) (geo : PageGeometry)
    (pdfPage : PDFPage) : PDFPage :=
  fold_left
    (fun pdfPage layer =>
       fold_left
         (fun pdfPage stroke =>
            let ps := getPenStyle (penType stroke) in
            if Bool.eqb (isHighlighter ps) want
            then renderStroke pdfPage stroke geo
            else pdfPage)
         (strokes layer) pdfPage)
    (layers page) pdfPage.

(** The annotation page of [renderPageToPdf]. *)
Definition renderAnnotation (page : Page) : PDFPage :=
  let geo := computePageGeometry page in
  let pdfPage := addPage (pageWidthPt geo, pageHeightPt geo) in
  let pdfPage := renderPass true page geo pdfPage in
  let pdfPage := renderPass false page geo pdfPage in
  fold_left (fun pdfPage tb => renderTextBlock pdfPage tb geo)
    (textBlocks page) pdfPage.

Definition renderPageToPdf (page : Page)
    (backgroundPdf : option (list byte)) : PdfOutputPage :=
  {| annotation := renderAnnotation page; background := backgroundPdf |}.

(** What the calls of [renderPageToPdf] in the loop of
    [renderNotebookToPdf] draw, from page index [i] on. *)
Fixpoint renderNotebookFrom (i : nat) (pages : list Page)
    (backgroundPdfs : list (option (list byte))) : list PdfOutputPage :=
  match pages with
  | [] => []
  | page :: rest =>
      let background :=
        match nth_error backgroundPdfs i with
        | Some bg => bg
        | None => None
        end in
      renderPageToPdf page background
      :: renderNotebookFrom (S i) rest backgroundPdfs
  end.

End Page.

(** *** The files the renderer returns

    A PDF file is held as the list of its pages: a page the renderer drew,
    or page [index] of a background document, with the page drawn over it
    if one was. *)

Inductive FilePage : Type :=
| Drawn (pdfPage : PDFPage)
| Background (backgroundPdf : list byte) (index : nat)
             (over : option PDFPage).

(** [PageSizes.A4] of pdf-lib, the size of the page [addPage()] adds. *)
Definition A4 : Q * Q := (595.28, 841.89).

Section Files.

Variable textBlockOps : TextBlock -> PageGeometry -> list Operator.

(** What the [try] block of [mergeWithBackground] finds: [Some n] when
    pdf-lib loads the background, a document of [n] pages, and embeds and
    draws the annotation page when [n] is not 0; [None] when one of its
    calls throws. *)
Variable backgroundPages : list byte -> option nat.

(** The error [renderPageToPdf] throws on a page, when it throws: pdf-lib
    refuses a text that its font cannot encode. *)
Variable renderThrows : Page -> option Thrown.

(** [mergeWithBackground] (lines 742-769): the background document with
    the annotation page drawn over its first page, or the annotation file
    when the background has no page or a call throws. *)
Definition mergeWithBackground (annotationPage : PDFPage)
    (backgroundPdf : list byte) : list FilePage :=
  match backgroundPages backgroundPdf with
  | None => [Drawn annotationPage]
  | Some O => [Drawn annotationPage]
  | Some (S n) =>
      Background backgroundPdf 0 (Some annotationPage)
      :: map (fun k => Background backgroundPdf k None) (seq 1 n)
  end.

(** The pages of the file [renderPageToPdf] returns (lines 712-719). *)
Definition filePages (out : PdfOutputPage) : list FilePage :=
  match background out with
  | Some backgroundPdf => mergeWithBackground (annotation out) backgroundPdf
  | None => [Drawn (annotation out)]
  end.

(** A call of [renderPageToPdf]: the error it throws, or the pages of the
    file it returns. *)
Definition renderPageFile (page : Page)
    (backgroundPdf : option (list byte)) : Thrown + list FilePage :=
  match renderThrows page with
  | Some e => inl e
  | None => inr (filePages (renderPageToPdf textBlockOps page backgroundPdf))
  end.

(** The loop of [renderNotebookToPdf] from page index [i] on, with the
    pages [outputDoc] holds so far: every page of the file of each page is
    copied. *)
Fixpoint renderNotebookLoop (i : nat) (pages : list Page)
    (backgroundPdfs : list (option (list byte)))
    (outputDoc : list FilePage) : Thrown + list FilePage :=
  match pages with
  | [] => inr outputDoc
  | page :: rest =>
      let background :=
        match nth_error backgroundPdfs i with
        | Some bg => bg
        | None => None
        end in
      match renderPageFile page background with
      | inl e => inl e
      | inr copiedPages =>
          renderNotebookLoop (S i) rest backgroundPdfs
            (outputDoc ++ copiedPages)
      end
  end.

(** [doc.save()] of pdf-lib: a document without pages is saved with one
    blank page of the default size. *)
Definition saveDocument (doc : list FilePage) : list FilePage :=
  match doc with
  | [] => [Drawn (addPage A4)]
  | _ :: _ => doc
  end.

(** [renderNotebookToPdf]; a missing [backgroundPdfs] is the empty list. *)
Definition renderNotebookToPdf (pages : list Page)
    (backgroundPdfs : list (option (list byte))) : Thrown + list FilePage :=
  match renderNotebookLoop 0 pages backgroundPdfs [] with
  | inl e => inl e
  | inr outputDoc => inr (saveDocument outputDoc)
  end.

End Files.

End PdfRenderer.

Import PdfRenderer.

(** ** document-converter *)

Module DocumentConverter.

Record PageInfo : Type := mkPageInfo {
  info_pageId : string;
  rmData : option (list byte);
  template : option string;
  verticalScroll : option Q
}.

Inductive DocType : Type := notebook | pdf | epub.

(** A value of [JSON.parse]; an object holds each of its keys once. *)
#[warnings="-register-all"] Inductive Json : Type :=
| JNull
| JBool (b : bool)
| JNumber (n : Q)
| JString (s : string)
| JArray (items : list Json)
| JObject (fields : list (string * Json)).

(** [DocumentContent] without its free-form [metadata] record; [name] is
    whatever value the metadata holds as [visibleName]. *)
Record DocumentContent : Type := mkDocumentContent {
  docId : string;
  docType : DocType;
  name : Json;
  pages : list PageInfo;
  originalPdf : option (list byte);
  originalEpub : option (list byte)
}.

Definition emptyPage (id : string) : Page :=
  {| pageId := id;
     layers := [];
     textSpans := [];
     textBlocks := [];
     width := 1404;
     height := 1872 |}.

(** The scan of lines 101-108: the largest [y] over all points of all
    strokes of all layers, starting from 0. *)
Definition maxStrokeY (page : Page) : Q :=
  fold_left
    (fun maxY layer =>
       fold_left
         (fun maxY stroke =>
            fold_left
              (fun maxY pt => if Qgtb (pt_y pt) maxY then pt_y pt else maxY)
              (points stroke) maxY)
         (strokes layer) maxY)
    (layers page) 0.

(** Lines 98-113: the height extension of a vertically scrolled page. *)
Definition extendPageHeight (scroll : option Q) (page : Page) : Page :=
  match scroll with
  | Some _ =>
      let defaultHeight := height page in
      let threshold := defaultHeight * 1.05 in
      let maxY := maxStrokeY page in
      let scaledHeight := maxY * 0.885 in
      if Qgtb scaledHeight threshold then set_height page scaledHeight
      else page
  | None => page
  end.

Section Convert.

(** [parseRmFile] of rm-parser, which is not among the sources: [None]
    when it throws. *)
Variable parseRmFile : list byte -> option Page.

(** [extractPdfPage]: page [pageNum] of the original PDF as a document
    of its own, [None] for its [null]; the work is pdf-lib's. *)
Variable extractPdfPage : list byte -> nat -> option (list byte).

Variable textBlockOps : TextBlock -> PageGeometry -> list Operator.

(** Lines 86-121: the page pushed onto [parsedPages] for one
    [pageInfo]. *)
Definition parsedPage (pageInfo : PageInfo) : Page :=
  match rmData pageInfo with
  | Some data =>
      match parseRmFile data with
      | Some page =>
          let page := set_pageId page (info_pageId pageInfo) in
          extendPageHeight (verticalScroll pageInfo) page
      | None => emptyPage (info_pageId pageInfo)
      end
  | None => emptyPage (info_pageId pageInfo)
  end.

(** Lines 123-132: the entry pushed onto [backgroundPdfs]. *)
Definition backgroundPdf (content : DocumentContent) (i : nat)
    : option (list byte) :=
  match originalPdf content with
  | Some pdfData => extractPdfPage pdfData i
  | None => None
  end.

(** The loop of [convertToPdf] from index [i] on: the two arrays it
    fills. *)
Fixpoint convertLoop (content : DocumentContent) (i : nat)
    (infos : list PageInfo) : list Page * list (option (list byte)) :=
  match infos with
  | [] => ([], [])
  | pageInfo :: rest =>
      let (parsedPages, backgroundPdfs) := convertLoop content (S i) rest in
      (parsedPage pageInfo :: parsedPages,
       backgroundPdf content i :: backgroundPdfs)
  end.

(** The calls of [renderPageToPdf] that [convertToPdf] makes once
    [parse] has answered [content] (lines 76-138), with what each draws
    when it returns: [inl] carries the message of the error of line 77.
    [convertToPdf] itself, with [parse], the errors of the renderer and
    the files returned, is in [Conversion] below. *)
Definition convertContent (content : DocumentContent)
    : string + list PdfOutputPage :=
  match pages content with
  | [] => inl "No pages found in document"%string
  | _ =>
      let (parsedPages, backgroundPdfs) :=
        convertLoop content 0 (pages content) in
      match parsedPages with
      | [page] =>
          inr [renderPageToPdf textBlockOps page
                 (match backgroundPdfs with
                  | bg :: _ => bg
                  | [] => None
                  end)]
      | _ => inr (renderNotebookFrom textBlockOps 0 parsedPages backgroundPdfs)
      end
  end.

(** The output page that input page [i] gives: the page pushed onto
    [parsedPages], rendered over the entry pushed onto [backgroundPdfs]. *)
Definition outputPage (content : DocumentContent) (i : nat)
    (pageInfo : PageInfo) : PdfOutputPage :=
  renderPageToPdf textBlockOps (parsedPage pageInfo) (backgroundPdf content i).

Fixpoint outputPagesFrom (content : DocumentContent) (i : nat)
    (infos : list PageInfo) : list PdfOutputPage :=
  match infos with
  | [] => []
  | pageInfo :: rest =>
      outputPage content i pageInfo :: outputPagesFrom content (S i) rest
  end.

End Convert.

End DocumentConverter.

Import DocumentConverter.

(** ** The same arithmetic on binary64

    The calibration and the extension test of the code, written on
    primitive IEEE doubles, to evaluate the concrete cases of the
    statements with the rounding the program has. *)

Module Binary64.

Import PrimFloat.

Set Warnings "-inexact-float".

Definition COORD_SCALE : float := (514 / 1620)%float.

(** [toPdf(x, y, geo).px] with [geo.xOffset = RM_SCREEN_WIDTH_PX / 2]. *)
Definition toPdf_px (x : float) : float :=
  ((x + 1620 / 2) * COORD_SCALE)%float.

(** [scaledHeight > threshold] for a page of height [h] whose strokes reach
    [maxY]. *)
Definition exceeds (maxY h : float) : bool :=
  let threshold := (h * 1.05)%float in
  let scaledHeight := (maxY * 0.885)%float in
  ltb threshold scaledHeight.

Definition within (tolerance value target : float) : bool :=
  leb (abs (value - target)) tolerance.

Set Warnings "+inexact-float".

End Binary64.

(** ** Vocabulary of the statements *)

(** The clamp range of each pen, as [pointWidthPt] fixes it. *)
Definition clampRange (pen : PenType) : Q * Q :=
  match pen with
  | BALLPOINT_1 | BALLPOINT_2 => (0.3, 3.0)
  | FINELINER_1 | FINELINER_2 => (0.3, 4.0)
  | PENCIL_1 | PENCIL_2 => (0.2, 4.0)
  | MECHANICAL_PENCIL_1 | MECHANICAL_PENCIL_2 => (0.2, 3.0)
  | MARKER_1 | MARKER_2 => (1.0, 15.0)
  | CALLIGRAPHY => (0.2, 10.0)
  | PAINTBRUSH_2 => (0.3, 8.0)
  | BRUSH => (0.2, 10.0)
  | _ => (0.2, 20.0)
  end.

(** The operators one call of [renderStroke] adds to a blank page. *)
Definition strokeOps (stroke : Stroke) (geo : PageGeometry) : list Operator :=
  operators (renderStroke (addPage (0, 0)) stroke geo).

(** The color and opacity an operator paints with. *)
Definition paintOf (op : Operator) : option (RGB * Q) :=
  match op with
  | DrawLine _ _ _ c o _ => Some (c, o)
  | DrawSvgPath _ c _ o _ _ => Some (c, o)
  | SetLineJoin _ | DrawText _ _ _ _ _ _ => None
  end.

Definition isPathOp (op : Operator) : bool :=
  match op with
  | DrawSvgPath _ _ _ _ _ _ => true
  | _ => false
  end.

Definition isLineOp (op : Operator) : bool :=
  match op with
  | DrawLine _ _ _ _ _ _ => true
  | _ => false
  end.

(** The lines of a segment-by-segment stroke. *)
Fixpoint segmentOps (pen : PenType) (c : RGB) (o : Q) (geo : PageGeometry)
    (prev : Point) (rest : list Point) : list Operator :=
  match rest with
  | [] => []
  | curr :: rest' =>
      DrawLine (toPdf (pt_x prev) (pt_y prev) geo)
               (toPdf (pt_x curr) (pt_y curr) geo)
               (pointWidthPt curr pen) c o CapRound
      :: segmentOps pen c o geo curr rest'
  end.

(** What a call of [renderStroke] appends, whatever the page holds. *)
Definition emitted (stroke : Stroke) (geo : PageGeometry) : list Operator :=
  if (List.length (points stroke) <? 2)%nat then []
  else if isEraser (penType stroke) then []
  else if isHighlighter (getPenStyle (penType stroke)) then
    [SetLineJoin JoinRound;
     DrawSvgPath (svgPath geo (points stroke)) (fst (strokePaint stroke))
       (Math_max 1.0
          (Math_min
             (nth (List.length (sortedWidths stroke) / 2)%nat
                (sortedWidths stroke) 0 * SCALE * WIDTH_FACTOR) 15.0))
       (snd (strokePaint stroke)) CapRound (pageHeightPt geo)]
  else
    match points stroke with
    | [] => []
    | p0 :: rest =>
        segmentOps (penType stroke) (fst (strokePaint stroke))
          (snd (strokePaint stroke)) geo p0 rest
    end.

(** [m] is the value of rank [n / 2] (from 0) among the [n] values of [l]:
    at most [n / 2] values lie strictly below it and fewer than [n - n / 2]
    strictly above.  For an odd [n] this is the median, for an even [n] the
    upper of the two middle values. *)
Definition countBelow (m : Q) (l : list Q) : nat :=
  List.length (filter (fun v => Qgtb m v) l).

Definition countAbove (m : Q) (l : list Q) : nat :=
  List.length (filter (fun v => Qgtb v m) l).

Definition isUpperMedian (m : Q) (l : list Q) : Prop :=
  In m l /\
  (countBelow m l <= List.length l / 2)%nat /\
  (countAbove m l + List.length l / 2 < List.length l)%nat.

(** The median in the usual sense: the middle value of the sorted list,
    and for an even count the mean of the two middle values. *)
Definition median (l : list Q) : Q :=
  let s := NumberSort.sort l in
  let n := List.length s in
  if Nat.even n
  then (nth (n / 2 - 1)%nat s 0 + nth (n / 2)%nat s 0) / 2
  else nth (n / 2)%nat s 0.

(** The widths of the paths among some operators. *)
Definition pathWidths (ops : list Operator) : list Q :=
  flat_map
    (fun op =>
       match op with
       | DrawSvgPath _ _ w _ _ _ => [w]
       | _ => []
       end)
    ops.

(** Entry [k] of the background array, [None] when it is null or the
    array is too short. *)
Definition entryAt (backgroundPdfs : list (option (list byte))) (k : nat)
    : option (list byte) :=
  match nth_error backgroundPdfs k with
  | Some bg => bg
  | None => None
  end.

(** The files of the pages, one file per page, the first page having
    index [i]. *)
Fixpoint copiedFrom {A : Type} (fileOf : nat -> Page -> A) (i : nat)
    (pages : list Page) : list A :=
  match pages with
  | [] => []
  | page :: rest => fileOf i page :: copiedFrom fileOf (S i) rest
  end.

(** All strokes of a page, layer by layer, each layer in stroke order. *)
Definition allStrokes (page : Page) : list Stroke :=
  flat_map strokes (layers page).

Definition isHighlighterStroke (stroke : Stroke) : bool :=
  isHighlighter (getPenStyle (penType stroke)).

(** ** Sample pages and documents *)

Module Examples.

(** A two-point stroke from device (-213, 0) to (290, [yMax]). *)
Definition strokeTo (pen : PenType) (argb : option Z) (yMax : Q) : Stroke :=
  {| penType := pen; color := 0; colorArgb := argb;
     points := [mkPoint (-213) 0 2; mkPoint 290 yMax 2] |}.

(** A decoded page of default size whose only stroke reaches [yMax]. *)
Definition pageWithMaxY (yMax : Q) : Page :=
  {| pageId := ""; layers := [mkLayer [strokeTo FINELINER_1 None yMax]];
     textSpans := []; textBlocks := []; width := 1404; height := 1872 |}.

(** A three-point highlighter stroke with widths 30, 10 and 20. *)
Definition highlighterStroke : Stroke :=
  {| penType := HIGHLIGHTER_1; color := 9; colorArgb := None;
     points := [mkPoint 0 0 30; mkPoint 10 10 10; mkPoint 20 30 20] |}.

(** A stroke along the diagonal, one point per width. *)
Definition widthsStroke (pen : PenType) (widths : list Q) : Stroke :=
  {| penType := pen; color := 9; colorArgb := None;
     points :=
       map (fun iw : nat * Q =>
              mkPoint (inject_Z (Z.of_nat (fst iw)) * 10)
                (inject_Z (Z.of_nat (fst iw)) * 10) (snd iw))
         (combine (seq 0 (List.length widths)) widths) |}.

Definition scrolledInfo : PageInfo :=
  {| info_pageId := "page-1"; rmData := Some [x00]; template := None;
     verticalScroll := Some 640 |}.

Definition plainInfo : PageInfo :=
  {| info_pageId := "page-2"; rmData := Some [x00]; template := None;
     verticalScroll := None |}.

Definition brokenInfo : PageInfo :=
  {| info_pageId := "page-3"; rmData := Some []; template := None;
     verticalScroll := None |}.

Definition document (infos : list PageInfo) : DocumentContent :=
  {| docId := "doc"; docType := notebook; name := JString "Untitled";
     pages := infos; originalPdf := None; originalEpub := None |}.

(** A decoder that rejects an empty buffer and decodes any other buffer to
    [page]. *)
Definition decodesTo (page : Page) (data : list byte) : option Page :=
  match data with
  | [] => None
  | _ => Some page
  end.

Definition noBackground (pdfData : list byte) (pageNum : nat)
    : option (list byte) := None.

Definition noText (tb : TextBlock) (geo : PageGeometry) : list Operator := [].

(** Every background loads as a document of two pages. *)
Definition twoPages (backgroundPdf : list byte) : option nat := Some 2%nat.

(** Every background loads as a document of one page. *)
Definition onePage (backgroundPdf : list byte) : option nat := Some 1%nat.

(** No page makes the renderer throw. *)
Definition neverThrows (page : Page) : option Thrown := None.

(** Text operators that draw the two letters [Ti] at the origin of the
    block, as a heading. *)
Definition heading (tb : TextBlock) (geo : PageGeometry) : list Operator :=
  [DrawText "Ti" (px (toPdf (posX tb) (posY tb) geo))
     (py (toPdf 0 (posY tb) geo)) 18 true (mkRGB 0 0 0)].

(** A page with a text block, whose strokes are two eraser strokes of two
    points and a fineliner stroke of one point. *)
Definition erasedPage : Page :=
  {| pageId := "page-4";
     layers :=
       [mkLayer [strokeTo ERASER None 500;
                 {| penType := FINELINER_1; color := 0; colorArgb := None;
                    points := [mkPoint 10 10 2] |}];
        mkLayer [strokeTo ERASER_AREA None 900]];
     textSpans := [];
     textBlocks :=
       [{| posX := -600; posY := 100; tb_width := 1000; text := "Ti";
           paragraphStyles := [(0, 2)]%Z |}];
     width := 1404; height := 1872 |}.

End Examples.

(** A number between 0 and 1, as pdf-lib's [rgb] and opacities require. *)
Definition unitInterval (q : Q) : Prop := 0 <= q <= 1.

Definition unitColor (c : RGB) : Prop :=
  unitInterval (r c) /\ unitInterval (g c) /\ unitInterval (b c).

(** The integer value of a channel of [getArgbColor]: the channel times 255. *)
Definition channelByte (q : Q) : Z := Qfloor (q * 255).

(** One step of the scan of [maxStrokeY] (line 105). *)
Definition maxYStep (maxY : Q) (pt : Point) : Q :=
  if Qgtb (pt_y pt) maxY then pt_y pt else maxY.

(** All points of a page, in the order the scan visits them. *)
Definition allPoints (page : Page) : list Point :=
  flat_map points (allStrokes page).

(** ** pdf-renderer: text layout *)

Module TextLayout.

(** A JavaScript string is the list of its UTF-16 code units. *)
Definition JsString : Type := list Z.

Definition LF : Z := 10.
Definition SPACE : Z := 32.
Definition BULLET_CHAR : Z := 8226.
Definition LINE_SEPARATOR : Z := 8232.
Definition PARAGRAPH_SEPARATOR : Z := 8233.

(** The code units [String.prototype.trim] strips: ECMAScript's WhiteSpace
    and LineTerminator. *)
Definition isWhiteSpace (c : Z) : bool :=
  ((9 <=? c) && (c <=? 13) || (c =? 32) || (c =? 160) || (c =? 5760)
   || (8192 <=? c) && (c <=? 8202) || (c =? 8232) || (c =? 8233)
   || (c =? 8239) || (c =? 8287) || (c =? 12288) || (c =? 65279))%Z.

Fixpoint trimStart (s : JsString) : JsString :=
  match s with
  | [] => []
  | c :: rest => if isWhiteSpace c then trimStart rest else s
  end.

Definition trimEnd (s : JsString) : JsString := rev (trimStart (rev s)).

Definition trim (s : JsString) : JsString := trimEnd (trimStart s).

(** [!s.trim()]. *)
Definition isBlank (s : JsString) : bool :=
  match trim s with
  | [] => true
  | _ :: _ => false
  end.

(** [s.split(sep)] for a separator of one code unit. *)
Fixpoint split (sep : Z) (s : JsString) : list JsString :=
  match s with
  | [] => [[]]
  | c :: rest =>
      if (c =? sep)%Z then [] :: split sep rest
      else
        match split sep rest with
        | piece :: pieces => (c :: piece) :: pieces
        | [] => [[c]]
        end
  end.

(** [s.replace(/c/g, to)] for one code unit [c]. *)
Definition replaceAll (c to : Z) (s : JsString) : JsString :=
  map (fun u => if (u =? c)%Z then to else u) s.

(** The class [[\x00-\xFF•]]. *)
Definition winAnsiOrBullet (c : Z) : bool :=
  ((0 <=? c) && (c <=? 255) || (c =? BULLET_CHAR))%Z.

Definition sanitizeForWinAnsi (text : JsString) : JsString :=
  filter winAnsiOrBullet
    (replaceAll PARAGRAPH_SEPARATOR LF (replaceAll LINE_SEPARATOR LF text)).

(** Paragraph styles. *)
Definition STYLE_PLAIN : Z := 1.
Definition STYLE_HEADING : Z := 2.
Definition STYLE_BOLD : Z := 3.
Definition STYLE_BULLET : Z := 4.
Definition STYLE_BULLET2 : Z := 5.
Definition STYLE_CHECKBOX : Z := 6.
Definition STYLE_CHECKBOX_CHECKED : Z := 7.
Definition STYLE_NUMBERED : Z := 10.

Inductive StandardFonts : Type := Helvetica | HelveticaBold.

Record FontSetting : Type := mkFontSetting {
  fontKey : StandardFonts;
  fontSize : Q;
  lineHeight : Q
}.

Definition STYLE_FONTS (style : Z) : option FontSetting :=
  match style with
  | 2%Z => Some (mkFontSetting HelveticaBold 18 26)
  | 3%Z => Some (mkFontSetting HelveticaBold 13 23)
  | _ => None
  end.

Definition DEFAULT_FONT : FontSetting := mkFontSetting Helvetica 10 23.

Definition getFontSetting (style : Z) : FontSetting :=
  match STYLE_FONTS style with
  | Some setting => setting
  | None => DEFAULT_FONT
  end.

(** The paragraph index the source also passes is unused. *)
Definition getStylePrefix (style : Z) : JsString :=
  match style with
  | 4%Z => [32; 32; 8226; 32]
  | 5%Z => [32; 32; 32; 32; 32; 32; 8226; 32]
  | 6%Z => [91; 32; 93; 32]
  | 7%Z => [91; 120; 93; 32]
  | 10%Z => [49; 46; 32]
  | _ => []
  end%Z.

Definition isBoldStyle (style : Z) : bool :=
  ((style =? STYLE_HEADING) || (style =? STYLE_BOLD))%Z.

(** [map.get(key)] on a [Map<number, number>] held as its entries. *)
Fixpoint mapGet (entries : list (Z * Z)) (key : Z) : option Z :=
  match entries with
  | [] => None
  | (k, v) :: rest => if (k =? key)%Z then Some v else mapGet rest key
  end.

(** One call of [pdfPage.drawText], with the options the renderer passes. *)
Record DrawTextCall : Type := mkDrawTextCall {
  dt_line : JsString;
  dt_x : Q;
  dt_y : Q;
  dt_size : Q;
  dt_font : StandardFonts;
  dt_color : RGB
}.

Section Layout.

(** [font.widthOfTextAtSize(text, size)] of pdf-lib, for the embedded font
    [font].  pdf-lib throws on a text the font cannot encode; the layout
    is modelled on the texts it measures, and the function is total
    here. *)
Variable widthOfTextAtSize : StandardFonts -> JsString -> Q -> Q.

(** The UTF-16 code units of a text of the page model. *)
Variable utf16 : string -> JsString.

(** The body of the loop of [wrapText] over the words: the state is
    [lines] and [currentLine]. *)
Definition wrapStep (maxWidth : Q) (font : StandardFonts) (size : Q)
    (state : list JsString * JsString) (word : JsString)
    : list JsString * JsString :=
  let (lines, currentLine) := state in
  let test := trim (currentLine ++ [SPACE] ++ word) in
  let w := widthOfTextAtSize font test size in
  if Qle_bool w maxWidth || match currentLine with [] => true | _ => false end
  then (lines, test)
  else (lines ++ [currentLine], word).

Definition wrapText (text : JsString) (maxWidth : Q) (font : StandardFonts)
    (size : Q) : list JsString :=
  let words := split SPACE text in
  let (lines, currentLine) :=
    fold_left (wrapStep maxWidth font size) words ([], []) in
  let lines :=
    match currentLine with
    | [] => lines
    | _ :: _ => lines ++ [currentLine]
    end in
  match lines with
  | [] => [[]]
  | _ :: _ => lines
  end.

(** The style of the paragraph that starts at [charOffset]. *)
Definition paragraphStyle (tb : TextBlock) (charOffset : Z) : Z :=
  match mapGet (paragraphStyles tb) charOffset with
  | Some style => style
  | None => STYLE_PLAIN
  end.

(** The lines of one paragraph: [wrapText(prefix + para, ...)]. *)
Definition paragraphLines (tb : TextBlock) (font boldFont : StandardFonts)
    (charOffset : Z) (para : JsString) : list JsString :=
  let style := paragraphStyle tb charOffset in
  let setting := getFontSetting style in
  let activeFont := if isBoldStyle style then boldFont else font in
  let prefix := getStylePrefix style in
  wrapText (prefix ++ para) (tb_width tb * COORD_SCALE) activeFont
    (fontSize setting).

(** The body of the loop of [computeTextBlockHeightPt]: the state is
    [totalHeight] and [charOffset]. *)
Definition heightStep (tb : TextBlock) (font boldFont : StandardFonts)
    (state : Q * Z) (para : JsString) : Q * Z :=
  let (totalHeight, charOffset) := state in
  let style := paragraphStyle tb charOffset in
  let setting := getFontSetting style in
  let totalHeight :=
    if negb (isBlank para) then
      let lines := paragraphLines tb font boldFont charOffset para in
      totalHeight
      + lineHeight setting * inject_Z (Z.of_nat (List.length lines))
    else totalHeight + lineHeight setting in
  (totalHeight, (charOffset + Z.of_nat (List.length para) + 1)%Z).

Definition computeTextBlockHeightPt (tb : TextBlock)
    (font boldFont : StandardFonts) : Q :=
  let paragraphs := split LF (sanitizeForWinAnsi (utf16 (text tb))) in
  fst (fold_left (heightStep tb font boldFont) paragraphs (0, 0%Z)).

(** The loop over the lines of a paragraph: the state is the calls made so
    far and [cursorY]. *)
Definition drawLines (blockX : Q) (setting : FontSetting)
    (activeFont : StandardFonts) (state : list DrawTextCall * Q)
    (lines : list JsString) : list DrawTextCall * Q :=
  fold_left
    (fun (state : list DrawTextCall * Q) (line : JsString) =>
       let (drawn, cursorY) := state in
       let cursorY := cursorY - lineHeight setting in
       (drawn
        ++ [mkDrawTextCall line blockX cursorY (fontSize setting) activeFont
              (mkRGB 0 0 0)],
        cursorY))
    lines state.

(** The body of the loop of [renderTextBlock] over the paragraphs: the
    state is the calls made so far, [cursorY] and [charOffset]. *)
Definition renderStep (tb : TextBlock) (font boldFont : StandardFonts)
    (blockX : Q) (state : list DrawTextCall * Q * Z) (para : JsString)
    : list DrawTextCall * Q * Z :=
  let '(drawn, cursorY, charOffset) := state in
  let style := paragraphStyle tb charOffset in
  let setting := getFontSetting style in
  let activeFont := if isBoldStyle style then boldFont else font in
  let (drawn, cursorY) :=
    if negb (isBlank para) then
      let lines := paragraphLines tb font boldFont charOffset para in
      drawLines blockX setting activeFont (drawn, cursorY) lines
    else (drawn, cursorY - lineHeight setting) in
  (drawn, cursorY, (charOffset + Z.of_nat (List.length para) + 1)%Z).

(** [renderTextBlock], with the state its loop ends in: the [drawText]
    calls it made, in order, and the final [cursorY]. *)
Definition renderTextBlockState (tb : TextBlock) (geo : PageGeometry)
    (font boldFont : StandardFonts) : list DrawTextCall * Q :=
  let blockX := px (toPdf (posX tb) (posY tb) geo) in
  let paragraphs := split LF (sanitizeForWinAnsi (utf16 (text tb))) in
  let cursorY := py (toPdf 0 (posY tb) geo) in
  let '(drawn, cursorY, _) :=
    fold_left (renderStep tb font boldFont blockX) paragraphs
      ([], cursorY, 0%Z) in
  (drawn, cursorY).

Definition renderTextBlock (tb : TextBlock) (geo : PageGeometry)
    (font boldFont : StandardFonts) : list DrawTextCall :=
  if isBlank (utf16 (text tb)) then []
  else fst (renderTextBlockState tb geo font boldFont).

End Layout.

End TextLayout.

(** A line of wrapped text is acceptable when it fits in the wrap width or
    holds no space to break it at. *)
Definition fitsOrUnbreakable
    (widthOfTextAtSize : TextLayout.StandardFonts -> TextLayout.JsString -> Q -> Q)
    (maxWidth : Q) (font : TextLayout.StandardFonts) (size : Q)
    (line : TextLayout.JsString) : Prop :=
  widthOfTextAtSize font line size <= maxWidth
  \/ ~ In TextLayout.SPACE line.

(** What the loop of [wrapText] keeps true of [lines] and [currentLine]:
    the lines pushed are non-empty and acceptable, and the current line is
    acceptable. *)
Definition wrapLoopInvariant
    (widthOfTextAtSize : TextLayout.StandardFonts -> TextLayout.JsString -> Q -> Q)
    (maxWidth : Q) (font : TextLayout.StandardFonts) (size : Q)
    (state : list TextLayout.JsString * TextLayout.JsString) : Prop :=
  Forall
    (fun line =>
       line <> []
       /\ fitsOrUnbreakable widthOfTextAtSize maxWidth font size line)
    (fst state) /\
  fitsOrUnbreakable widthOfTextAtSize maxWidth font size (snd state).

(** A sample font metric: every code unit is half the font size wide. *)
Definition halfEm (font : TextLayout.StandardFonts)
    (s : TextLayout.JsString) (size : Q) : Q :=
  inject_Z (Z.of_nat (List.length s)) * size * (1 # 2).

(** A sample decoding: one code unit per character of the string. *)
Definition latin1 (s : string) : TextLayout.JsString :=
  map (fun a => Z.of_N (Ascii.N_of_ascii a)) (list_ascii_of_string s).

(** Two [drawText] calls whose baselines are at least 23pt apart, the
    second below the first. *)
Definition baselineGap (c1 c2 : TextLayout.DrawTextCall) : Prop :=
  TextLayout.dt_y c2 <= TextLayout.dt_y c1 - 23.

(** The options every [drawText] call of a text block carries: the block's
    x, black, and a size and font of the style table. *)
Definition styledCall (blockX : Q) (font boldFont : TextLayout.StandardFonts)
    (c : TextLayout.DrawTextCall) : Prop :=
  TextLayout.dt_x c = blockX /\
  TextLayout.dt_color c = mkRGB 0 0 0 /\
  ((TextLayout.dt_size c = 18 \/ TextLayout.dt_size c = 13)
   /\ TextLayout.dt_font c = boldFont
   \/ TextLayout.dt_size c = 10 /\ TextLayout.dt_font c = font).

(** A text block with a heading, an empty paragraph and a bulleted line. *)
Definition newline : string := String (Ascii.ascii_of_nat 10) EmptyString.

Definition sampleTextBlock : TextBlock :=
  {| posX := -600; posY := 100; tb_width := 1000;
     text := ("Ti" ++ newline ++ newline ++ "a b")%string;
     paragraphStyles := [(0, 2); (4, 4)]%Z |}.

(** ** sync-manager *)

Module SyncManager.

(** *** [simpleHash] *)

(** [ToInt32], the conversion the bitwise operators and [Math.imul] apply. *)
Definition ToInt32 (n : Z) : Z := ((n + 2 ^ 31) mod 2 ^ 32 - 2 ^ 31)%Z.

(** [a ^ b]. *)
Definition xor32 (a b : Z) : Z := ToInt32 (Z.lxor (ToInt32 a) (ToInt32 b)).

(** [Math.imul(a, b)]. *)
Definition Math_imul (a b : Z) : Z := ToInt32 (ToInt32 a * ToInt32 b).

(** The loop of [simpleHash]: the value of [hash] after the last byte. *)
Definition hashLoop (data : list byte) : Z :=
  fold_left
    (fun hash byte =>
       let hash := xor32 hash (Z.of_N (Byte.to_N byte)) in
       Math_imul hash 16777619)
    data 2166136261%Z.

Definition hexDigit (d : Z) : Ascii.ascii :=
  Ascii.ascii_of_N (Z.to_N (if (d <? 10)%Z then 48 + d else 87 + d)%Z).

(** The digits of [n.toString(16)], most significant first, before [acc];
    [fuel] bounds the number of digits. *)
Fixpoint hexDigits (fuel : nat) (n : Z) (acc : string) : string :=
  match fuel with
  | O => acc
  | S fuel' =>
      let acc := String (hexDigit (n mod 16)) acc in
      if (n / 16 =? 0)%Z then acc else hexDigits fuel' (n / 16) acc
  end.

(** [n.toString(16)] for an integer [n >= 0]. *)
Definition toString16 (n : Z) : string :=
  hexDigits (S (Z.to_nat (Z.log2 n))) n EmptyString.

(** [s.padStart(targetLength, '0')]. *)
Definition padStart0 (s : string) (targetLength : nat) : string :=
  (string_of_list_ascii
     (repeat "0"%char (targetLength - String.length s)) ++ s)%string.

Definition simpleHash (data : list byte) : string :=
  padStart0 (toString16 (ToUint32 (hashLoop data))) 8.

(** *** Sync state *)

Record SyncedDocInfo : Type := mkSyncedDocInfo {
  version : option Z;
  path : string;
  hash : string;
  syncedAt : string
}.

(** [SyncState].  The field [syncedDocs] of the source is a plain object
    used as a [Record<string, SyncedDocInfo>], read and written by key.
    Here [syncedDocs] holds its own properties.  Reading a key of a plain
    object also finds what the object inherits: the members of
    [Object.prototype] and, once an entry has been assigned under the key
    [__proto__], which replaces the prototype of the object instead of
    adding a property, the fields of that entry.  [inherited] is that
    entry, [None] while the prototype is [Object.prototype]. *)
Record SyncState : Type := mkSyncState {
  lastSync : option string;
  syncedDocs : string -> option SyncedDocInfo;
  inherited : option SyncedDocInfo
}.

(** The fields of cloud-client's [DocumentMetadata] that the sync manager
    reads. *)
Record DocumentMetadata : Type := mkDocumentMetadata {
  doc_id : string;
  doc_name : string;
  doc_version : Z;
  isTrashed : bool;
  modifiedTime : string
}.

(** What reading a key of [syncedDocs] finds. *)
Inductive Found : Type :=
| FoundEntry (info : SyncedDocInfo)
| FoundObject
| FoundString (s : string)
| FoundNumber (n : Z)
| NotFound.

(** The names of the members of [Object.prototype]: each is a function,
    but for [__proto__], which reads as the prototype of the object. *)
Definition objectPrototypeNames : list string :=
  ["constructor"; "__defineGetter__"; "__defineSetter__"; "hasOwnProperty";
   "__lookupGetter__"; "__lookupSetter__"; "isPrototypeOf";
   "propertyIsEnumerable"; "toString"; "valueOf"; "__proto__";
   "toLocaleString"]%string.

Definition objectPrototypeMember (key : string) : Found :=
  if existsb (String.eqb key) objectPrototypeNames then FoundObject
  else NotFound.

(** The property [key] of an entry that serves as prototype; an entry
    without a version has no such property. *)
Definition entryField (info : SyncedDocInfo) (key : string) : option Found :=
  if String.eqb key "version" then
    match version info with
    | Some v => Some (FoundNumber v)
    | None => None
    end
  else if String.eqb key "path" then Some (FoundString (path info))
  else if String.eqb key "hash" then Some (FoundString (hash info))
  else if String.eqb key "syncedAt" then Some (FoundString (syncedAt info))
  else None.

(** [state.syncedDocs[key]]: an own property first, then the prototype
    chain. *)
Definition lookup (state : SyncState) (key : string) : Found :=
  match syncedDocs state key with
  | Some info => FoundEntry info
  | None =>
      match inherited state with
      | Some proto =>
          if String.eqb key "__proto__" then FoundEntry proto
          else
            match entryField proto key with
            | Some found => found
            | None => objectPrototypeMember key
            end
      | None => objectPrototypeMember key
      end
  end.

(** [key in state.syncedDocs]. *)
Definition hasKey (state : SyncState) (key : string) : bool :=
  match lookup state key with
  | NotFound => false
  | _ => true
  end.

(** [needsSync]: [!synced] holds of [undefined], of the empty string and
    of 0; the [version] of a function, a string or a number is
    [undefined]. *)
Definition needsSync (state : SyncState) (doc : DocumentMetadata) : bool :=
  match lookup state (doc_id doc) with
  | NotFound => true
  | FoundEntry synced =>
      (match version synced with Some v => v | None => 0 end
       <? doc_version doc)%Z
  | FoundObject => (0 <? doc_version doc)%Z
  | FoundString s =>
      match s with
      | EmptyString => true
      | String _ _ => (0 <? doc_version doc)%Z
      end
  | FoundNumber n =>
      if (n =? 0)%Z then true else (0 <? doc_version doc)%Z
  end.

(** [state.syncedDocs[id] = info].  Under the key [__proto__], unless the
    object has an own property of that name, the assignment runs the
    setter of [Object.prototype] and [info] becomes the prototype. *)
Definition setSyncedDoc (state : SyncState) (id : string)
    (info : SyncedDocInfo) : SyncState :=
  if String.eqb id "__proto__"
     && match syncedDocs state id with Some _ => false | None => true end
  then
    {| lastSync := lastSync state;
       syncedDocs := syncedDocs state;
       inherited := Some info |}
  else
    {| lastSync := lastSync state;
       syncedDocs :=
         fun key =>
           if String.eqb key id then Some info else syncedDocs state key;
       inherited := inherited state |}.

(** *** Paths of [syncDocument] *)

Fixpoint mapString (f : Ascii.ascii -> Ascii.ascii) (s : string) : string :=
  match s with
  | EmptyString => EmptyString
  | String c rest => String (f c) (mapString f rest)
  end.

(** The class of the regular expression of [safePath]: the characters
    less-than, greater-than, colon, double quote, bar, question mark and
    star. *)
Definition isReserved (c : Ascii.ascii) : bool :=
  match Ascii.N_of_ascii c with
  | 60%N | 62%N | 58%N | 34%N | 124%N | 63%N | 42%N => true
  | _ => false
  end.

(** [docPath.replace(re, '_')] with that class, global. *)
Definition safePath (docPath : string) : string :=
  mapString (fun c => if isReserved c then "_"%char else c) docPath.

(** [s.lastIndexOf('/')], or -1. *)
Fixpoint lastIndexOfSlash (s : string) : Z :=
  match s with
  | EmptyString => (-1)%Z
  | String c rest =>
      let i := lastIndexOfSlash rest in
      if (0 <=? i)%Z then (i + 1)%Z
      else if Ascii.eqb c "/"%char then 0%Z else (-1)%Z
  end.

(** [s.substring(start, end)]: both indices are clamped to the string and
    swapped when out of order. *)
Definition substring (s : string) (start finish : Z) : string :=
  let len := Z.of_nat (String.length s) in
  let clamp := fun i => Z.max 0 (Z.min i len) in
  let a := Z.min (clamp start) (clamp finish) in
  let b := Z.max (clamp start) (clamp finish) in
  String.substring (Z.to_nat a) (Z.to_nat (b - a)) s.

(** [s.substring(start)]. *)
Definition substringFrom (s : string) (start : Z) : string :=
  substring s start (Z.of_nat (String.length s)).

(** [s.startsWith(p)]. *)
Definition startsWith (s p : string) : bool := String.prefix p s.

Record SyncPaths : Type := mkSyncPaths {
  outputPath : string;
  parentDir : string;
  relativePath : string
}.

(** The paths [syncDocument] computes for a document at [docPath], for a
    manager built on [vaultPath] and [subfolder]. *)
Definition syncPaths (vaultPath subfolder docPath : string) : SyncPaths :=
  let outputDir := (vaultPath ++ "/" ++ subfolder)%string in
  let safe := safePath docPath in
  let outputPath := (outputDir ++ "/" ++ safe ++ ".pdf")%string in
  let parentDir := substring outputPath 0 (lastIndexOfSlash outputPath) in
  let relativePath :=
    if startsWith outputPath (vaultPath ++ "/")
    then substringFrom outputPath (Z.of_nat (String.length vaultPath) + 1)
    else outputPath in
  {| outputPath := outputPath; parentDir := parentDir;
     relativePath := relativePath |}.

(** *** [sync] and [syncDocument]

    The calls the manager makes on the cloud client and on the file
    operations are recorded in order.  What a call answers is an input: a
    function of the calls made before it, so that the world may change as
    the manager acts on it. *)

Inductive Effect : Type :=
| DownloadDocument (id : string)
| Mkdir (dirPath : string)
| WriteBinaryFile (filePath : string) (data : list byte)
| SaveState (stateFile : string) (state : SyncState).

Record Machine : Type := mkMachine {
  trace : list Effect;
  state : SyncState
}.

Record SyncResults : Type := mkSyncResults {
  synced : list string;
  skipped : list string;
  errors : list string
}.

(** [SyncOptions] without [subfolder], which [sync] does not read, and
    without [onProgress], taken at its default, which does nothing. *)
Record SyncOptions : Type := mkSyncOptions {
  folderFilter : option string;
  force : bool;
  dryRun : bool
}.

Section Sync.

(** [isDocument] and [buildFolderTree] of cloud-client; the latter's map is
    held as its lookup. *)
Variable isDocument : DocumentMetadata -> bool.
Variable buildFolderTree : list DocumentMetadata -> string -> option string.

(** What [client.downloadDocument(id)] answers after the calls made so
    far: the archive, or [inl] the message of the error it throws. *)
Variable downloadDocument : list Effect -> string -> string + list byte.

(** [convertDocument(docId, zipData)]: the PDF, or [inl] the message of the
    error it throws. *)
Variable convertDocument : string -> list byte -> string + list byte.

(** The file operations: [Some] carries the message of the error thrown. *)
Variable mkdir : list Effect -> string -> option string.
Variable writeBinaryFile : list Effect -> string -> list byte -> option string.
Variable writeFile : list Effect -> string -> SyncState -> option string.

(** [new Date().toISOString()]. *)
Variable now : list Effect -> string.

Variable vaultPath subfolder : string.

Definition outputDir : string := (vaultPath ++ "/" ++ subfolder)%string.

Definition stateFile : string :=
  (outputDir ++ "/.remarkable-sync-state.json")%string.

Definition call (m : Machine) (e : Effect) : Machine :=
  {| trace := trace m ++ [e]; state := state m |}.

(** [this.state.save(this.stateFile, this.fileOps)]. *)
Definition save (m : Machine) : option string * Machine :=
  (writeFile (trace m) stateFile (state m),
   call m (SaveState stateFile (state m))).

(** Lines 208-213: the entry [syncDocument] records. *)
Definition recordSync (st : SyncState) (doc : DocumentMetadata)
    (relPath hashText time : string) : SyncState :=
  setSyncedDoc st (doc_id doc)
    {| version := Some (doc_version doc); path := relPath;
       hash := hashText; syncedAt := time |}.

(** [syncDocument]: [Some] carries the message of the error thrown. *)
Definition syncDocument (m : Machine) (doc : DocumentMetadata)
    (docPath : string) : option string * Machine :=
  let downloaded := downloadDocument (trace m) (doc_id doc) in
  let m := call m (DownloadDocument (doc_id doc)) in
  match downloaded with
  | inl message => (Some message, m)
  | inr zipData =>
      match convertDocument (doc_id doc) zipData with
      | inl message => (Some message, m)
      | inr pdfData =>
          let paths := syncPaths vaultPath subfolder docPath in
          let made := mkdir (trace m) (parentDir paths) in
          let m := call m (Mkdir (parentDir paths)) in
          match made with
          | Some message => (Some message, m)
          | None =>
              let written :=
                writeBinaryFile (trace m) (outputPath paths) pdfData in
              let m := call m (WriteBinaryFile (outputPath paths) pdfData) in
              match written with
              | Some message => (Some message, m)
              | None =>
                  let hashText := simpleHash pdfData in
                  let m :=
                    {| trace := trace m;
                       state :=
                         recordSync (state m) doc (relativePath paths)
                           hashText (now (trace m)) |} in
                  save m
              end
          end
      end
  end.

(** The body of the loop of [sync] over the filtered documents. *)
Definition syncStep (opts : SyncOptions)
    (folderPaths : string -> option string)
    (acc : SyncResults * Machine) (doc : DocumentMetadata)
    : SyncResults * Machine :=
  let (results, m) := acc in
  let docPath :=
    match folderPaths (doc_id doc) with
    | Some p => p
    | None => doc_name doc
    end in
  if negb (force opts) && negb (needsSync (state m) doc) then
    ({| synced := synced results; skipped := skipped results ++ [docPath];
        errors := errors results |}, m)
  else if dryRun opts then
    ({| synced := synced results ++ [docPath]; skipped := skipped results;
        errors := errors results |}, m)
  else
    match syncDocument m doc docPath with
    | (None, m') =>
        ({| synced := synced results ++ [docPath];
            skipped := skipped results; errors := errors results |}, m')
    | (Some message, m') =>
        ({| synced := synced results; skipped := skipped results;
            errors := errors results ++ [(docPath ++ ": " ++ message)%string]
         |}, m')
    end.

(** The documents [sync] loops over. *)
Definition filteredDocuments (opts : SyncOptions)
    (documents : list DocumentMetadata) : list DocumentMetadata :=
  let folderPaths := buildFolderTree documents in
  let docsToSync :=
    filter (fun doc => isDocument doc && negb (isTrashed doc)) documents in
  match folderFilter opts with
  | Some (String c rest) =>
      filter
        (fun doc =>
           startsWith
             match folderPaths (doc_id doc) with
             | Some p => p
             | None => EmptyString
             end
             (String c rest))
        docsToSync
  | _ => docsToSync
  end.

(** [sync], given what [client.isAuthenticated] and
    [client.listDocuments()] answer, the latter an [inl] with the message
    of the error it throws: [inl] carries the message of the error [sync]
    throws. *)
Definition sync (isAuthenticated : bool)
    (listDocuments : string + list DocumentMetadata)
    (opts : SyncOptions) (m : Machine) : (string + SyncResults) * Machine :=
  if negb isAuthenticated then
    (inl "Not authenticated. Please register with reMarkable first."%string,
     m)
  else
    match listDocuments with
    | inl message => (inl message, m)
    | inr documents =>
        let folderPaths := buildFolderTree documents in
        let filtered := filteredDocuments opts documents in
        let (results, m) :=
          fold_left (syncStep opts folderPaths) filtered
            ({| synced := []; skipped := []; errors := [] |}, m) in
        let m :=
          {| trace := trace m;
             state := {| lastSync := Some (now (trace m));
                         syncedDocs := syncedDocs (state m);
                         inherited := inherited (state m) |} |} in
        match save m with
        | (Some message, m') => (inl message, m')
        | (None, m') => (inr results, m')
        end
    end.

End Sync.

End SyncManager.

(** The textbook FNV-1a hash on unsigned 32-bit words. *)
Definition fnv1a32 (data : list byte) : Z :=
  fold_left
    (fun h byte => (Z.lxor h (Z.of_N (Byte.to_N byte)) * 16777619) mod 2 ^ 32)%Z
    data 2166136261%Z.

(** The value of a string of hexadecimal digits; [None] when a character is
    no digit of [0-9a-f]. *)
Definition hexDigitValue (c : Ascii.ascii) : option Z :=
  let n := Z.of_N (Ascii.N_of_ascii c) in
  if ((48 <=? n) && (n <=? 57))%Z then Some (n - 48)%Z
  else if ((97 <=? n) && (n <=? 102))%Z then Some (n - 87)%Z
  else None.

Fixpoint hexValueFrom (acc : Z) (s : string) : option Z :=
  match s with
  | EmptyString => Some acc
  | String c rest =>
      match hexDigitValue c with
      | Some d => hexValueFrom (acc * 16 + d)%Z rest
      | None => None
      end
  end.

Definition hexValue (s : string) : option Z := hexValueFrom 0 s.

(** The characters of a string. *)
Definition chars (s : string) : list Ascii.ascii := list_ascii_of_string s.

(** The calls [syncDocument] makes for one document, in order: the
    download, the directory, the file, the state.  A block of calls is the
    beginning of that sequence, cut after the call that failed. *)
Definition documentCalls (vaultPath subfolder : string)
    (block : list SyncManager.Effect) : Prop :=
  exists (id docPath : string) (pdfData : list byte)
         (st : SyncManager.SyncState) (k : nat),
    (1 <= k <= 4)%nat /\
    block
    = firstn k
        [SyncManager.DownloadDocument id;
         SyncManager.Mkdir
           (SyncManager.parentDir
              (SyncManager.syncPaths vaultPath subfolder docPath));
         SyncManager.WriteBinaryFile
           (SyncManager.outputPath
              (SyncManager.syncPaths vaultPath subfolder docPath))
           pdfData;
         SyncManager.SaveState (SyncManager.stateFile vaultPath subfolder) st].

Inductive callBlocks (vaultPath subfolder : string)
    : list SyncManager.Effect -> Prop :=
| callBlocks_nil : callBlocks vaultPath subfolder []
| callBlocks_app (block rest : list SyncManager.Effect) :
    documentCalls vaultPath subfolder block ->
    callBlocks vaultPath subfolder rest ->
    callBlocks vaultPath subfolder (block ++ rest).

(** The number of documents a result reports. *)
Definition reported (results : SyncManager.SyncResults) : nat :=
  (List.length (SyncManager.synced results)
   + List.length (SyncManager.skipped results)
   + List.length (SyncManager.errors results))%nat.

(** The path [sync] and [listRemote] give a document:
    [folderPaths.get(doc.id) ?? doc.name]. *)
Definition reportedPath (folderPaths : string -> option string)
    (doc : SyncManager.DocumentMetadata) : string :=
  match folderPaths (SyncManager.doc_id doc) with
  | Some p => p
  | None => SyncManager.doc_name doc
  end.

(** ** [listRemote] of the sync manager *)

Module RemoteListing.
Import SyncManager.

Record RemoteEntry : Type := mkRemoteEntry {
  re_id : string;
  re_name : string;
  re_path : string;
  re_version : Z;
  re_modified : string;
  re_synced : bool
}.

Section ListRemote.

Variable isDocument : DocumentMetadata -> bool.
Variable buildFolderTree : list DocumentMetadata -> string -> option string.

(** The loop of [listRemote] over the listed documents. *)
Definition remoteEntries (st : SyncState) (documents : list DocumentMetadata)
    : list RemoteEntry :=
  let folderPaths := buildFolderTree documents in
  fold_left
    (fun result doc =>
       if isDocument doc && negb (isTrashed doc) then
         result
         ++ [{| re_id := doc_id doc;
                re_name := doc_name doc;
                re_path :=
                  match folderPaths (doc_id doc) with
                  | Some p => p
                  | None => doc_name doc
                  end;
                re_version := doc_version doc;
                re_modified := modifiedTime doc;
                re_synced := hasKey st (doc_id doc) |}]
       else result)
    documents [].

(** [listRemote], given what [client.listDocuments()] answers, an [inl]
    with the message of the error it throws, which [listRemote] lets
    through. *)
Definition listRemote (st : SyncState)
    (listDocuments : string + list DocumentMetadata)
    : string + list RemoteEntry :=
  match listDocuments with
  | inl message => inl message
  | inr documents => inr (remoteEntries st documents)
  end.

End ListRemote.

End RemoteListing.

(** ** The archive of a document (document-converter.ts)

    The names of the archive's files are strings; [read] is
    [zip.files[name].async(...)], [None] when it throws. *)

Module ZipContents.
Import DocumentConverter.

(** [name.endsWith(suffix)]. *)
Definition endsWith (name suffix : string) : bool :=
  let n := String.length name in
  let k := String.length suffix in
  (k <=? n)%nat && String.eqb (String.substring (n - k) k name) suffix.

(** The loop of [determineDocType] over the file list. *)
Fixpoint typeByFile (fileList : list string) : option DocType :=
  match fileList with
  | [] => None
  | name :: rest =>
      if endsWith name ".pdf" then Some pdf
      else if endsWith name ".epub" then Some epub
      else typeByFile rest
  end.

(** [determineDocType]; [fileType] is [contentInfo.fileType] when it is a
    string, and [None] when it is absent. *)
Definition determineDocType (fileType : option string)
    (fileList : list string) : DocType :=
  match typeByFile fileList with
  | Some t => t
  | None =>
      let fileType :=
        match fileType with Some s => s | None => EmptyString end in
      if String.eqb fileType "pdf" then pdf
      else if String.eqb fileType "epub" then epub
      else notebook
  end.

Section Extract.

Variable read : string -> option (list byte).

Fixpoint extractOriginalPdf (fileList : list string) : option (list byte) :=
  match fileList with
  | [] => None
  | name :: rest =>
      if endsWith name ".pdf" && negb (endsWith name "-metadata.pdf") then
        match read name with
        | Some data => Some data
        | None => extractOriginalPdf rest
        end
      else extractOriginalPdf rest
  end.

Fixpoint extractOriginalEpub (fileList : list string) : option (list byte) :=
  match fileList with
  | [] => None
  | name :: rest =>
      if endsWith name ".epub" then
        match read name with
        | Some data => Some data
        | None => extractOriginalEpub rest
        end
      else extractOriginalEpub rest
  end.

End Extract.

End ZipContents.

(** ** [parse], [convertToPdf] and [convertDocument] (document-converter.ts)

    The whole path from the bytes of the archive to the pages of the PDF
    file, with the errors that reach the caller. *)

Module Conversion.
Import DocumentConverter ZipContents.

(** A [JSZip] archive: the names of [Object.keys(zip.files)], and what
    reading an entry gives, [None] when it throws. *)
Record Zip : Type := mkZip {
  zipFiles : list string;
  zipEntry : string -> option (list byte)
}.

(** [value.key], for the keys the converter reads ([fileType],
    [visibleName]), which no string, number, boolean or array has: [inl]
    when [value] is [null], [inr None] for [undefined]. *)
Definition getProperty (value : Json) (key : string) : Thrown + option Json :=
  match value with
  | JNull => inl (ThrownNullRead key)
  | JObject fields =>
      inr (option_map snd
             (find (fun field => String.eqb (fst field) key) fields))
  | _ => inr None
  end.

(** [value ?? fallback]. *)
Definition orElse (value : option Json) (fallback : Json) : Json :=
  match value with
  | Some JNull | None => fallback
  | Some v => v
  end.

Section Convert.

Variable parseRmFile : list byte -> option Page.
Variable extractPdfPage : list byte -> nat -> option (list byte).
Variable textBlockOps : TextBlock -> PageGeometry -> list Operator.
Variable backgroundPages : list byte -> option nat.
Variable renderThrows : Page -> option Thrown.

(** [JSZip.loadAsync(zipData)]: [inl] carries what it throws. *)
Variable loadAsync : list byte -> Thrown + Zip.

(** [JSON.parse] of the text of an entry: [None] when it throws. *)
Variable JSON_parse : list byte -> option Json.

(** [extractPages] (lines 185-271) reads the content record, a value of
    type [any], through JavaScript's conversions of untyped values; it is
    taken as a function of the archive and of the content record, [inl]
    carrying what it throws. *)
Variable extractPages : Zip -> Json -> Thrown + list PageInfo.

(** [readMetadata] and [readContentInfo]: the value of the first entry
    whose name ends in [suffix] and that reads and parses; the empty
    object when there is none. *)
Fixpoint readRecord (suffix : string) (zip : Zip) (names : list string)
    : Json :=
  match names with
  | [] => JObject []
  | name :: rest =>
      if endsWith name suffix then
        match zipEntry zip name with
        | Some text =>
            match JSON_parse text with
            | Some value => value
            | None => readRecord suffix zip rest
            end
        | None => readRecord suffix zip rest
        end
      else readRecord suffix zip rest
  end.

Definition readMetadata (zip : Zip) : Json :=
  readRecord ".metadata" zip (zipFiles zip).

Definition readContentInfo (zip : Zip) : Json :=
  readRecord ".content" zip (zipFiles zip).

(** [determineDocType] on the content record as [parse] passes it: the
    file list decides first, and [contentInfo.fileType] is read only when
    it does not. *)
Definition determineDocTypeOf (contentInfo : Json) (fileList : list string)
    : Thrown + DocType :=
  match typeByFile fileList with
  | Some t => inr t
  | None =>
      match getProperty contentInfo "fileType" with
      | inl e => inl e
      | inr value =>
          inr (determineDocType
                 match value with
                 | Some (JString fileType) => Some fileType
                 | _ => None
                 end
                 fileList)
      end
  end.

(** [parse] (lines 47-71), on its first call. *)
Definition parse (docId : string) (zipData : list byte)
    : Thrown + DocumentContent :=
  match loadAsync zipData with
  | inl e => inl e
  | inr zip =>
      let fileList := zipFiles zip in
      let metadata := readMetadata zip in
      let contentInfo := readContentInfo zip in
      match determineDocTypeOf contentInfo fileList with
      | inl e => inl e
      | inr docType =>
          match extractPages zip contentInfo with
          | inl e => inl e
          | inr pages =>
              let originalPdf := extractOriginalPdf (zipEntry zip) fileList in
              let originalEpub :=
                extractOriginalEpub (zipEntry zip) fileList in
              match getProperty metadata "visibleName" with
              | inl e => inl e
              | inr visibleName =>
                  inr {| docId := docId;
                         docType := docType;
                         name := orElse visibleName (JString "Untitled");
                         pages := pages;
                         originalPdf := originalPdf;
                         originalEpub := originalEpub |}
              end
          end
      end
  end.

(** Lines 76-138 of [convertToPdf], on the content [parse] answered. *)
Definition convertParsed (content : DocumentContent)
    : Thrown + list FilePage :=
  match pages content with
  | [] => inl (ThrownError "No pages found in document")
  | _ =>
      let (parsedPages, backgroundPdfs) :=
        convertLoop parseRmFile extractPdfPage content 0 (pages content) in
      match parsedPages with
      | [page] =>
          renderPageFile textBlockOps backgroundPages renderThrows page
            (match backgroundPdfs with
             | bg :: _ => bg
             | [] => None
             end)
      | _ =>
          renderNotebookToPdf textBlockOps backgroundPages renderThrows
            parsedPages backgroundPdfs
      end
  end.

(** [convertToPdf] of a converter built on [docId] and [zipData]: [inl]
    carries what it throws, [inr] the pages of the file it returns. *)
Definition convertToPdf (docId : string) (zipData : list byte)
    : Thrown + list FilePage :=
  match parse docId zipData with
  | inl e => inl e
  | inr content => convertParsed content
  end.

(** [convertDocument] (lines 334-340). *)
Definition convertDocument (docId : string) (zipData : list byte)
    : Thrown + list FilePage :=
  convertToPdf docId zipData.

End Convert.

End Conversion.

(** ** A sample archive *)

Module SampleArchive.
Import DocumentConverter Conversion.

(** The bytes of the texts [null] and of the empty object. *)
Definition nullText : list byte := [x6e; x75; x6c; x6c].
Definition emptyObjectText : list byte := [x7b; x7d].

(** An archive of two entries: a content record holding [contentText] and
    the data [pageData] of a page [p1]. *)
Definition archive (pageData contentText : list byte) : Zip :=
  {| zipFiles := ["doc.content"; "doc/p1.rm"]%string;
     zipEntry :=
       fun name =>
         if String.eqb name "doc.content" then Some contentText
         else if String.eqb name "doc/p1.rm" then Some pageData
         else None |}.

(** A loader for which the bytes given are the text of the content record
    of that archive. *)
Definition loadAsync (pageData zipData : list byte) : Thrown + Zip :=
  inr (archive pageData zipData).

Definition JSON_parse (text : list byte) : option Json :=
  match text with
  | [x6e; x75; x6c; x6c] => Some JNull
  | [x7b; x7d] => Some (JObject [])
  | _ => None
  end.

(** What [extractPages] gives on that archive: [contentInfo.pages] throws
    on [null]; with no page id in the record, the scan for [.rm] files
    finds [p1]. *)
Definition extractPages (zip : Zip) (contentInfo : Json)
    : Thrown + list PageInfo :=
  match contentInfo with
  | JNull => inl (ThrownNullRead "pages")
  | _ =>
      inr [{| info_pageId := "p1"; rmData := zipEntry zip "doc/p1.rm";
              template := None; verticalScroll := None |}]
  end.

(** The decoded page. *)
Definition page : Page :=
  {| pageId := EmptyString; layers := []; textSpans := []; textBlocks := [];
     width := 1404; height := 1872 |}.

(** A decoder that throws on an empty buffer. *)
Definition parseRmFile (data : list byte) : option Page :=
  match data with
  | [] => None
  | _ => Some page
  end.

Definition noText (tb : TextBlock) (geo : PageGeometry) : list Operator := [].

Definition convert (pageData zipData : list byte) : Thrown + list FilePage :=
  convertDocument parseRmFile (fun _ _ => None) noText
    (fun _ => None) (fun _ => None) (loadAsync pageData) JSON_parse
    extractPages "doc" zipData.

(** What [parse] answers on the archive whose page data is empty. *)
Definition brokenContent : DocumentContent :=
  {| docId := "doc"; docType := notebook; name := JString "Untitled";
     pages := [{| info_pageId := "p1"; rmData := Some [];
                  template := None; verticalScroll := None |}];
     originalPdf := None; originalEpub := None |}.

End SampleArchive.

(** ** Sample runs of the sync manager *)

Module SyncExamples.
Import SyncManager.

Definition docA : DocumentMetadata :=
  mkDocumentMetadata "id-a" "Notes" 3 false "2024-01-01".
Definition docB : DocumentMetadata :=
  mkDocumentMetadata "id-b" "Plan: Q1" 1 false "2024-01-02".
Definition docTrashed : DocumentMetadata :=
  mkDocumentMetadata "id-c" "Old" 1 true "2023-01-01".

Definition documents : list DocumentMetadata := [docA; docTrashed; docB].

Definition isDocument (doc : DocumentMetadata) : bool := true.

Definition buildFolderTree (docs : list DocumentMetadata) (id : string)
    : option string :=
  if String.eqb id "id-a" then Some "Work/Notes"%string else None.

Definition downloadDocument (calls : list Effect) (id : string)
    : string + list byte :=
  inr [x01; x02].

Definition convertDocument (id : string) (zipData : list byte)
    : string + list byte :=
  if String.eqb id "id-b" then inl "No pages found in document"%string
  else inr zipData.

Definition mkdir (calls : list Effect) (dir : string) : option string := None.

Definition writeBinaryFile (calls : list Effect) (file : string)
    (data : list byte) : option string := None.

Definition writeFile (calls : list Effect) (file : string) (st : SyncState)
    : option string := None.

Definition now (calls : list Effect) : string := "2024-02-01T00:00:00.000Z".

Definition emptyState : SyncState :=
  {| lastSync := None; syncedDocs := fun _ => None; inherited := None |}.

Definition start : Machine := {| trace := []; state := emptyState |}.

Definition run (opts : SyncOptions) (m : Machine)
    : (string + SyncResults) * Machine :=
  sync isDocument buildFolderTree downloadDocument convertDocument mkdir
    writeBinaryFile writeFile now "vault" "reMarkable" true (inr documents)
    opts m.

Definition plain : SyncOptions :=
  {| folderFilter := None; force := false; dryRun := false |}.

Definition dry : SyncOptions :=
  {| folderFilter := None; force := false; dryRun := true |}.

End SyncExamples.

(** A state in which both sample documents are recorded at their version. *)
Definition syncedState : SyncManager.SyncState :=
  SyncManager.setSyncedDoc
    (SyncManager.setSyncedDoc SyncExamples.emptyState "id-a"
       {| SyncManager.version := Some 3%Z;
          SyncManager.path := "reMarkable/Work/Notes.pdf";
          SyncManager.hash := "00000000";
          SyncManager.syncedAt := "2024-01-15T00:00:00.000Z" |})
    "id-b"
    {| SyncManager.version := Some 1%Z;
       SyncManager.path := "reMarkable/Plan_ Q1.pdf";
       SyncManager.hash := "00000000";
       SyncManager.syncedAt := "2024-01-15T00:00:00.000Z" |}.

(** * Properties *)

(** ** Numbers *)

Lemma Qgtb_true_iff (u v : Q) : Qgtb u v = true <-> v < u.
Proof.
  unfold Qgtb. rewrite negb_true_iff. split.
  - intros H. apply Qnot_le_lt. intros Hle.
    apply Qle_bool_iff in Hle. congruence.
  - intros H. destruct (Qle_bool u v) eqn:E; [|reflexivity].
    apply Qle_bool_iff in E. exfalso. exact (Qlt_not_le _ _ H E).
Qed.

Lemma Qgtb_false_iff (u v : Q) : Qgtb u v = false <-> u <= v.
Proof. unfold Qgtb. rewrite negb_false_iff. apply Qle_bool_iff. Qed.

Lemma clamp_bounds (lo hi base : Q) :
  lo <= hi -> lo <= Math_max lo (Math_min base hi) <= hi.
Proof.
  intros Hle. unfold Math_max, Math_min. split.
  - apply Q.le_max_l.
  - apply Q.max_lub; [exact Hle | apply Q.le_min_r].
Qed.

Lemma Qle_bool_Transitive : Transitive (fun v w : Q => is_true (Qle_bool v w)).
Proof.
  intros u v w Huv Hvw. unfold is_true in *. rewrite Qle_bool_iff in *.
  eapply Qle_trans; eassumption.
Qed.

(** ** Geometry calibration and stroke widths *)

(** C1. Every stroke point is placed at output x = (device x + 810) *
    514/1620; device x = -213 lands within 0.2pt of 189.4pt and device
    x = 290 within 0.2pt of 348.9pt, on every page and at every y. *)
Theorem toPdf_x_calibration (page : Page) :
  let geo := computePageGeometry page in
  xOffset geo == 810 /\
  COORD_SCALE == 514 / 1620 /\
  (forall p : Point,
      px (toPdf (pt_x p) (pt_y p) geo) == (pt_x p + 810) * (514 / 1620)) /\
  (forall y : Q, Qabs (px (toPdf (-213) y geo) - 189.4) <= 0.2) /\
  (forall y : Q, Qabs (px (toPdf 290 y geo) - 348.9) <= 0.2).
Proof.
  intros geo. split; [|split; [|split; [|split]]].
  - reflexivity.
  - reflexivity.
  - intros p.
    unfold geo, toPdf, computePageGeometry, COORD_SCALE, RM_SCREEN_WIDTH_PX.
    cbn [px xOffset]. field.
  - intros y. vm_compute. discriminate.
  - intros y. vm_compute. discriminate.
Qed.

Lemma pointWidthPt_in_clampRange (point : Point) (pen : PenType) :
  fst (clampRange pen) <= pointWidthPt point pen <= snd (clampRange pen).
Proof.
  destruct pen; cbn [clampRange fst snd pointWidthPt];
    apply clamp_bounds; discriminate.
Qed.

(** C5. For every pen type and every raw point width (so for every
    non-negative one, zero and arbitrarily large ones included) the
    computed stroke width lies in the pen's clamp range; the fineliner's
    width is in [0.3, 4.0]pt and the marker's in [1.0, 15.0]pt. *)
Theorem pointWidthPt_clamped (point : Point) (pen : PenType) :
  fst (clampRange pen) <= snd (clampRange pen) /\
  fst (clampRange pen) <= pointWidthPt point pen <= snd (clampRange pen) /\
  0.3 <= pointWidthPt point FINELINER_1 <= 4.0 /\
  0.3 <= pointWidthPt point FINELINER_2 <= 4.0 /\
  1.0 <= pointWidthPt point MARKER_1 <= 15.0 /\
  1.0 <= pointWidthPt point MARKER_2 <= 15.0.
Proof.
  split; [destruct pen; discriminate|].
  split; [apply pointWidthPt_in_clampRange|].
  repeat split;
    first [ apply (pointWidthPt_in_clampRange point FINELINER_1)
          | apply (pointWidthPt_in_clampRange point FINELINER_2)
          | apply (pointWidthPt_in_clampRange point MARKER_1)
          | apply (pointWidthPt_in_clampRange point MARKER_2) ].
Qed.

(** On doubles the two calibration points and the three extension cases
    come out as on rationals. *)
Module Binary64Facts.

Import PrimFloat.

Set Warnings "-inexact-float".

Lemma calibration_points :
  Binary64.within 0.2 (Binary64.toPdf_px (-213)) 189.4 = true /\
  Binary64.within 0.2 (Binary64.toPdf_px 290) 348.9 = true.
Proof. split; vm_compute; reflexivity. Qed.

Set Warnings "+inexact-float".

Lemma extension_cases :
  Binary64.exceeds 2200 1872 = false /\
  Binary64.exceeds 1900 1872 = false /\
  Binary64.exceeds 2300 1872 = true.
Proof. repeat split; vm_compute; reflexivity. Qed.

End Binary64Facts.

(** ** Rendering one stroke *)

Lemma pushOperators_nil (pdfPage : PDFPage) : pushOperators pdfPage [] = pdfPage.
Proof. destruct pdfPage. unfold pushOperators. cbn. now rewrite app_nil_r. Qed.

Lemma pushOperators_app (pdfPage : PDFPage) (l1 l2 : list Operator) :
  pushOperators (pushOperators pdfPage l1) l2 = pushOperators pdfPage (l1 ++ l2).
Proof. unfold pushOperators. cbn. now rewrite app_assoc. Qed.

Lemma drawSegments_push pen c o geo (rest : list Point) :
  forall (pdfPage : PDFPage) (prev : Point),
    drawSegments pdfPage pen c o geo prev rest
    = pushOperators pdfPage (segmentOps pen c o geo prev rest).
Proof.
  induction rest as [| curr rest IH]; intros pdfPage prev; cbn.
  - now rewrite pushOperators_nil.
  - rewrite IH. unfold drawLine. now rewrite pushOperators_app.
Qed.

Lemma renderStroke_push (pdfPage : PDFPage) (stroke : Stroke)
    (geo : PageGeometry) :
  renderStroke pdfPage stroke geo = pushOperators pdfPage (emitted stroke geo).
Proof.
  unfold renderStroke, emitted, renderHighlighterStroke.
  destruct (List.length (points stroke) <? 2)%nat;
    [now rewrite pushOperators_nil|].
  destruct (isEraser (penType stroke)); [now rewrite pushOperators_nil|].
  destruct (strokePaint stroke) as [c o]. cbn [fst snd].
  destruct (isHighlighter (getPenStyle (penType stroke))).
  - unfold drawSvgPath. now rewrite pushOperators_app.
  - destruct (points stroke) as [| p0 rest]; [now rewrite pushOperators_nil|].
    apply drawSegments_push.
Qed.

Lemma strokeOps_emitted (stroke : Stroke) (geo : PageGeometry) :
  strokeOps stroke geo = emitted stroke geo.
Proof. unfold strokeOps. rewrite renderStroke_push. reflexivity. Qed.

Lemma renderStroke_operators (pdfPage : PDFPage) (stroke : Stroke)
    (geo : PageGeometry) :
  operators (renderStroke pdfPage stroke geo)
  = operators pdfPage ++ strokeOps stroke geo.
Proof. rewrite strokeOps_emitted, renderStroke_push. reflexivity. Qed.

(** C6. A stroke whose pen is ERASER or ERASER_AREA, and a stroke with
    fewer than 2 points, leaves the page as it was: no operator is
    emitted. *)
Theorem renderStroke_eraser_or_short (pdfPage : PDFPage) (stroke : Stroke)
    (geo : PageGeometry) :
  penType stroke = ERASER \/ penType stroke = ERASER_AREA
  \/ (List.length (points stroke) < 2)%nat ->
  renderStroke pdfPage stroke geo = pdfPage /\ strokeOps stroke geo = [].
Proof.
  intros H.
  assert (He : emitted stroke geo = []).
  { unfold emitted. destruct H as [H | [H | H]].
    - rewrite H. destruct (List.length (points stroke) <? 2)%nat; reflexivity.
    - rewrite H. destruct (List.length (points stroke) <? 2)%nat; reflexivity.
    - apply Nat.ltb_lt in H. now rewrite H. }
  split.
  - rewrite renderStroke_push, He. apply pushOperators_nil.
  - now rewrite strokeOps_emitted.
Qed.

Lemma renderStroke_eraser_or_short_witness :
  let stroke := Examples.strokeTo ERASER None 1000 in
  let geo := computePageGeometry (Examples.pageWithMaxY 1000) in
  penType stroke = ERASER /\
  renderStroke (addPage (514, 685)) stroke geo = addPage (514, 685) /\
  strokeOps (mkStroke FINELINER_1 0 None [mkPoint 0 0 2]) geo = [].
Proof.
  split; [reflexivity|]. split.
  - apply (renderStroke_eraser_or_short (addPage (514, 685))
             (Examples.strokeTo ERASER None 1000)).
    left. reflexivity.
  - apply (renderStroke_eraser_or_short (addPage (0, 0))
             (mkStroke FINELINER_1 0 None [mkPoint 0 0 2])).
    right. right. cbn. lia.
Defined.

Lemma segmentOps_paint pen c o geo (rest : list Point) :
  forall (prev : Point) (op : Operator),
    In op (segmentOps pen c o geo prev rest) -> paintOf op = Some (c, o).
Proof.
  induction rest as [| curr rest IH]; intros prev op Hin; cbn in Hin.
  - contradiction.
  - destruct Hin as [<- | Hin]; [reflexivity | eauto].
Qed.

Lemma strokePaint_override (stroke : Stroke) (argb : Z) :
  colorArgb stroke = Some argb ->
  strokePaint stroke
  = (mkRGB (inject_Z (Z.land (Z.shiftr (ToUint32 argb) 16) 255) / 255)
           (inject_Z (Z.land (Z.shiftr (ToUint32 argb) 8) 255) / 255)
           (inject_Z (Z.land argb 255) / 255),
     match penType stroke with
     | SHADER => inject_Z (Z.land (Z.shiftr (ToUint32 argb) 24) 255) / 255
     | pen => opacity (getPenStyle pen)
     end).
Proof.
  intros Hargb. unfold strokePaint. rewrite Hargb. cbn. f_equal.
  destruct (penType stroke); reflexivity.
Qed.

(** C7. When a stroke carries an ARGB override, every operator it is drawn
    with takes its RGB from the override's channels (each over 255),
    whatever the palette index; its opacity is the override's alpha over
    255 for the SHADER pen and the pen's default opacity for every other
    pen. *)
Theorem renderStroke_argb_override (stroke : Stroke) (argb : Z)
    (geo : PageGeometry) (op : Operator) (c : RGB) (o : Q) :
  colorArgb stroke = Some argb ->
  In op (strokeOps stroke geo) ->
  paintOf op = Some (c, o) ->
  c = mkRGB (inject_Z (Z.land (Z.shiftr (ToUint32 argb) 16) 255) / 255)
            (inject_Z (Z.land (Z.shiftr (ToUint32 argb) 8) 255) / 255)
            (inject_Z (Z.land argb 255) / 255)
  /\ o = match penType stroke with
         | SHADER => inject_Z (Z.land (Z.shiftr (ToUint32 argb) 24) 255) / 255
         | pen => opacity (getPenStyle pen)
         end.
Proof.
  intros Hargb Hin Hpaint.
  assert (Hco : strokePaint stroke = (c, o)).
  { rewrite strokeOps_emitted in Hin. unfold emitted in Hin.
    destruct (List.length (points stroke) <? 2)%nat; [contradiction|].
    destruct (isEraser (penType stroke)); [contradiction|].
    destruct (strokePaint stroke) as [c' o']. cbn [fst snd] in Hin.
    destruct (isHighlighter (getPenStyle (penType stroke))).
    - destruct Hin as [<- | [<- | []]]; cbn [paintOf] in Hpaint;
        [discriminate | congruence].
    - destruct (points stroke) as [| p0 rest]; [contradiction|].
      apply segmentOps_paint in Hin. congruence. }
  rewrite (strokePaint_override stroke argb Hargb) in Hco.
  split.
  - exact (eq_sym (f_equal fst Hco)).
  - exact (eq_sym (f_equal snd Hco)).
Qed.

Lemma renderStroke_argb_override_witness :
  let geo := computePageGeometry (Examples.pageWithMaxY 1000) in
  let shader := Examples.strokeTo SHADER (Some 2164195328%Z) 1000 in
  let fineliner := Examples.strokeTo FINELINER_1 (Some 2164195328%Z) 1000 in
  (forall op c o,
      In op (strokeOps shader geo) -> paintOf op = Some (c, o) ->
      c = mkRGB (inject_Z 255 / 255) (inject_Z 0 / 255) (inject_Z 0 / 255) /\
      o = inject_Z 128 / 255) /\
  (forall op c o,
      In op (strokeOps fineliner geo) -> paintOf op = Some (c, o) ->
      c = mkRGB (inject_Z 255 / 255) (inject_Z 0 / 255) (inject_Z 0 / 255) /\
      o = 1.0) /\
  (exists op c o, In op (strokeOps shader geo) /\ paintOf op = Some (c, o)) /\
  (exists op c o, In op (strokeOps fineliner geo) /\ paintOf op = Some (c, o)).
Proof.
  intros geo shader fineliner. split; [|split; [|split]].
  - intros op c o Hin Hpaint.
    exact (renderStroke_argb_override shader 2164195328%Z geo op c o
             eq_refl Hin Hpaint).
  - intros op c o Hin Hpaint.
    exact (renderStroke_argb_override fineliner 2164195328%Z geo op c o
             eq_refl Hin Hpaint).
  - exists (nth 1 (strokeOps shader geo) (SetLineJoin JoinMiter)).
    eexists. eexists. split; [right; left; reflexivity | reflexivity].
  - exists (nth 0 (strokeOps fineliner geo) (SetLineJoin JoinMiter)).
    eexists. eexists. split; [left; reflexivity | reflexivity].
Defined.

(** ** The median width of a highlighter path *)

Lemma filter_length_Permutation {A : Type} (f : A -> bool) (l l' : list A) :
  Permutation l l' -> List.length (filter f l) = List.length (filter f l').
Proof.
  induction 1 as [| v l l' _ IH | v w l | l l' l'' _ IH1 _ IH2]; cbn.
  - reflexivity.
  - destruct (f v); cbn; congruence.
  - destruct (f v), (f w); reflexivity.
  - congruence.
Qed.

Lemma filter_none {A : Type} (f : A -> bool) (l : list A) :
  Forall (fun v => f v = false) l -> filter f l = [].
Proof.
  induction 1 as [| v l Hv _ IH]; cbn; [reflexivity|]. now rewrite Hv.
Qed.

Lemma StronglySorted_middle {A : Type} (R : A -> A -> Prop)
    (l1 l2 : list A) (m : A) :
  StronglySorted R (l1 ++ m :: l2) ->
  Forall (fun v => R v m) l1 /\ Forall (R m) l2.
Proof.
  induction l1 as [| v l1 IH]; cbn; intros Hs; apply StronglySorted_inv in Hs;
    destruct Hs as [Hs Hall].
  - split; [constructor | exact Hall].
  - destruct (IH Hs) as [H1 H2]. split; [|exact H2].
    constructor; [|exact H1].
    rewrite Forall_forall in Hall. apply Hall, in_elt.
Qed.

Lemma sorted_middle_is_median (l : list Q) :
  l <> [] ->
  isUpperMedian
    (nth (List.length (NumberSort.sort l) / 2) (NumberSort.sort l) 0) l.
Proof.
  intros Hne.
  pose proof (NumberSort.Permuted_sort l) as Hperm.
  pose proof (NumberSort.StronglySorted_sort l Qle_bool_Transitive) as Hsorted.
  set (s := NumberSort.sort l) in *.
  assert (Hlen : List.length s = List.length l)
    by (symmetry; now apply Permutation_length).
  assert (Hpos : (0 < List.length l)%nat)
    by (destruct l; [congruence | cbn; lia]).
  assert (Hk : (List.length s / 2 < List.length s)%nat)
    by (apply Nat.div_lt; lia).
  destruct (nth_split s 0 Hk) as (l1 & l2 & Hs & Hl1).
  set (m := nth (List.length s / 2) s 0) in *.
  rewrite Hs in Hsorted. apply StronglySorted_middle in Hsorted.
  destruct Hsorted as [Hlow Hhigh].
  unfold isUpperMedian, countBelow, countAbove.
  rewrite (filter_length_Permutation _ _ _ Hperm).
  rewrite (filter_length_Permutation (fun v => Qgtb v m) _ _ Hperm).
  rewrite <- Hlen. split; [|split].
  - apply (Permutation_in _ (Permutation_sym Hperm)). rewrite Hs. apply in_elt.
  - rewrite Hs at 1. rewrite filter_app. cbn [filter].
    replace (Qgtb m m) with false
      by (symmetry; apply Qgtb_false_iff, Qle_refl).
    rewrite (filter_none _ l2).
    + rewrite app_nil_r, <- Hl1. apply filter_length_le.
    + eapply Forall_impl; [|exact Hhigh]. intros v Hv.
      apply Qgtb_false_iff. now apply Qle_bool_iff.
  - rewrite Hs at 1. rewrite filter_app. cbn [filter].
    replace (Qgtb m m) with false
      by (symmetry; apply Qgtb_false_iff, Qle_refl).
    rewrite (filter_none _ l1).
    + cbn [app]. pose proof (filter_length_le (fun v => Qgtb v m) l2) as Hle.
      assert (Hlen2 : List.length s
                      = (List.length l1 + S (List.length l2))%nat).
      { rewrite Hs at 1. rewrite length_app. reflexivity. }
      lia.
    + eapply Forall_impl; [|exact Hlow]. intros v Hv.
      apply Qgtb_false_iff. now apply Qle_bool_iff.
Qed.

Lemma toFixed2_error (n : Q) : Qabs (toFixed2 n - n) <= 1 # 200.
Proof.
  unfold toFixed2.
  set (m := Qfloor (Qabs n * 100 + 0.5)).
  assert (Hlo : inject_Z m <= Qabs n * 100 + 0.5) by apply Qfloor_le.
  assert (Hhi : Qabs n * 100 + 0.5 < inject_Z (m + 1)) by apply Qlt_floor.
  rewrite inject_Z_plus in Hhi.
  change (inject_Z 1) with 1 in Hhi.
  apply Qabs_Qle_condition.
  destruct (Qle_bool 0 n) eqn:Hsign.
  - apply Qle_bool_iff in Hsign.
    rewrite (Qabs_pos n Hsign) in Hlo, Hhi.
    rewrite (Qmake_Qdiv m 100). unfold Qdiv.
    change (/ inject_Z (Zpos 100)) with (1 # 100).
    set (k := inject_Z m) in *. split; lra.
  - assert (Hneg : n <= 0).
    { apply Qlt_le_weak, Qnot_le_lt. intros Hle.
      apply Qle_bool_iff in Hle. congruence. }
    rewrite (Qabs_neg n Hneg) in Hlo, Hhi.
    rewrite (Qmake_Qdiv (- m) 100). unfold Qdiv.
    change (/ inject_Z (Zpos 100)) with (1 # 100).
    rewrite inject_Z_opp. set (k := inject_Z m) in *. split; lra.
Qed.

Lemma svgPoint_error (geo : PageGeometry) (p : Point) :
  Qabs (fst (svgPoint geo p) - (pt_x p + xOffset geo) * COORD_SCALE)
  <= 1 # 200 /\
  Qabs (snd (svgPoint geo p) - (pt_y p - yOffset geo) * COORD_SCALE)
  <= 1 # 200.
Proof.
  unfold svgPoint, toPdf. cbn [fst snd px py]. split.
  - apply toFixed2_error.
  - set (a := pageHeightPt geo
              - (pageHeightPt geo - (pt_y p - yOffset geo) * COORD_SCALE)).
    assert (Heq : (pt_y p - yOffset geo) * COORD_SCALE == a)
      by (unfold a; ring).
    rewrite Heq. apply toFixed2_error.
Qed.

Lemma svgPath_nth (geo : PageGeometry) (pts : list Point) (i : nat)
    (p : Point) :
  nth_error pts i = Some p ->
  nth_error (svgPath geo pts) i
  = Some (match i with
          | O => SvgM (fst (svgPoint geo p)) (snd (svgPoint geo p))
          | S _ => SvgL (fst (svgPoint geo p)) (snd (svgPoint geo p))
          end).
Proof.
  destruct pts as [| p0 rest]; [destruct i; discriminate|].
  destruct i as [| i]; cbn [svgPath nth_error]; intros Hi.
  - now injection Hi as ->.
  - now rewrite nth_error_map, Hi.
Qed.

Lemma StronglySorted_Qle (l : list Q) :
  StronglySorted (fun a b => is_true (Qle_bool a b)) l ->
  StronglySorted Qle l.
Proof.
  induction 1 as [| a l Hl IH Hall]; constructor; [exact IH|].
  eapply Forall_impl; [|exact Hall]. intros b Hb. now apply Qle_bool_iff.
Qed.

(** C8, as the code has it.  A highlighter-class stroke with at least 2
    points adds exactly a round line join and one path operator, and no
    line operator.  The path is continuous: it has one command per point,
    a move to the first point and then a line to each later point in
    order, each within 0.005 of the image of the point.  The path's width
    is the point width at index floor(n / 2) of the n widths sorted in
    ascending order (the median for an odd n, the upper of the two middle
    widths for an even n) times SCALE and WIDTH_FACTOR, clamped to
    [1.0, 15.0], the same range for the three highlighter-class pens. *)
Theorem highlighter_single_path (pdfPage : PDFPage) (stroke : Stroke)
    (geo : PageGeometry) :
  isHighlighter (getPenStyle (penType stroke)) = true ->
  (2 <= List.length (points stroke))%nat ->
  exists (d : list SvgCommand) (m : Q) (sorted : list Q),
    operators (renderStroke pdfPage stroke geo)
    = operators pdfPage
      ++ [SetLineJoin JoinRound;
          DrawSvgPath d (fst (strokePaint stroke))
            (Math_max 1.0 (Math_min (m * SCALE * WIDTH_FACTOR) 15.0))
            (snd (strokePaint stroke)) CapRound (pageHeightPt geo)]
    /\ isUpperMedian m (map pt_width (points stroke))
    /\ List.length d = List.length (points stroke)
    /\ List.length (filter isPathOp (strokeOps stroke geo)) = 1%nat
    /\ filter isLineOp (strokeOps stroke geo) = []
    /\ 1.0 <= Math_max 1.0 (Math_min (m * SCALE * WIDTH_FACTOR) 15.0) <= 15.0
    /\ (Permutation sorted (map pt_width (points stroke)) /\
        StronglySorted Qle sorted /\
        nth_error sorted (List.length (points stroke) / 2) = Some m)
    /\ (forall (i : nat) (p : Point),
          nth_error (points stroke) i = Some p ->
          exists sx sy,
            nth_error d i
            = Some (match i with O => SvgM sx sy | S _ => SvgL sx sy end) /\
            Qabs (sx - (pt_x p + xOffset geo) * COORD_SCALE) <= 1 # 200 /\
            Qabs (sy - (pt_y p - yOffset geo) * COORD_SCALE) <= 1 # 200).
Proof.
  intros Hhl Hlen.
  assert (Hem : emitted stroke geo =
    [SetLineJoin JoinRound;
     DrawSvgPath (svgPath geo (points stroke)) (fst (strokePaint stroke))
       (Math_max 1.0
          (Math_min
             (nth (List.length (sortedWidths stroke) / 2)
                (sortedWidths stroke) 0 * SCALE * WIDTH_FACTOR) 15.0))
       (snd (strokePaint stroke)) CapRound (pageHeightPt geo)]).
  { unfold emitted. rewrite Hhl.
    replace (List.length (points stroke) <? 2)%nat with false
      by (symmetry; apply Nat.ltb_ge; exact Hlen).
    destruct (penType stroke); try reflexivity; discriminate Hhl. }
  exists (svgPath geo (points stroke)),
         (nth (List.length (sortedWidths stroke) / 2) (sortedWidths stroke) 0),
         (sortedWidths stroke).
  assert (Hne : map pt_width (points stroke) <> []).
  { destruct (points stroke); [cbn in Hlen; lia | discriminate]. }
  assert (Hperm : Permutation (sortedWidths stroke)
                    (map pt_width (points stroke))).
  { symmetry. apply NumberSort.Permuted_sort. }
  assert (Hsame : List.length (sortedWidths stroke)
                  = List.length (points stroke)).
  { rewrite (Permutation_length Hperm). apply length_map. }
  split; [|split; [|split; [|split; [|split; [|split; [|split]]]]]].
  - rewrite renderStroke_operators, strokeOps_emitted, Hem. reflexivity.
  - exact (sorted_middle_is_median _ Hne).
  - destruct (points stroke) as [| p0 rest]; [reflexivity|].
    cbn. now rewrite length_map.
  - rewrite strokeOps_emitted, Hem. reflexivity.
  - rewrite strokeOps_emitted, Hem. reflexivity.
  - apply clamp_bounds. discriminate.
  - split; [exact Hperm|]. split.
    + apply StronglySorted_Qle.
      apply NumberSort.StronglySorted_sort, Qle_bool_Transitive.
    + rewrite <- Hsame. apply nth_error_nth'.
      apply Nat.div_lt; lia.
  - intros i p Hi.
    exists (fst (svgPoint geo p)), (snd (svgPoint geo p)).
    split; [|apply svgPoint_error].
    rewrite (svgPath_nth geo _ i p Hi). now destruct i.
Qed.

Lemma highlighter_single_path_witness :
  let geo := computePageGeometry (Examples.pageWithMaxY 1000) in
  isHighlighter (getPenStyle (penType Examples.highlighterStroke)) = true /\
  (2 <= List.length (points Examples.highlighterStroke))%nat /\
  exists (d : list SvgCommand) (m : Q) (sorted : list Q),
    operators (renderStroke (addPage (514, 685)) Examples.highlighterStroke geo)
    = [SetLineJoin JoinRound;
       DrawSvgPath d (getColor 9)
         (Math_max 1.0 (Math_min (m * SCALE * WIDTH_FACTOR) 15.0))
         0.45 CapRound (pageHeightPt geo)]
    /\ isUpperMedian m [30; 10; 20]
    /\ List.length d = 3%nat
    /\ List.length
         (filter isPathOp (strokeOps Examples.highlighterStroke geo)) = 1%nat
    /\ filter isLineOp (strokeOps Examples.highlighterStroke geo) = []
    /\ 1.0 <= Math_max 1.0 (Math_min (m * SCALE * WIDTH_FACTOR) 15.0) <= 15.0
    /\ nth_error sorted 1 = Some m.
Proof.
  intros geo.
  assert (Hhl : isHighlighter
                  (getPenStyle (penType Examples.highlighterStroke)) = true)
    by reflexivity.
  assert (Hlen : (2 <= List.length (points Examples.highlighterStroke))%nat)
    by (cbn; lia).
  split; [exact Hhl|]. split; [exact Hlen|].
  destruct (highlighter_single_path (addPage (514, 685))
              Examples.highlighterStroke geo Hhl Hlen)
    as (d & m & sorted & H1 & H2 & H3 & H4 & H5 & H6 & (_ & _ & H7) & _).
  exists d, m, sorted. repeat (split; [assumption|]). exact H7.
Defined.

(** C8 fails as stated.  For a highlighter stroke of two points of widths
    10 and 30 the median width is 20, and the path is drawn with the width
    of 30, the upper of the two.  For one of three points of width 1 the
    path is 1pt wide, the lower end of the range of the highlighter path,
    where the range [pointWidthPt] clamps the three highlighter-class pens
    to starts at 0.2pt. *)
Lemma highlighter_width_is_not_the_median :
  let geo := computePageGeometry (Examples.pageWithMaxY 1000) in
  let wide := Examples.widthsStroke HIGHLIGHTER_1 [10; 30] in
  let thin := Examples.widthsStroke HIGHLIGHTER_1 [1; 1; 1] in
  median [10; 30] == 20 /\
  pathWidths (strokeOps wide geo)
  = [Math_max 1.0 (Math_min (30 * SCALE * WIDTH_FACTOR) 15.0)] /\
  ~ Math_max 1.0 (Math_min (30 * SCALE * WIDTH_FACTOR) 15.0)
    == Math_max 1.0 (Math_min (median [10; 30] * SCALE * WIDTH_FACTOR) 15.0) /\
  ~ Math_max 1.0 (Math_min (30 * SCALE * WIDTH_FACTOR) 15.0)
    == Math_max (fst (clampRange HIGHLIGHTER_1))
         (Math_min (median [10; 30] * SCALE * WIDTH_FACTOR)
            (snd (clampRange HIGHLIGHTER_1))) /\
  median [1; 1; 1] == 1 /\
  pathWidths (strokeOps thin geo)
  = [Math_max 1.0 (Math_min (1 * SCALE * WIDTH_FACTOR) 15.0)] /\
  Math_max 1.0 (Math_min (1 * SCALE * WIDTH_FACTOR) 15.0) == 1 /\
  ~ 1 == Math_max (fst (clampRange HIGHLIGHTER_1))
           (Math_min (median [1; 1; 1] * SCALE * WIDTH_FACTOR)
              (snd (clampRange HIGHLIGHTER_1))).
Proof.
  intros geo wide thin.
  split; [vm_compute; reflexivity|].
  split; [vm_compute; reflexivity|].
  split; [vm_compute; discriminate|].
  split; [vm_compute; discriminate|].
  split; [vm_compute; reflexivity|].
  split; [vm_compute; reflexivity|].
  split; [vm_compute; reflexivity|].
  vm_compute. discriminate.
Qed.

(** ** Paint order of a page *)

Section PaintOrder.

Variable textBlockOps : TextBlock -> PageGeometry -> list Operator.

Lemma layer_pass_push (want : bool) (geo : PageGeometry) (ss : list Stroke) :
  forall pdfPage : PDFPage,
    fold_left
      (fun pdfPage stroke =>
         let ps := getPenStyle (penType stroke) in
         if Bool.eqb (isHighlighter ps) want
         then renderStroke pdfPage stroke geo
         else pdfPage)
      ss pdfPage
    = pushOperators pdfPage
        (flat_map (fun s => strokeOps s geo)
           (filter (fun s => Bool.eqb (isHighlighterStroke s) want) ss)).
Proof.
  induction ss as [| s ss IH]; intros pdfPage; cbn [fold_left filter].
  - cbn. now rewrite pushOperators_nil.
  - rewrite IH. unfold isHighlighterStroke at 2.
    destruct (Bool.eqb (isHighlighter (getPenStyle (penType s))) want).
    + cbn [flat_map]. rewrite renderStroke_push, pushOperators_app.
      now rewrite strokeOps_emitted.
    + reflexivity.
Qed.

Lemma renderPass_push (want : bool) (page : Page) (geo : PageGeometry)
    (pdfPage : PDFPage) :
  renderPass want page geo pdfPage
  = pushOperators pdfPage
      (flat_map (fun s => strokeOps s geo)
         (filter (fun s => Bool.eqb (isHighlighterStroke s) want)
            (allStrokes page))).
Proof.
  unfold renderPass, allStrokes. revert pdfPage.
  induction (layers page) as [| layer ls IH]; intros pdfPage;
    cbn [fold_left flat_map].
  - cbn. now rewrite pushOperators_nil.
  - rewrite IH, layer_pass_push, pushOperators_app.
    now rewrite filter_app, flat_map_app.
Qed.

Lemma text_pass_push (geo : PageGeometry) (tbs : list TextBlock) :
  forall pdfPage : PDFPage,
    fold_left (fun pdfPage tb => renderTextBlock textBlockOps pdfPage tb geo)
      tbs pdfPage
    = pushOperators pdfPage (flat_map (fun tb => textBlockOps tb geo) tbs).
Proof.
  induction tbs as [| tb tbs IH]; intros pdfPage; cbn [fold_left flat_map].
  - now rewrite pushOperators_nil.
  - rewrite IH. unfold renderTextBlock. now rewrite pushOperators_app.
Qed.

Lemma renderAnnotation_push (page : Page) :
  let geo := computePageGeometry page in
  renderAnnotation textBlockOps page
  = pushOperators (addPage (pageWidthPt geo, pageHeightPt geo))
      (flat_map (fun s => strokeOps s geo)
         (filter isHighlighterStroke (allStrokes page))
       ++ flat_map (fun s => strokeOps s geo)
            (filter (fun s => negb (isHighlighterStroke s)) (allStrokes page))
       ++ flat_map (fun tb => textBlockOps tb geo) (textBlocks page)).
Proof.
  intros geo. unfold renderAnnotation. fold geo.
  rewrite text_pass_push, !renderPass_push, !pushOperators_app.
  rewrite (filter_ext (fun s => Bool.eqb (isHighlighterStroke s) true)
             isHighlighterStroke)
    by (intros s; now destruct (isHighlighterStroke s)).
  rewrite (filter_ext (fun s => Bool.eqb (isHighlighterStroke s) false)
             (fun s => negb (isHighlighterStroke s)))
    by (intros s; now destruct (isHighlighterStroke s)).
  reflexivity.
Qed.

(** C9. The operators of a page are those of its highlighter-class strokes,
    taken layer by layer and stroke by stroke, then those of its other
    strokes in the same order, then the text: every highlighter-class
    stroke is painted before any other stroke, and each class keeps the
    layer order and the stroke order within a layer. *)
Theorem highlighters_painted_first (page : Page)
    (backgroundPdf : option (list byte)) :
  let geo := computePageGeometry page in
  operators (annotation (renderPageToPdf textBlockOps page backgroundPdf))
  = flat_map (fun s => strokeOps s geo)
      (filter isHighlighterStroke (flat_map strokes (layers page)))
    ++ flat_map (fun s => strokeOps s geo)
         (filter (fun s => negb (isHighlighterStroke s))
            (flat_map strokes (layers page)))
    ++ flat_map (fun tb => textBlockOps tb geo) (textBlocks page).
Proof.
  intros geo. cbn [renderPageToPdf annotation].
  rewrite renderAnnotation_push. fold geo. reflexivity.
Qed.

Lemma renderAnnotation_pageSize (page : Page) :
  pageSize (renderAnnotation textBlockOps page)
  = (RM_SCREEN_WIDTH_PX * COORD_SCALE, height page * SCALE).
Proof. rewrite renderAnnotation_push. reflexivity. Qed.

End PaintOrder.

(** ** The document converter *)

Section ConverterFacts.

Variable parseRmFile : list byte -> option Page.
Variable extractPdfPage : list byte -> nat -> option (list byte).
Variable textBlockOps : TextBlock -> PageGeometry -> list Operator.

Local Abbreviation parsed := (parsedPage parseRmFile).
Local Abbreviation bgOf := (backgroundPdf extractPdfPage).
Local Abbreviation convert :=
  (convertContent parseRmFile extractPdfPage textBlockOps).
Local Abbreviation outputs :=
  (outputPagesFrom parseRmFile extractPdfPage textBlockOps).

Lemma convertLoop_arrays (content : DocumentContent) (infos : list PageInfo) :
  forall i,
    convertLoop parseRmFile extractPdfPage content i infos
    = (map parsed infos, map (bgOf content) (seq i (List.length infos))).
Proof.
  induction infos as [| pageInfo rest IH]; intros i; cbn.
  - reflexivity.
  - now rewrite IH.
Qed.

Lemma backgrounds_nth (content : DocumentContent) (n k : nat) :
  (k < n)%nat ->
  nth_error (map (bgOf content) (seq 0 n)) k = Some (bgOf content k).
Proof.
  intros Hk. apply map_nth_error.
  rewrite (nth_error_nth' _ 0%nat) by (now rewrite length_seq).
  now rewrite seq_nth.
Qed.

Lemma renderNotebookFrom_outputs (content : DocumentContent) (n : nat)
    (infos : list PageInfo) :
  forall i, (i + List.length infos <= n)%nat ->
    renderNotebookFrom textBlockOps i (map parsed infos)
      (map (bgOf content) (seq 0 n))
    = outputs content i infos.
Proof.
  induction infos as [| pageInfo rest IH]; intros i Hi; cbn in *.
  - reflexivity.
  - rewrite backgrounds_nth by lia. rewrite IH by lia. reflexivity.
Qed.

(** A document with at least one page converts, page by page. *)
Lemma convertContent_outputs (content : DocumentContent) :
  pages content <> [] ->
  convert content = inr (outputs content 0 (pages content)).
Proof.
  intros Hne. unfold convertContent. rewrite convertLoop_arrays.
  destruct (pages content) as [| info0 rest] eqn:Hpages; [congruence|].
  destruct rest as [| info1 rest].
  - reflexivity.
  - change (map parsed (info0 :: info1 :: rest))
      with (parsed info0 :: parsed info1 :: map parsed rest) at 1.
    cbv iota beta.
    change (parsed info0 :: parsed info1 :: map parsed rest)
      with (map parsed (info0 :: info1 :: rest)).
    now rewrite renderNotebookFrom_outputs.
Qed.

Lemma outputPagesFrom_length (content : DocumentContent)
    (infos : list PageInfo) :
  forall i, List.length (outputs content i infos) = List.length infos.
Proof.
  induction infos as [| pageInfo rest IH]; intros i; cbn; [reflexivity|].
  now rewrite IH.
Qed.

Lemma outputPagesFrom_nth (content : DocumentContent) (infos : list PageInfo) :
  forall i k pageInfo,
    nth_error infos k = Some pageInfo ->
    nth_error (outputs content i infos) k
    = Some (renderPageToPdf textBlockOps (parsed pageInfo)
              (bgOf content (i + k))).
Proof.
  induction infos as [| info0 rest IH]; intros i k pageInfo Hk.
  - destruct k; discriminate.
  - destruct k as [| k]; cbn in *.
    + inversion Hk; subst. now rewrite Nat.add_0_r.
    + rewrite (IH (S i) k pageInfo Hk). f_equal. f_equal. f_equal. lia.
Qed.

Lemma convertContent_page (content : DocumentContent) (i : nat)
    (pageInfo : PageInfo) :
  nth_error (pages content) i = Some pageInfo ->
  exists out,
    convert content = inr out /\
    List.length out = List.length (pages content) /\
    nth_error out i
    = Some (renderPageToPdf textBlockOps (parsed pageInfo) (bgOf content i)).
Proof.
  intros Hi. exists (outputs content 0 (pages content)). split; [|split].
  - apply convertContent_outputs. intros Hnil. rewrite Hnil in Hi.
    destruct i; discriminate.
  - apply outputPagesFrom_length.
  - now rewrite (outputPagesFrom_nth _ _ 0 i pageInfo Hi).
Qed.

Lemma parsedPage_decoded (pageInfo : PageInfo) (data : list byte)
    (page : Page) :
  rmData pageInfo = Some data ->
  parseRmFile data = Some page ->
  parsed pageInfo
  = extendPageHeight (verticalScroll pageInfo)
      (set_pageId page (info_pageId pageInfo)).
Proof. intros Hdata Hpage. unfold parsedPage. now rewrite Hdata, Hpage. Qed.

Lemma extendPageHeight_height (scroll : option Q) (page : Page) :
  height (extendPageHeight scroll page)
  = match scroll with
    | Some _ =>
        if Qgtb (maxStrokeY page * 0.885) (height page * 1.05)
        then maxStrokeY page * 0.885 else height page
    | None => height page
    end.
Proof.
  unfold extendPageHeight. destruct scroll; [|reflexivity].
  now destruct (Qgtb _ _).
Qed.

(** C3, as the code has it.  In a one-page document whose page decodes at
    the default height 1872, the height is extended only when the flag is
    set and (largest stroke y) * 0.885 exceeds 1872 * 1.05 = 1965.6: it
    stays 1872 whenever that product is at most 1965.6, and a height other
    than 1872 means that the flag is set, the product exceeds 1965.6 and
    the height is the product.  With largest stroke y = 2200 it stays 1872
    (2200 * 0.885 = 1947), flag or no flag; with the flag set and largest
    stroke y = 2300 it becomes 2035.5; without the flag, or with largest
    stroke y = 1900, it stays 1872. *)
Theorem scroll_extension_examples (content : DocumentContent)
    (pageInfo : PageInfo) (data : list byte) (page : Page) :
  pages content = [pageInfo] ->
  rmData pageInfo = Some data ->
  parseRmFile data = Some page ->
  height page == 1872 ->
  let result := parsed pageInfo in
  convert content
  = inr [renderPageToPdf textBlockOps result (bgOf content 0)] /\
  (verticalScroll pageInfo = None -> height result == 1872) /\
  (maxStrokeY page == 1900 -> height result == 1872) /\
  (maxStrokeY page == 2200 -> height result == 1872) /\
  (verticalScroll pageInfo <> None ->
   1965.6 < maxStrokeY page * 0.885 ->
   height result == maxStrokeY page * 0.885) /\
  (verticalScroll pageInfo <> None ->
   maxStrokeY page == 2300 -> height result == 2035.5) /\
  (maxStrokeY page * 0.885 <= 1965.6 -> height result == 1872) /\
  (~ height result == 1872 ->
   verticalScroll pageInfo <> None /\
   1965.6 < maxStrokeY page * 0.885 /\
   height result == maxStrokeY page * 0.885).
Proof.
  intros Hpages Hdata Hpage Hheight result.
  assert (Hh : height result
               = match verticalScroll pageInfo with
                 | Some _ =>
                     if Qgtb (maxStrokeY page * 0.885) (height page * 1.05)
                     then maxStrokeY page * 0.885 else height page
                 | None => height page
                 end).
  { unfold result. rewrite (parsedPage_decoded _ _ _ Hdata Hpage).
    now rewrite extendPageHeight_height. }
  assert (Hthr : height page * 1.05 == 1965.6).
  { rewrite Hheight. reflexivity. }
  assert (Hlow : maxStrokeY page * 0.885 <= 1965.6 -> height result == 1872).
  { intros H. rewrite Hh. destruct (verticalScroll pageInfo); [|exact Hheight].
    rewrite <- Hthr in H. apply Qgtb_false_iff in H. now rewrite H. }
  assert (Hhigh : verticalScroll pageInfo <> None ->
                  1965.6 < maxStrokeY page * 0.885 ->
                  height result == maxStrokeY page * 0.885).
  { intros Hs H. rewrite Hh. destruct (verticalScroll pageInfo); [|congruence].
    rewrite <- Hthr in H. apply Qgtb_true_iff in H. rewrite H. reflexivity. }
  split; [|split; [|split; [|split; [|split; [|split; [|split]]]]]].
  - rewrite convertContent_outputs by (rewrite Hpages; discriminate).
    rewrite Hpages. reflexivity.
  - intros Hnone. rewrite Hh, Hnone. exact Hheight.
  - intros Hmax. apply Hlow. rewrite Hmax. discriminate.
  - intros Hmax. apply Hlow. rewrite Hmax. discriminate.
  - exact Hhigh.
  - intros Hs Hmax. rewrite (Hhigh Hs).
    + rewrite Hmax. reflexivity.
    + rewrite Hmax. reflexivity.
  - exact Hlow.
  - intros Hext.
    destruct (Qlt_le_dec 1965.6 (maxStrokeY page * 0.885)) as [Hgt | Hle];
      [|contradiction (Hext (Hlow Hle))].
    assert (Hs : verticalScroll pageInfo <> None).
    { intros Hnone. apply Hext. rewrite Hh, Hnone. exact Hheight. }
    split; [exact Hs|]. split; [exact Hgt | exact (Hhigh Hs Hgt)].
Qed.

(** C10, as the code has it.  The page handed to the renderer for a decoded
    page has the decoded page's layers, text spans, text blocks and width;
    its identifier is the page id of the archive's page entry; its height
    is the decoded one unless the page is flagged as scrolled and
    auto-extension replaced it. *)
Theorem converter_changes_only_id_and_height (content : DocumentContent)
    (i : nat) (pageInfo : PageInfo) (data : list byte) (page : Page) :
  nth_error (pages content) i = Some pageInfo ->
  rmData pageInfo = Some data ->
  parseRmFile data = Some page ->
  let result := parsed pageInfo in
  (exists out,
      convert content = inr out /\
      nth_error out i
      = Some (renderPageToPdf textBlockOps result (bgOf content i))) /\
  layers result = layers page /\
  textSpans result = textSpans page /\
  textBlocks result = textBlocks page /\
  width result = width page /\
  pageId result = info_pageId pageInfo /\
  (height result = height page \/
   verticalScroll pageInfo <> None /\
   height result = maxStrokeY page * 0.885 /\
   height page * 1.05 < height result).
Proof.
  intros Hi Hdata Hpage result.
  assert (Hr : result = extendPageHeight (verticalScroll pageInfo)
                          (set_pageId page (info_pageId pageInfo)))
    by (apply parsedPage_decoded with data; assumption).
  split.
  { destruct (convertContent_page content i pageInfo Hi)
      as (out & Hout & _ & Hnth).
    exists out. auto. }
  rewrite Hr. unfold extendPageHeight.
  destruct (verticalScroll pageInfo) as [v |].
  - cbn [set_pageId height layers].
    change (maxStrokeY (set_pageId page (info_pageId pageInfo)))
      with (maxStrokeY page).
    destruct (Qgtb (maxStrokeY page * 0.885) (height page * 1.05)) eqn:Hgt.
    + repeat (split; [reflexivity|]). right. split; [discriminate|].
      split; [reflexivity|]. cbn. now apply Qgtb_true_iff.
    + repeat (split; [reflexivity|]). now left.
  - repeat (split; [reflexivity|]). now left.
Qed.

(** Whatever the decoder, the identifier it gives a page cannot be the one
    the converter leaves on it for every archive: the same bytes under two
    page ids give two identifiers. *)
Lemma pageId_follows_archive (data : list byte) (page : Page)
    (id1 id2 : string) :
  parseRmFile data = Some page ->
  id1 <> id2 ->
  pageId (parsed (mkPageInfo id1 (Some data) None None)) <> pageId page \/
  pageId (parsed (mkPageInfo id2 (Some data) None None)) <> pageId page.
Proof.
  intros Hpage Hne. unfold parsedPage. cbn. rewrite Hpage. cbn.
  destruct (string_dec id1 (pageId page)) as [Heq | Hneq];
    [right; congruence | left; exact Hneq].
Qed.

End ConverterFacts.

(** C3 fails as stated: a scrolled page whose strokes reach y = 2200 keeps
    the default height 1872, since 2200 * 0.885 = 1947 does not exceed
    1872 * 1.05 = 1965.6. *)
Lemma scroll_2200_not_extended :
  let page := Examples.pageWithMaxY 2200 in
  let parse := Examples.decodesTo page in
  let content := Examples.document [Examples.scrolledInfo] in
  verticalScroll Examples.scrolledInfo = Some 640 /\
  maxStrokeY page == 2200 /\
  height page == 1872 /\
  convertContent parse Examples.noBackground Examples.noText content
  = inr [renderPageToPdf Examples.noText
           (parsedPage parse Examples.scrolledInfo) None] /\
  height (parsedPage parse Examples.scrolledInfo) == 1872 /\
  ~ height (parsedPage parse Examples.scrolledInfo) == 2200 * 0.885 /\
  ~ 1872 * 1.05 < 2200 * 0.885.
Proof.
  intros page parse content.
  split; [reflexivity|]. split; [vm_compute; reflexivity|].
  split; [reflexivity|]. split; [reflexivity|].
  split; [vm_compute; reflexivity|].
  split; [vm_compute; discriminate|].
  vm_compute. discriminate.
Qed.

Lemma scroll_extension_witness :
  let page := Examples.pageWithMaxY 2200 in
  let taller := Examples.pageWithMaxY 2300 in
  let content := Examples.document [Examples.scrolledInfo] in
  pages content = [Examples.scrolledInfo] /\
  rmData Examples.scrolledInfo = Some [x00] /\
  Examples.decodesTo page [x00] = Some page /\
  height page == 1872 /\
  maxStrokeY page == 2200 /\
  height (parsedPage (Examples.decodesTo page) Examples.scrolledInfo) == 1872 /\
  maxStrokeY taller == 2300 /\
  height (parsedPage (Examples.decodesTo taller) Examples.scrolledInfo)
  == 2035.5.
Proof.
  intros page taller content.
  assert (Hh : height page == 1872) by reflexivity.
  assert (Hmax : maxStrokeY page == 2200) by (vm_compute; reflexivity).
  assert (Hh' : height taller == 1872) by reflexivity.
  assert (Hmax' : maxStrokeY taller == 2300) by (vm_compute; reflexivity).
  split; [reflexivity|]. split; [reflexivity|]. split; [reflexivity|].
  split; [exact Hh|]. split; [exact Hmax|].
  split; [|split; [exact Hmax'|]].
  - exact (proj1 (proj2 (proj2 (proj2
             (scroll_extension_examples (Examples.decodesTo page)
                Examples.noBackground Examples.noText content
                Examples.scrolledInfo [x00] page
                eq_refl eq_refl eq_refl Hh)))) Hmax).
  - refine (proj1 (proj2 (proj2 (proj2 (proj2 (proj2
             (scroll_extension_examples (Examples.decodesTo taller)
                Examples.noBackground Examples.noText content
                Examples.scrolledInfo [x00] taller
                eq_refl eq_refl eq_refl Hh')))))) _ Hmax').
    discriminate.
Defined.

(** C10 fails as stated: the converter overwrites the identifier of the
    decoded page with the page id of the archive's page entry. *)
Lemma pageId_overwritten :
  let page := Examples.pageWithMaxY 1000 in
  let parse := Examples.decodesTo page in
  rmData Examples.plainInfo = Some [x00] /\
  parse [x00] = Some page /\
  pageId page = ""%string /\
  pageId (parsedPage parse Examples.plainInfo) = "page-2"%string /\
  pageId (parsedPage parse Examples.plainInfo) <> pageId page.
Proof.
  intros page parse. repeat (split; [reflexivity|]). discriminate.
Qed.

Lemma converter_frame_witness :
  let page := Examples.pageWithMaxY 2300 in
  let parse := Examples.decodesTo page in
  let content := Examples.document [Examples.plainInfo; Examples.scrolledInfo] in
  let result := parsedPage parse Examples.scrolledInfo in
  nth_error (pages content) 1 = Some Examples.scrolledInfo /\
  rmData Examples.scrolledInfo = Some [x00] /\
  parse [x00] = Some page /\
  layers result = layers page /\
  textSpans result = textSpans page /\
  textBlocks result = textBlocks page /\
  width result = width page /\
  pageId result = "page-1"%string /\
  (height result = height page \/
   verticalScroll Examples.scrolledInfo <> None /\
   height result = maxStrokeY page * 0.885 /\
   height page * 1.05 < height result).
Proof.
  intros page parse content result.
  split; [reflexivity|]. split; [reflexivity|]. split; [reflexivity|].
  exact (proj2 (converter_changes_only_id_and_height parse
                  Examples.noBackground Examples.noText content 1%nat
                  Examples.scrolledInfo [x00] page eq_refl eq_refl eq_refl)).
Defined.

(** ** Colors and opacities *)

Lemma land_255_range (n : Z) : (0 <= Z.land n 255 <= 255)%Z.
Proof.
  change 255%Z with (Z.ones 8). rewrite Z.land_ones by lia.
  pose proof (Z.mod_pos_bound n (2 ^ 8) eq_refl) as H.
  change (2 ^ 8)%Z with 256%Z in *. change (Z.ones 8) with 255%Z. lia.
Qed.

Lemma byte_over_255 (n : Z) :
  (0 <= n <= 255)%Z -> unitInterval (inject_Z n / 255).
Proof.
  intros [Hlo Hhi]. unfold unitInterval, Qle, Qdiv, Qmult, Qinv, inject_Z.
  cbn. lia.
Qed.

Lemma getColor_unit (colorIndex : Z) : unitColor (getColor colorIndex).
Proof.
  unfold getColor, COLOR_MAP.
  destruct colorIndex as [| p | p];
    [ | do 4 (try destruct p as [p | p |]) | ];
    cbv [unitColor unitInterval r g b BLACK]; repeat split; discriminate.
Qed.

Lemma getPenStyle_opacity_unit (pen : PenType) :
  unitInterval (opacity (getPenStyle pen)).
Proof. destruct pen; cbv [unitInterval]; split; discriminate. Qed.

Lemma strokePaint_unit (stroke : Stroke) :
  unitColor (fst (strokePaint stroke)) /\ unitInterval (snd (strokePaint stroke)).
Proof.
  unfold strokePaint. destruct (colorArgb stroke) as [v |]; cbn [fst snd].
  - split.
    + repeat split; cbn [r g b a_r a_g a_b getArgbColor];
        apply byte_over_255, land_255_range.
    + destruct (isHighlighter (getPenStyle (penType stroke))
                && isShader (penType stroke)).
      * apply byte_over_255, land_255_range.
      * apply getPenStyle_opacity_unit.
  - split; [apply getColor_unit | apply getPenStyle_opacity_unit].
Qed.

Lemma emitted_paint (stroke : Stroke) (geo : PageGeometry) (op : Operator)
    (c : RGB) (o : Q) :
  In op (emitted stroke geo) -> paintOf op = Some (c, o) ->
  strokePaint stroke = (c, o).
Proof.
  intros Hin Hpaint. unfold emitted in Hin.
  destruct (List.length (points stroke) <? 2)%nat; [contradiction|].
  destruct (isEraser (penType stroke)); [contradiction|].
  destruct (strokePaint stroke) as [c' o']. cbn [fst snd] in Hin.
  destruct (isHighlighter (getPenStyle (penType stroke))).
  - destruct Hin as [<- | [<- | []]]; cbn [paintOf] in Hpaint;
      [discriminate | congruence].
  - destruct (points stroke) as [| p0 rest]; [contradiction|].
    apply segmentOps_paint in Hin. congruence.
Qed.

(** X1. Whatever the stroke (any palette index, any ARGB override, any pen),
    every color channel and every opacity it is painted with lies between 0
    and 1. *)
Theorem stroke_paint_in_unit_range (stroke : Stroke) (geo : PageGeometry)
    (op : Operator) (c : RGB) (o : Q) :
  In op (strokeOps stroke geo) ->
  paintOf op = Some (c, o) ->
  (0 <= r c <= 1) /\ (0 <= g c <= 1) /\ (0 <= b c <= 1) /\ (0 <= o <= 1).
Proof.
  intros Hin Hpaint. rewrite strokeOps_emitted in Hin.
  pose proof (emitted_paint stroke geo op c o Hin Hpaint) as Hp.
  pose proof (strokePaint_unit stroke) as [Hc Ho].
  rewrite Hp in Hc, Ho. cbn [fst snd] in Hc, Ho.
  destruct Hc as (Hr & Hg & Hb). repeat split; first
    [ apply Hr | apply Hg | apply Hb | apply Ho ].
Qed.

Lemma stroke_paint_in_unit_range_witness :
  let stroke := Examples.strokeTo SHADER (Some 2164195328%Z) 1000 in
  let geo := computePageGeometry (Examples.pageWithMaxY 1000) in
  exists op c o,
    In op (strokeOps stroke geo) /\ paintOf op = Some (c, o) /\
    (0 <= r c <= 1) /\ (0 <= g c <= 1) /\ (0 <= b c <= 1) /\ (0 <= o <= 1).
Proof.
  intros stroke geo.
  exists (nth 1 (strokeOps stroke geo) (SetLineJoin JoinMiter)).
  eexists. eexists.
  assert (Hin : In (nth 1 (strokeOps stroke geo) (SetLineJoin JoinMiter))
                  (strokeOps stroke geo)) by (right; left; reflexivity).
  split; [exact Hin|]. split; [reflexivity|].
  exact (stroke_paint_in_unit_range stroke geo _ _ _ Hin eq_refl).
Defined.

Lemma channel_value (n : Z) :
  (0 <= n)%Z -> channelByte (inject_Z n / 255) = n.
Proof.
  intros Hn. unfold channelByte.
  assert (H : inject_Z n / 255 * 255 == inject_Z n) by field.
  rewrite H. apply Qfloor_Z.
Qed.

Lemma uint32_bytes (n : Z) :
  (0 <= n < 2 ^ 32)%Z ->
  n = (Z.land (Z.shiftr n 24) 255 * 16777216
       + Z.land (Z.shiftr n 16) 255 * 65536
       + Z.land (Z.shiftr n 8) 255 * 256
       + Z.land n 255)%Z.
Proof.
  intros Hn. change 255%Z with (Z.ones 8).
  rewrite !Z.land_ones, !Z.shiftr_div_pow2 by lia.
  change (2 ^ 8)%Z with 256%Z. change (2 ^ 16)%Z with 65536%Z.
  change (2 ^ 24)%Z with 16777216%Z. change (2 ^ 32)%Z with 4294967296%Z in Hn.
  Z.to_euclidean_division_equations. lia.
Qed.

(** X2. The four channels of [getArgbColor] hold the four bytes of a packed
    32-bit color: scaled back by 255 they are integers in 0..255, and
    a * 2^24 + r * 2^16 + g * 2^8 + b gives the packed value back.  The same
    bits read as a signed 32-bit integer give the same color. *)
Theorem getArgbColor_unpacks (argb : Z) :
  (0 <= argb < 2 ^ 32)%Z ->
  let c := getArgbColor argb in
  (0 <= channelByte (a_a c) <= 255)%Z /\
  (0 <= channelByte (a_r c) <= 255)%Z /\
  (0 <= channelByte (a_g c) <= 255)%Z /\
  (0 <= channelByte (a_b c) <= 255)%Z /\
  argb = (channelByte (a_a c) * 16777216 + channelByte (a_r c) * 65536
          + channelByte (a_g c) * 256 + channelByte (a_b c))%Z /\
  getArgbColor (argb - 2 ^ 32) = c.
Proof.
  intros Hn c.
  assert (Hu : ToUint32 argb = argb).
  { unfold ToUint32. apply Z.mod_small. exact Hn. }
  assert (Ha : channelByte (a_a c) = Z.land (Z.shiftr argb 24) 255).
  { unfold c, getArgbColor, channel. cbn [a_a]. rewrite Hu.
    apply channel_value, land_255_range. }
  assert (Hr : channelByte (a_r c) = Z.land (Z.shiftr argb 16) 255).
  { unfold c, getArgbColor, channel. cbn [a_r]. rewrite Hu.
    apply channel_value, land_255_range. }
  assert (Hg : channelByte (a_g c) = Z.land (Z.shiftr argb 8) 255).
  { unfold c, getArgbColor, channel. cbn [a_g]. rewrite Hu.
    apply channel_value, land_255_range. }
  assert (Hb : channelByte (a_b c) = Z.land argb 255).
  { unfold c, getArgbColor. cbn [a_b]. apply channel_value, land_255_range. }
  rewrite Ha, Hr, Hg, Hb.
  repeat (split; [apply land_255_range|]).
  split; [apply uint32_bytes; exact Hn|].
  unfold c, getArgbColor, channel.
  assert (Hu' : ToUint32 (argb - 2 ^ 32) = ToUint32 argb).
  { unfold ToUint32.
    replace (argb - 2 ^ 32)%Z with (argb + (-1) * 2 ^ 32)%Z by lia.
    apply Z.mod_add. discriminate. }
  assert (Hl : Z.land (argb - 2 ^ 32) 255 = Z.land argb 255).
  { change 255%Z with (Z.ones 8). rewrite !Z.land_ones by lia.
    replace (argb - 2 ^ 32)%Z with (argb + (-16777216) * 2 ^ 8)%Z by lia.
    apply Z.mod_add. discriminate. }
  now rewrite Hu', Hl.
Qed.

Lemma getArgbColor_unpacks_witness :
  let c := getArgbColor 2164195328 in
  (0 <= 2164195328 < 2 ^ 32)%Z /\
  channelByte (a_a c) = 128%Z /\ channelByte (a_r c) = 255%Z /\
  2164195328%Z
  = (channelByte (a_a c) * 16777216 + channelByte (a_r c) * 65536
     + channelByte (a_g c) * 256 + channelByte (a_b c))%Z /\
  getArgbColor (2164195328 - 2 ^ 32) = c.
Proof.
  intros c.
  assert (Hn : (0 <= 2164195328 < 2 ^ 32)%Z) by (split; [lia | reflexivity]).
  split; [exact Hn|]. split; [reflexivity|]. split; [reflexivity|].
  pose proof (getArgbColor_unpacks 2164195328 Hn) as H.
  split; [apply H | apply H].
Defined.

(** ** Segment-by-segment strokes *)

Lemma segmentOps_length pen c o geo (rest : list Point) :
  forall prev, List.length (segmentOps pen c o geo prev rest) = List.length rest.
Proof.
  induction rest as [| curr rest IH]; intros prev; cbn; [reflexivity|].
  now rewrite IH.
Qed.

Lemma segmentOps_nth pen c o geo (rest : list Point) :
  forall (p0 : Point) (i : nat) (prev curr : Point),
    nth_error (p0 :: rest) i = Some prev ->
    nth_error (p0 :: rest) (S i) = Some curr ->
    nth_error (segmentOps pen c o geo p0 rest) i
    = Some (DrawLine (toPdf (pt_x prev) (pt_y prev) geo)
              (toPdf (pt_x curr) (pt_y curr) geo)
              (pointWidthPt curr pen) c o CapRound).
Proof.
  induction rest as [| p1 rest IH]; intros p0 i prev curr Hprev Hcurr.
  - destruct i; discriminate.
  - destruct i as [| i].
    + cbn in Hprev, Hcurr. inversion Hprev; inversion Hcurr; subst. reflexivity.
    + cbn [segmentOps nth_error]. apply IH; assumption.
Qed.

(** X3. A stroke of a pen that is neither an eraser nor highlighter-class,
    with n >= 2 points, is drawn as exactly n - 1 lines and nothing else:
    line i joins point i to point i + 1, is as thick as [pointWidthPt] of
    its ending point, and has a round cap and the stroke's color and
    opacity. *)
Theorem segment_stroke_lines (stroke : Stroke) (geo : PageGeometry) :
  isEraser (penType stroke) = false ->
  isHighlighter (getPenStyle (penType stroke)) = false ->
  (2 <= List.length (points stroke))%nat ->
  S (List.length (strokeOps stroke geo)) = List.length (points stroke) /\
  forall (i : nat) (prev curr : Point),
    nth_error (points stroke) i = Some prev ->
    nth_error (points stroke) (S i) = Some curr ->
    nth_error (strokeOps stroke geo) i
    = Some (DrawLine (toPdf (pt_x prev) (pt_y prev) geo)
              (toPdf (pt_x curr) (pt_y curr) geo)
              (pointWidthPt curr (penType stroke))
              (fst (strokePaint stroke)) (snd (strokePaint stroke)) CapRound).
Proof.
  intros Her Hhl Hlen. rewrite strokeOps_emitted. unfold emitted.
  replace (List.length (points stroke) <? 2)%nat with false
    by (symmetry; apply Nat.ltb_ge; exact Hlen).
  rewrite Her, Hhl.
  destruct (points stroke) as [| p0 rest]; [cbn in Hlen; lia|].
  split.
  - rewrite segmentOps_length. reflexivity.
  - intros i prev curr. apply segmentOps_nth.
Qed.

Lemma segment_stroke_lines_witness :
  let stroke := Examples.strokeTo FINELINER_1 None 1000 in
  let geo := computePageGeometry (Examples.pageWithMaxY 1000) in
  isEraser (penType stroke) = false /\
  isHighlighter (getPenStyle (penType stroke)) = false /\
  (2 <= List.length (points stroke))%nat /\
  S (List.length (strokeOps stroke geo)) = 2%nat /\
  nth_error (strokeOps stroke geo) 0
  = Some (DrawLine (toPdf (-213) 0 geo) (toPdf 290 1000 geo)
            (pointWidthPt (mkPoint 290 1000 2) FINELINER_1)
            BLACK 1.0 CapRound).
Proof.
  intros stroke geo.
  assert (H2 : (2 <= List.length (points stroke))%nat) by (cbn; lia).
  split; [reflexivity|]. split; [reflexivity|]. split; [exact H2|].
  pose proof (segment_stroke_lines stroke geo eq_refl eq_refl H2) as [Hn Hi].
  split; [exact Hn|].
  exact (Hi 0%nat (mkPoint (-213) 0 2) (mkPoint 290 1000 2) eq_refl eq_refl).
Defined.

(** ** Geometry *)

(** The quotients of the calibration constants as fractions, for [lra]. *)
Ltac calibration_constants :=
  change (514 / 1620) with (514 # 1620) in *;
  change (514 / 1404) with (514 # 1404) in *;
  change (1620 / 1404) with (1620 # 1404) in *;
  change (1620 / 2) with (1620 # 2) in *.

(** X4. On a page of non-negative height, a device point with x in
    [-810, 810] and y in [0, height * 1620/1404] lands inside the output
    page, whose width is 514pt.  The left, right and top edges of that
    device rectangle land exactly on the edges of the page; its bottom edge
    lands on the bottom of the page or above it, by at most a millionth of
    a point for heights up to 100000. *)
Theorem toPdf_inside_page (page : Page) (x y : Q) :
  0 <= height page ->
  -810 <= x <= 810 ->
  0 <= y <= height page * (1620 / 1404) ->
  let geo := computePageGeometry page in
  pageWidthPt geo == 514 /\
  0 <= px (toPdf x y geo) <= pageWidthPt geo /\
  0 <= py (toPdf x y geo) <= pageHeightPt geo /\
  px (toPdf (-810) y geo) == 0 /\
  px (toPdf 810 y geo) == pageWidthPt geo /\
  py (toPdf x 0 geo) == pageHeightPt geo /\
  (height page <= 100000 ->
   0 <= py (toPdf x (height page * (1620 / 1404)) geo) <= 1 # 1000000).
Proof.
  intros Hh Hx Hy geo.
  unfold geo, toPdf, computePageGeometry, COORD_SCALE, SCALE,
    RM_SCREEN_WIDTH_PX, RM_DEFAULT_WIDTH_PX.
  cbn [px py xOffset yOffset pageWidthPt pageHeightPt].
  calibration_constants.
  do 6 (split; [lra|]). intros Hmax. split; lra.
Qed.

Lemma toPdf_inside_page_witness :
  let page := Examples.pageWithMaxY 1000 in
  let geo := computePageGeometry page in
  0 <= height page /\ -810 <= 290 <= 810 /\
  0 <= 1000 <= height page * (1620 / 1404) /\
  pageWidthPt geo == 514 /\
  0 <= px (toPdf 290 1000 geo) <= pageWidthPt geo /\
  0 <= py (toPdf 290 1000 geo) <= pageHeightPt geo.
Proof.
  intros page geo.
  assert (Hh : 0 <= height page) by discriminate.
  assert (Hx : -810 <= 290 <= 810) by (split; discriminate).
  assert (Hy : 0 <= 1000 <= height page * (1620 / 1404))
    by (split; discriminate).
  split; [exact Hh|]. split; [exact Hx|]. split; [exact Hy|].
  pose proof (toPdf_inside_page page 290 1000 Hh Hx Hy) as H.
  split; [apply H|]. split; apply H.
Defined.

(** X5. The positional transform scales both axes by COORD_SCALE and
    flips the vertical one, on every page: of two points, the one further
    right on the device is not further left on the page, and the one
    further down on the device is not further up on the page.  For device
    coordinates and page heights up to 100000 in size, the horizontal and
    vertical distances between two images are, within a millionth of a
    point, COORD_SCALE times the distances on the device. *)
Theorem toPdf_uniform_scale_and_flip (page : Page) (x1 y1 x2 y2 : Q) :
  let geo := computePageGeometry page in
  (x1 <= x2 -> px (toPdf x1 y1 geo) <= px (toPdf x2 y2 geo)) /\
  (y1 <= y2 -> py (toPdf x2 y2 geo) <= py (toPdf x1 y1 geo)) /\
  (0 <= height page <= 100000 ->
   Qabs x1 <= 100000 -> Qabs x2 <= 100000 ->
   Qabs y1 <= 100000 -> Qabs y2 <= 100000 ->
   Qabs (px (toPdf x2 y2 geo) - px (toPdf x1 y1 geo)
         - (x2 - x1) * COORD_SCALE) <= 1 # 1000000 /\
   Qabs (py (toPdf x1 y1 geo) - py (toPdf x2 y2 geo)
         - (y2 - y1) * COORD_SCALE) <= 1 # 1000000).
Proof.
  intros geo.
  assert (Hx : px (toPdf x2 y2 geo) - px (toPdf x1 y1 geo)
               - (x2 - x1) * COORD_SCALE == 0).
  { unfold geo, toPdf, computePageGeometry, COORD_SCALE, RM_SCREEN_WIDTH_PX.
    cbn [px xOffset]. calibration_constants. lra. }
  assert (Hy : py (toPdf x1 y1 geo) - py (toPdf x2 y2 geo)
               - (y2 - y1) * COORD_SCALE == 0).
  { unfold geo, toPdf, computePageGeometry, COORD_SCALE, RM_SCREEN_WIDTH_PX.
    cbn [py yOffset pageHeightPt]. calibration_constants. lra. }
  split; [|split].
  - intros Hle. revert Hx.
    unfold COORD_SCALE, RM_SCREEN_WIDTH_PX. calibration_constants.
    intros Hx. lra.
  - intros Hle. revert Hy.
    unfold COORD_SCALE, RM_SCREEN_WIDTH_PX. calibration_constants.
    intros Hy. lra.
  - intros _ _ _ _ _. rewrite Hx, Hy. split; discriminate.
Qed.

(** ** Highlighter paths *)

(** X6. The path of a highlighter-class stroke has one command per point, a
    move for the first point and a line for each later one; the coordinates
    of a command are within 0.005 of ((x + xOffset) * COORD_SCALE,
    (y - yOffset) * COORD_SCALE), which does not depend on the page
    height. *)
Theorem svgPath_follows_points (geo : PageGeometry) (pts : list Point) :
  List.length (svgPath geo pts) = List.length pts /\
  forall (i : nat) (p : Point),
    nth_error pts i = Some p ->
    exists sx sy,
      nth_error (svgPath geo pts) i
      = Some (match i with O => SvgM sx sy | S _ => SvgL sx sy end) /\
      Qabs (sx - (pt_x p + xOffset geo) * COORD_SCALE) <= 1 # 200 /\
      Qabs (sy - (pt_y p - yOffset geo) * COORD_SCALE) <= 1 # 200.
Proof.
  assert (Hpt : forall p,
             Qabs (fst (svgPoint geo p) - (pt_x p + xOffset geo) * COORD_SCALE)
             <= 1 # 200 /\
             Qabs (snd (svgPoint geo p) - (pt_y p - yOffset geo) * COORD_SCALE)
             <= 1 # 200).
  { intros p. unfold svgPoint, toPdf. cbn [fst snd px py]. split.
    - apply toFixed2_error.
    - set (a := pageHeightPt geo
                - (pageHeightPt geo - (pt_y p - yOffset geo) * COORD_SCALE)).
      assert (Heq : (pt_y p - yOffset geo) * COORD_SCALE == a)
        by (unfold a; ring).
      rewrite Heq. apply toFixed2_error. }
  destruct pts as [| p0 rest]; cbn [svgPath].
  - split; [reflexivity|]. intros i p Hi. destruct i; discriminate.
  - split; [cbn; now rewrite length_map|].
    intros i p Hi. destruct i as [| i]; cbn in Hi.
    + inversion Hi; subst.
      exists (fst (svgPoint geo p)), (snd (svgPoint geo p)).
      split; [reflexivity | apply Hpt].
    + exists (fst (svgPoint geo p)), (snd (svgPoint geo p)).
      split; [|apply Hpt]. cbn [nth_error].
      now rewrite nth_error_map, Hi.
Qed.

Lemma svgPath_follows_points_witness :
  let geo := computePageGeometry (Examples.pageWithMaxY 1000) in
  let pts := points Examples.highlighterStroke in
  nth_error pts 1 = Some (mkPoint 10 10 10) /\
  exists sx sy,
    nth_error (svgPath geo pts) 1 = Some (SvgL sx sy) /\
    Qabs (sx - (10 + xOffset geo) * COORD_SCALE) <= 1 # 200 /\
    Qabs (sy - (10 - yOffset geo) * COORD_SCALE) <= 1 # 200.
Proof.
  intros geo pts. split; [reflexivity|].
  exact (proj2 (svgPath_follows_points geo pts) 1%nat (mkPoint 10 10 10)
           eq_refl).
Defined.

Lemma toPdf_uniform_scale_and_flip_witness :
  let geo := computePageGeometry (Examples.pageWithMaxY 1000) in
  -213 <= 290 /\ px (toPdf (-213) 0 geo) <= px (toPdf 290 1000 geo) /\
  0 <= 1000 /\ py (toPdf 290 1000 geo) <= py (toPdf (-213) 0 geo) /\
  Qabs (px (toPdf 290 1000 geo) - px (toPdf (-213) 0 geo)
        - (290 - -213) * COORD_SCALE) <= 1 # 1000000.
Proof.
  intros geo.
  pose proof (toPdf_uniform_scale_and_flip (Examples.pageWithMaxY 1000)
                (-213) 0 290 1000)
    as (Hx & Hy & Hd).
  assert (H1 : -213 <= 290) by discriminate.
  assert (H2 : 0 <= 1000) by discriminate.
  split; [exact H1|]. split; [exact (Hx H1)|].
  split; [exact H2|]. split; [exact (Hy H2)|].
  refine (proj1 (Hd _ _ _ _ _)); try (split; discriminate); discriminate.
Defined.

(** ** Pages and notebooks *)

Lemma emitted_nothing (stroke : Stroke) (geo : PageGeometry) :
  isEraser (penType stroke) = true \/ (List.length (points stroke) < 2)%nat ->
  emitted stroke geo = [].
Proof.
  intros [H | H]; unfold emitted.
  - rewrite H. now destruct (List.length (points stroke) <? 2)%nat.
  - apply Nat.ltb_lt in H. now rewrite H.
Qed.

Lemma flat_map_nothing {A B : Type} (f : A -> list B) (l : list A) :
  Forall (fun v => f v = []) l -> flat_map f l = [].
Proof.
  induction 1 as [| v l Hv _ IH]; cbn; [reflexivity|]. now rewrite Hv, IH.
Qed.

Lemma Forall_filter {A : Type} (P : A -> Prop) (f : A -> bool) (l : list A) :
  Forall P l -> Forall P (filter f l).
Proof.
  intros H. rewrite Forall_forall in *. intros v Hv.
  apply filter_In in Hv. apply H, Hv.
Qed.

(** X7. A page none of whose strokes can be drawn (each is an eraser stroke
    or has fewer than 2 points) is rendered with the text operators only,
    on a page of 514pt by height * SCALE; with no text block either, it is
    a blank page, as the canonical empty page is. *)
Theorem undrawable_strokes_leave_text_only
    (textBlockOps : TextBlock -> PageGeometry -> list Operator)
    (page : Page) (backgroundPdf : option (list byte)) :
  Forall (fun s => isEraser (penType s) = true
                   \/ (List.length (points s) < 2)%nat)
         (flat_map strokes (layers page)) ->
  let out := annotation (renderPageToPdf textBlockOps page backgroundPdf) in
  operators out
  = flat_map (fun tb => textBlockOps tb (computePageGeometry page))
      (textBlocks page) /\
  fst (pageSize out) == 514 /\
  snd (pageSize out) == height page * SCALE /\
  (textBlocks page = [] -> operators out = []).
Proof.
  intros Hall out.
  assert (Hops : operators out
                 = flat_map (fun tb => textBlockOps tb (computePageGeometry page))
                     (textBlocks page)).
  { assert (Hnone : forall f : Stroke -> bool,
               flat_map (fun s => strokeOps s (computePageGeometry page))
                 (filter f (allStrokes page)) = []).
    { intros f. apply flat_map_nothing, Forall_filter.
      eapply Forall_impl; [|exact Hall].
      intros s Hs. rewrite strokeOps_emitted. now apply emitted_nothing. }
    unfold out. cbn [renderPageToPdf annotation].
    rewrite renderAnnotation_push. cbn [operators pushOperators addPage app].
    now rewrite !Hnone. }
  split; [exact Hops|].
  assert (Hsize : pageSize out
                  = (RM_SCREEN_WIDTH_PX * COORD_SCALE, height page * SCALE))
    by apply renderAnnotation_pageSize.
  rewrite Hsize. cbn [fst snd].
  split; [reflexivity|]. split; [reflexivity|].
  intros Hnil. rewrite Hops, Hnil. reflexivity.
Qed.

Lemma undrawable_strokes_leave_text_only_witness :
  let out := annotation
               (renderPageToPdf Examples.heading Examples.erasedPage None) in
  Forall (fun s => isEraser (penType s) = true
                   \/ (List.length (points s) < 2)%nat)
    (flat_map strokes (layers Examples.erasedPage)) /\
  List.length (flat_map strokes (layers Examples.erasedPage)) = 3%nat /\
  operators out
  = [DrawText "Ti"
       (px (toPdf (-600) 100 (computePageGeometry Examples.erasedPage)))
       (py (toPdf 0 100 (computePageGeometry Examples.erasedPage)))
       18 true (mkRGB 0 0 0)] /\
  fst (pageSize out) == 514 /\
  snd (pageSize out) == 1872 * SCALE.
Proof.
  intros out.
  assert (Hall : Forall (fun s => isEraser (penType s) = true
                                  \/ (List.length (points s) < 2)%nat)
                   (flat_map strokes (layers Examples.erasedPage))).
  { constructor; [left; reflexivity|].
    constructor; [right; cbn; lia|].
    constructor; [left; reflexivity | constructor]. }
  pose proof (undrawable_strokes_leave_text_only Examples.heading
                Examples.erasedPage None Hall)
    as (Hops & Hw & Hh & _).
  split; [exact Hall|]. split; [reflexivity|].
  split; [exact Hops|]. split; [exact Hw | exact Hh].
Defined.

Lemma copiedFrom_length {A : Type} (fileOf : nat -> Page -> A)
    (pages : list Page) :
  forall i, List.length (copiedFrom fileOf i pages) = List.length pages.
Proof.
  induction pages as [| page rest IH]; intros i; cbn; [reflexivity|].
  now rewrite IH.
Qed.

Lemma copiedFrom_nth {A : Type} (fileOf : nat -> Page -> A)
    (pages : list Page) :
  forall (i k : nat) (page : Page),
    nth_error pages k = Some page ->
    nth_error (copiedFrom fileOf i pages) k = Some (fileOf (i + k)%nat page).
Proof.
  induction pages as [| page0 rest IH]; intros i k page Hk.
  - destruct k; discriminate.
  - destruct k as [| k]; cbn in Hk |- *.
    + inversion Hk; subst. now rewrite Nat.add_0_r.
    + rewrite (IH (S i) k page Hk). do 2 f_equal. lia.
Qed.

Section NotebookFacts.

Variable textBlockOps : TextBlock -> PageGeometry -> list Operator.
Variable backgroundPages : list byte -> option nat.
Variable renderThrows : Page -> option Thrown.
Variable backgroundPdfs : list (option (list byte)).

Local Abbreviation fileOf :=
  (fun (k : nat) (page : Page) =>
     filePages backgroundPages
       (renderPageToPdf textBlockOps page (entryAt backgroundPdfs k))).

Lemma renderNotebookLoop_returns (pages : list Page) :
  Forall (fun page => renderThrows page = None) pages ->
  forall i outputDoc,
    renderNotebookLoop textBlockOps backgroundPages renderThrows i pages
      backgroundPdfs outputDoc
    = inr (outputDoc ++ List.concat (copiedFrom fileOf i pages)).
Proof.
  induction 1 as [| page rest Hpage Hrest IH]; intros i outputDoc;
    cbn [renderNotebookLoop copiedFrom List.concat].
  - now rewrite app_nil_r.
  - unfold renderPageFile. rewrite Hpage, IH, <- app_assoc. reflexivity.
Qed.

Lemma renderNotebookLoop_throws (pages : list Page) :
  forall i outputDoc k page e,
    nth_error pages k = Some page ->
    renderThrows page = Some e ->
    (forall j earlier,
        (j < k)%nat -> nth_error pages j = Some earlier ->
        renderThrows earlier = None) ->
    renderNotebookLoop textBlockOps backgroundPages renderThrows i pages
      backgroundPdfs outputDoc
    = inl e.
Proof.
  induction pages as [| page0 rest IH]; intros i outputDoc k page e Hk He Hbefore.
  - destruct k; discriminate.
  - cbn [renderNotebookLoop]. unfold renderPageFile.
    destruct k as [| k]; cbn [nth_error] in Hk.
    + injection Hk as ->. now rewrite He.
    + rewrite (Hbefore 0%nat page0 (Nat.lt_0_succ k) eq_refl).
      apply (IH _ _ k page e Hk He).
      intros j earlier Hj Hnth. apply (Hbefore (S j) earlier); [lia | exact Hnth].
Qed.

Lemma filePages_cases (page : Page) (bg : option (list byte)) :
  let annotationPage := renderAnnotation textBlockOps page in
  let file := filePages backgroundPages
                (renderPageToPdf textBlockOps page bg) in
  match bg with
  | None => file = [Drawn annotationPage]
  | Some backgroundPdf =>
      match backgroundPages backgroundPdf with
      | Some (S n) =>
          List.length file = S n /\
          nth_error file 0
          = Some (Background backgroundPdf 0 (Some annotationPage)) /\
          forall k, (1 <= k <= n)%nat ->
                    nth_error file k = Some (Background backgroundPdf k None)
      | _ => file = [Drawn annotationPage]
      end
  end.
Proof.
  intros annotationPage file. unfold file, filePages, mergeWithBackground.
  cbn [renderPageToPdf background annotation].
  destruct bg as [backgroundPdf |]; [|reflexivity].
  destruct (backgroundPages backgroundPdf) as [[| n] |]; try reflexivity.
  split; [cbn; now rewrite length_map, length_seq|].
  split; [reflexivity|].
  intros k Hk. destruct k as [| k]; [lia|]. cbn [nth_error].
  rewrite nth_error_map, nth_error_seq.
  replace (k <? n)%nat with true by (symmetry; apply Nat.ltb_lt; lia).
  reflexivity.
Qed.


End NotebookFacts.


(** ** The converter, from the archive to the file *)

Lemma first_throw (renderThrows : Page -> option Thrown) (pages : list Page) :
  Forall (fun page => renderThrows page = None) pages \/
  exists k page e,
    nth_error pages k = Some page /\
    renderThrows page = Some e /\
    forall j earlier,
      (j < k)%nat -> nth_error pages j = Some earlier ->
      renderThrows earlier = None.
Proof.
  induction pages as [| page0 rest IH]; [left; constructor|].
  destruct (renderThrows page0) as [e |] eqn:Hpage0.
  - right. exists 0%nat, page0, e. split; [reflexivity|].
    split; [exact Hpage0|]. intros j earlier Hj. lia.
  - destruct IH as [Hall | (k & page & e & Hk & He & Hbefore)].
    + left. now constructor.
    + right. exists (S k), page, e. split; [exact Hk|]. split; [exact He|].
      intros j earlier Hj Hnth. destruct j as [| j].
      * cbn in Hnth. now injection Hnth as <-.
      * apply (Hbefore j earlier); [lia | exact Hnth].
Qed.

Section ConversionFacts.

Variable parseRmFile : list byte -> option Page.
Variable extractPdfPage : list byte -> nat -> option (list byte).
Variable textBlockOps : TextBlock -> PageGeometry -> list Operator.
Variable backgroundPages : list byte -> option nat.
Variable renderThrows : Page -> option Thrown.
Variable loadAsync : list byte -> Thrown + Conversion.Zip.
Variable JSON_parse : list byte -> option Json.
Variable extractPages : Conversion.Zip -> Json -> Thrown + list PageInfo.

Local Abbreviation parsed := (parsedPage parseRmFile).
Local Abbreviation bgOf := (backgroundPdf extractPdfPage).
Local Abbreviation outputs :=
  (outputPagesFrom parseRmFile extractPdfPage textBlockOps).
Local Abbreviation fileOfOutputs :=
  (fun outs => List.concat (map (filePages backgroundPages) outs)).
Local Abbreviation runParse :=
  (Conversion.parse loadAsync JSON_parse extractPages).
Local Abbreviation runParsed :=
  (Conversion.convertParsed parseRmFile extractPdfPage textBlockOps
     backgroundPages renderThrows).
Local Abbreviation runConvert :=
  (Conversion.convertToPdf parseRmFile extractPdfPage textBlockOps
     backgroundPages renderThrows loadAsync JSON_parse extractPages).

Lemma filePages_not_nil (out : PdfOutputPage) :
  filePages backgroundPages out <> [].
Proof.
  unfold filePages, mergeWithBackground.
  destruct (background out) as [bg |]; [|discriminate].
  destruct (backgroundPages bg) as [[| n] |]; discriminate.
Qed.

Lemma renderNotebookLoop_outputs (content : DocumentContent) (n : nat)
    (infos : list PageInfo) :
  Forall (fun pageInfo => renderThrows (parsed pageInfo) = None) infos ->
  forall i outputDoc,
    (i + List.length infos <= n)%nat ->
    renderNotebookLoop textBlockOps backgroundPages renderThrows i
      (map parsed infos) (map (bgOf content) (seq 0 n)) outputDoc
    = inr (outputDoc ++ fileOfOutputs (outputs content i infos)).
Proof.
  induction 1 as [| pageInfo rest Hpage Hrest IH]; intros i outputDoc Hi;
    cbn [map renderNotebookLoop outputPagesFrom List.concat List.length] in *.
  - now rewrite app_nil_r.
  - unfold renderPageFile. rewrite Hpage.
    rewrite backgrounds_nth by lia. rewrite IH by lia.
    rewrite <- app_assoc. reflexivity.
Qed.

(** A parsed content with a page: either no page makes the renderer
    throw and the file holds the pages of the files of all pages, in
    order, or the converter throws what the renderer throws on the first
    page it throws on. *)
Lemma convertParsed_cases (content : DocumentContent) :
  pages content <> [] ->
  (Forall (fun pageInfo => renderThrows (parsed pageInfo) = None)
     (pages content) /\
   runParsed content
   = inr (fileOfOutputs (outputs content 0 (pages content))))
  \/
  (exists pageInfo e,
      In pageInfo (pages content) /\
      renderThrows (parsed pageInfo) = Some e /\
      runParsed content = inl e).
Proof.
  intros Hne. unfold Conversion.convertParsed.
  rewrite convertLoop_arrays.
  destruct (pages content) as [| info0 rest] eqn:Hpages; [congruence|].
  destruct rest as [| info1 rest].
  - cbn [map seq List.length]. unfold renderPageFile.
    destruct (renderThrows (parsed info0)) as [e |] eqn:Hthrow.
    + right. exists info0, e. split; [now left|]. split; [exact Hthrow|].
      reflexivity.
    + left. split; [now repeat constructor|].
      cbn [outputPagesFrom map List.concat]. now rewrite app_nil_r.
  - set (infos := info0 :: info1 :: rest) in *.
    change (map parsed infos)
      with (parsed info0 :: parsed info1 :: map parsed rest) at 1.
    cbv iota beta.
    change (parsed info0 :: parsed info1 :: map parsed rest)
      with (map parsed infos).
    unfold renderNotebookToPdf.
    destruct (first_throw renderThrows (map parsed infos))
      as [Hall | (k & page & e & Hk & He & Hbefore)].
    + left. apply Forall_map in Hall. split; [exact Hall|].
      rewrite (renderNotebookLoop_outputs content _ infos Hall 0 [])
        by (cbn; lia).
      cbn [app]. unfold saveDocument.
      destruct (fileOfOutputs (outputs content 0 infos)) eqn:Hfile;
        [|reflexivity].
      exfalso. unfold infos in Hfile.
      cbn [outputPagesFrom map List.concat] in Hfile.
      apply app_eq_nil in Hfile. destruct Hfile as [Hfile _].
      exact (filePages_not_nil _ Hfile).
    + right.
      rewrite (renderNotebookLoop_throws textBlockOps backgroundPages
                 renderThrows _ _ 0 [] k page e Hk He Hbefore).
      apply nth_error_In in Hk. apply in_map_iff in Hk.
      destruct Hk as (pageInfo & <- & Hin).
      exists pageInfo, e. auto.
Qed.


(** C4.  For a decoded page with the vertical-scroll flag set, with scaled
    = (largest stroke y) * 0.885 and threshold = (decoded height) * 1.05:
    the height is kept when scaled equals threshold (and whenever scaled <=
    threshold), and becomes scaled when scaled is one unit above threshold
    (and whenever scaled > threshold).  The replacement comes before the
    geometry: the page with the resulting height is entry i of the array
    the converter hands to the renderer, the page the converter renders for
    input page i is drawn from it, on a page that is the resulting height
    times SCALE high and with the vertical flip starting from that height,
    and the pages of its file are in the file the conversion returns. *)
Theorem extension_threshold_is_strict (content : DocumentContent) (i : nat)
    (pageInfo : PageInfo) (data : list byte) (page : Page) (v : Q) :
  nth_error (pages content) i = Some pageInfo ->
  rmData pageInfo = Some data ->
  parseRmFile data = Some page ->
  verticalScroll pageInfo = Some v ->
  let scaled := maxStrokeY page * 0.885 in
  let threshold := height page * 1.05 in
  let result := parsed pageInfo in
  (scaled == threshold -> height result = height page) /\
  (scaled == threshold + 1 -> height result = scaled) /\
  (threshold < scaled -> height result = scaled) /\
  (scaled <= threshold -> height result = height page) /\
  nth_error
    (fst (convertLoop parseRmFile extractPdfPage content 0 (pages content))) i
  = Some result /\
  (exists out rendered,
      convertContent parseRmFile extractPdfPage textBlockOps content = inr out
      /\ nth_error out i = Some rendered
      /\ rendered = renderPageToPdf textBlockOps result (bgOf content i)
      /\ pageSize (annotation rendered)
         = (RM_SCREEN_WIDTH_PX * COORD_SCALE, height result * SCALE)
      /\ (threshold < scaled ->
          snd (pageSize (annotation rendered)) = scaled * SCALE)
      /\ (scaled <= threshold ->
          snd (pageSize (annotation rendered)) = height page * SCALE)) /\
  (forall x y : Q,
      py (toPdf x y (computePageGeometry result))
      = height result * SCALE - (y - 0) * COORD_SCALE) /\
  (forall file,
      runParsed content = inr file ->
      forall filePage,
        In filePage
          (filePages backgroundPages
             (renderPageToPdf textBlockOps result (bgOf content i))) ->
        In filePage file).
Proof.
  intros Hi Hdata Hpage Hscroll scaled threshold result.
  assert (Hh : height result
               = if Qgtb scaled threshold then scaled else height page).
  { unfold result.
    rewrite (parsedPage_decoded parseRmFile _ _ _ Hdata Hpage).
    rewrite extendPageHeight_height, Hscroll. reflexivity. }
  assert (Hle : scaled <= threshold -> height result = height page).
  { intros H. apply Qgtb_false_iff in H. now rewrite Hh, H. }
  assert (Hgt : threshold < scaled -> height result = scaled).
  { intros H. apply Qgtb_true_iff in H. now rewrite Hh, H. }
  assert (Hne : pages content <> []).
  { intros Hnil. rewrite Hnil in Hi. destruct i; discriminate. }
  split; [|split; [|split; [|split; [|split; [|split; [|split]]]]]].
  - intros Heq. apply Hle. rewrite Heq. apply Qle_refl.
  - intros Heq. apply Hgt. rewrite Heq.
    rewrite <- (Qplus_0_r threshold) at 1.
    apply Qplus_lt_r. reflexivity.
  - exact Hgt.
  - exact Hle.
  - rewrite convertLoop_arrays. cbn [fst]. now apply map_nth_error.
  - destruct (convertContent_page parseRmFile extractPdfPage textBlockOps
                content i pageInfo Hi) as (out & Hout & _ & Hnth).
    exists out, (renderPageToPdf textBlockOps result (bgOf content i)).
    split; [exact Hout|]. split; [exact Hnth|]. split; [reflexivity|].
    assert (Hsize : pageSize
                      (annotation
                         (renderPageToPdf textBlockOps result
                            (bgOf content i)))
                    = (RM_SCREEN_WIDTH_PX * COORD_SCALE,
                       height result * SCALE))
      by apply renderAnnotation_pageSize.
    split; [exact Hsize|]. rewrite Hsize. cbn [snd]. split.
    + intros H. now rewrite (Hgt H).
    + intros H. now rewrite (Hle H).
  - intros x y. reflexivity.
  - intros file Hfile filePage Hin.
    destruct (convertParsed_cases content Hne)
      as [[_ Hret] | (info & e & _ & _ & Hthrow)];
      [|rewrite Hthrow in Hfile; discriminate Hfile].
    rewrite Hret in Hfile. injection Hfile as <-.
    apply in_concat.
    exists (filePages backgroundPages
              (renderPageToPdf textBlockOps result (bgOf content i))).
    split; [|exact Hin].
    apply in_map. apply nth_error_In with i.
    now rewrite (outputPagesFrom_nth parseRmFile extractPdfPage textBlockOps
                   content (pages content) 0 i pageInfo Hi).
Qed.

End ConversionFacts.



Lemma extension_threshold_witness :
  let atThreshold := Examples.pageWithMaxY (131040 # 59) in
  let oneAbove := Examples.pageWithMaxY (393320 # 177) in
  let content := Examples.document [Examples.scrolledInfo] in
  (maxStrokeY atThreshold * 0.885 == height atThreshold * 1.05 /\
   height (parsedPage (Examples.decodesTo atThreshold) Examples.scrolledInfo)
   = 1872) /\
  (maxStrokeY oneAbove * 0.885 == height oneAbove * 1.05 + 1 /\
   height (parsedPage (Examples.decodesTo oneAbove) Examples.scrolledInfo)
   = maxStrokeY oneAbove * 0.885) /\
  nth_error
    (fst (convertLoop (Examples.decodesTo oneAbove) Examples.noBackground
            content 0 (pages content))) 0
  = Some (parsedPage (Examples.decodesTo oneAbove) Examples.scrolledInfo).
Proof.
  intros atThreshold oneAbove content.
  pose proof (extension_threshold_is_strict
                (Examples.decodesTo atThreshold) Examples.noBackground
                Examples.noText Examples.onePage Examples.neverThrows
                content 0 Examples.scrolledInfo [x00] atThreshold 640
                eq_refl eq_refl eq_refl eq_refl) as Hat.
  pose proof (extension_threshold_is_strict
                (Examples.decodesTo oneAbove) Examples.noBackground
                Examples.noText Examples.onePage Examples.neverThrows
                content 0 Examples.scrolledInfo [x00] oneAbove 640
                eq_refl eq_refl eq_refl eq_refl) as Habove.
  split; [|split].
  - assert (Heq : maxStrokeY atThreshold * 0.885 == height atThreshold * 1.05)
      by (vm_compute; reflexivity).
    split; [exact Heq | exact (proj1 Hat Heq)].
  - assert (Heq : maxStrokeY oneAbove * 0.885 == height oneAbove * 1.05 + 1)
      by (vm_compute; reflexivity).
    split; [exact Heq | exact (proj1 (proj2 Habove) Heq)].
  - exact (proj1 (proj2 (proj2 (proj2 (proj2 Habove))))).
Defined.

(** ** Height extension *)

Lemma fold_left_flat_map {A B C : Type} (f : A -> C -> A) (g : B -> list C)
    (l : list B) :
  forall a0,
    fold_left (fun a v => fold_left f (g v) a) l a0
    = fold_left f (flat_map g l) a0.
Proof.
  induction l as [| v l IH]; intros a0; cbn; [reflexivity|].
  now rewrite fold_left_app, IH.
Qed.

Lemma maxStrokeY_scan (page : Page) :
  maxStrokeY page = fold_left maxYStep (allPoints page) 0.
Proof.
  unfold maxStrokeY, allPoints, allStrokes.
  rewrite <- fold_left_flat_map.
  rewrite <- (fold_left_flat_map
                (fun maxY stroke => fold_left maxYStep (points stroke) maxY)).
  reflexivity.
Qed.

Lemma maxYStep_ge (maxY : Q) (pt : Point) :
  maxY <= maxYStep maxY pt /\ pt_y pt <= maxYStep maxY pt.
Proof.
  unfold maxYStep. destruct (Qgtb (pt_y pt) maxY) eqn:H.
  - apply Qgtb_true_iff in H. split; [now apply Qlt_le_weak | apply Qle_refl].
  - apply Qgtb_false_iff in H. split; [apply Qle_refl | exact H].
Qed.

Lemma scan_ge (pts : list Point) :
  forall a0,
    a0 <= fold_left maxYStep pts a0 /\
    Forall (fun pt => pt_y pt <= fold_left maxYStep pts a0) pts.
Proof.
  induction pts as [| pt pts IH]; intros a0; cbn [fold_left].
  - split; [apply Qle_refl | constructor].
  - destruct (IH (maxYStep a0 pt)) as [Hge Hall].
    destruct (maxYStep_ge a0 pt) as [H0 Hpt].
    split; [eapply Qle_trans; eassumption|].
    constructor; [eapply Qle_trans; eassumption | exact Hall].
Qed.

Lemma scan_attained (pts : list Point) :
  forall a0,
    fold_left maxYStep pts a0 = a0 \/
    exists pt, In pt pts /\ fold_left maxYStep pts a0 = pt_y pt.
Proof.
  induction pts as [| pt pts IH]; intros a0; cbn [fold_left].
  - now left.
  - destruct (IH (maxYStep a0 pt)) as [H | (q & Hq & H)].
    + rewrite H. unfold maxYStep. destruct (Qgtb (pt_y pt) a0).
      * right. exists pt. split; [now left | reflexivity].
      * now left.
    + right. exists q. split; [now right | exact H].
Qed.

Lemma in_allPoints (page : Page) (pt : Point) :
  In pt (allPoints page) <->
  exists layer stroke,
    In layer (layers page) /\ In stroke (strokes layer)
    /\ In pt (points stroke).
Proof.
  unfold allPoints, allStrokes. rewrite in_flat_map. split.
  - intros (stroke & Hs & Hpt). apply in_flat_map in Hs.
    destruct Hs as (layer & Hl & Hs). eauto.
  - intros (layer & stroke & Hl & Hs & Hpt). exists stroke.
    split; [|exact Hpt]. apply in_flat_map. eauto.
Qed.

Lemma maxStrokeY_upper_bound (page : Page) (layer : Layer) (stroke : Stroke)
    (pt : Point) :
  In layer (layers page) -> In stroke (strokes layer) ->
  In pt (points stroke) -> pt_y pt <= maxStrokeY page.
Proof.
  intros Hl Hs Hpt. rewrite maxStrokeY_scan.
  destruct (scan_ge (allPoints page) 0) as [_ Hall].
  rewrite Forall_forall in Hall. apply Hall, in_allPoints. eauto.
Qed.

(** X9. The scan that drives auto-extension computes the largest y over all
    points of all strokes of all layers, floored at 0: it is at least 0 and
    at least every point's y, and it is 0 or the y of one of the points. *)
Theorem maxStrokeY_is_maximum (page : Page) :
  0 <= maxStrokeY page /\
  (forall layer stroke pt,
      In layer (layers page) -> In stroke (strokes layer) ->
      In pt (points stroke) -> pt_y pt <= maxStrokeY page) /\
  (maxStrokeY page = 0 \/
   exists layer stroke pt,
     In layer (layers page) /\ In stroke (strokes layer) /\
     In pt (points stroke) /\ maxStrokeY page = pt_y pt).
Proof.
  split; [|split].
  - rewrite maxStrokeY_scan. apply scan_ge.
  - intros layer stroke pt. apply maxStrokeY_upper_bound.
  - rewrite maxStrokeY_scan.
    destruct (scan_attained (allPoints page) 0) as [H | (pt & Hpt & H)].
    + now left.
    + right. apply in_allPoints in Hpt.
      destruct Hpt as (layer & stroke & Hl & Hs & Hpt).
      exists layer, stroke, pt. auto.
Qed.

Lemma maxStrokeY_is_maximum_witness :
  let page := Examples.pageWithMaxY 2200 in
  let stroke := Examples.strokeTo FINELINER_1 None 2200 in
  In (mkLayer [stroke]) (layers page) /\
  In stroke (strokes (mkLayer [stroke])) /\
  In (mkPoint 290 2200 2) (points stroke) /\
  2200 <= maxStrokeY page.
Proof.
  intros page stroke.
  assert (Hl : In (mkLayer [stroke]) (layers page)) by (left; reflexivity).
  assert (Hs : In stroke (strokes (mkLayer [stroke]))) by (left; reflexivity).
  assert (Hp : In (mkPoint 290 2200 2) (points stroke))
    by (right; left; reflexivity).
  split; [exact Hl|]. split; [exact Hs|]. split; [exact Hp|].
  exact (proj1 (proj2 (maxStrokeY_is_maximum page)) _ _ _ Hl Hs Hp).
Defined.

Lemma maxStrokeY_set_height (page : Page) (h : Q) :
  maxStrokeY (set_height page h) = maxStrokeY page.
Proof. reflexivity. Qed.

(** X10. Auto-extension of a page of non-negative height never lowers the
    height, and extending twice is extending once; on a page flagged as
    scrolled the scaled content extent ends up at most 1.05 times the
    height. *)
Theorem extendPageHeight_idempotent (scroll : option Q) (page : Page) :
  0 <= height page ->
  let extended := extendPageHeight scroll page in
  height page <= height extended /\
  extendPageHeight scroll extended = extended /\
  (scroll <> None -> maxStrokeY page * 0.885 <= height extended * 1.05).
Proof.
  intros Hh extended. unfold extended, extendPageHeight.
  destruct scroll as [v |]; [|repeat split; [apply Qle_refl | congruence]].
  destruct (Qgtb (maxStrokeY page * 0.885) (height page * 1.05)) eqn:Hgt.
  - apply Qgtb_true_iff in Hgt.
    rewrite maxStrokeY_set_height. cbn [height set_height].
    assert (Hno : Qgtb (maxStrokeY page * 0.885)
                    (maxStrokeY page * 0.885 * 1.05) = false).
    { apply Qgtb_false_iff. lra. }
    rewrite Hno. repeat split; try lra.
  - rewrite Hgt. apply Qgtb_false_iff in Hgt.
    repeat split; try lra; apply Qle_refl.
Qed.

Lemma extendPageHeight_idempotent_witness :
  let page := Examples.pageWithMaxY 2300 in
  let extended := extendPageHeight (Some 640) page in
  0 <= height page /\
  height page <= height extended /\
  extendPageHeight (Some 640) extended = extended.
Proof.
  intros page extended.
  assert (Hh : 0 <= height page) by discriminate.
  split; [exact Hh|].
  pose proof (extendPageHeight_idempotent (Some 640) page Hh) as (H1 & H2 & _).
  split; [exact H1 | exact H2].
Defined.

(** X11. When auto-extension replaces the height of a page (of non-negative
    decoded height), every stroke point of the page lands on or above the
    bottom edge of the output page, and on or below its top edge when its
    y is not negative. *)
Theorem extended_page_holds_all_strokes (v : Q) (page : Page)
    (layer : Layer) (stroke : Stroke) (pt : Point) (x : Q) :
  0 <= height page ->
  height page * 1.05 < maxStrokeY page * 0.885 ->
  In layer (layers page) -> In stroke (strokes layer) ->
  In pt (points stroke) ->
  let geo := computePageGeometry (extendPageHeight (Some v) page) in
  0 <= py (toPdf x (pt_y pt) geo) /\
  (0 <= pt_y pt -> py (toPdf x (pt_y pt) geo) <= pageHeightPt geo).
Proof.
  intros Hh Hext Hl Hs Hpt geo.
  pose proof (maxStrokeY_upper_bound page layer stroke pt Hl Hs Hpt) as Hmax.
  assert (Hgeo : pageHeightPt geo = maxStrokeY page * 0.885 * SCALE).
  { unfold geo, extendPageHeight.
    apply Qgtb_true_iff in Hext. rewrite Hext. reflexivity. }
  unfold toPdf. cbn [py]. rewrite Hgeo.
  replace (yOffset geo) with 0 by reflexivity.
  unfold SCALE, COORD_SCALE, RM_DEFAULT_WIDTH_PX, RM_SCREEN_WIDTH_PX.
  calibration_constants. split; [lra | intros Hy; lra].
Qed.

Lemma extended_page_holds_all_strokes_witness :
  let page := Examples.pageWithMaxY 2300 in
  let stroke := Examples.strokeTo FINELINER_1 None 2300 in
  let geo := computePageGeometry (extendPageHeight (Some 640) page) in
  0 <= height page /\
  height page * 1.05 < maxStrokeY page * 0.885 /\
  0 <= py (toPdf 290 2300 geo) <= pageHeightPt geo.
Proof.
  intros page stroke geo.
  assert (Hh : 0 <= height page) by discriminate.
  assert (Hext : height page * 1.05 < maxStrokeY page * 0.885)
    by (vm_compute; reflexivity).
  split; [exact Hh|]. split; [exact Hext|].
  pose proof (extended_page_holds_all_strokes 640 page (mkLayer [stroke])
                stroke (mkPoint 290 2300 2) 290 Hh Hext
                (or_introl eq_refl) (or_introl eq_refl)
                (or_intror (or_introl eq_refl))) as [Hlo Hhi].
  split; [exact Hlo | apply Hhi; discriminate].
Defined.

(** ** Text: sanitizing *)

Import TextLayout.

Lemma sanitize_cons (c : Z) (text : JsString) :
  sanitizeForWinAnsi (c :: text)
  = (if ((c =? LINE_SEPARATOR) || (c =? PARAGRAPH_SEPARATOR))%Z then [LF]
     else if winAnsiOrBullet c then [c] else [])
    ++ sanitizeForWinAnsi text.
Proof.
  unfold sanitizeForWinAnsi, replaceAll. cbn [map filter].
  destruct (c =? LINE_SEPARATOR)%Z eqn:H1.
  - reflexivity.
  - destruct (c =? PARAGRAPH_SEPARATOR)%Z eqn:H2; cbn [orb].
    + reflexivity.
    + destruct (winAnsiOrBullet c); reflexivity.
Qed.

Lemma winAnsiOrBullet_spec (c : Z) :
  winAnsiOrBullet c = true <-> (0 <= c <= 255)%Z \/ c = BULLET_CHAR.
Proof.
  unfold winAnsiOrBullet.
  rewrite orb_true_iff, andb_true_iff, !Z.leb_le, Z.eqb_eq. tauto.
Qed.

Lemma sanitize_winAnsi (text : JsString) :
  Forall (fun c => winAnsiOrBullet c = true) (sanitizeForWinAnsi text).
Proof.
  apply Forall_forall. intros c Hc. unfold sanitizeForWinAnsi in Hc.
  apply filter_In in Hc. apply Hc.
Qed.

Lemma sanitize_fixpoint (text : JsString) :
  Forall (fun c => winAnsiOrBullet c = true) text ->
  sanitizeForWinAnsi text = text.
Proof.
  induction 1 as [| c text Hc _ IH]; [reflexivity|].
  rewrite sanitize_cons, IH, Hc.
  apply winAnsiOrBullet_spec in Hc.
  replace ((c =? LINE_SEPARATOR) || (c =? PARAGRAPH_SEPARATOR))%Z with false;
    [reflexivity|].
  symmetry. apply orb_false_iff.
  unfold LINE_SEPARATOR, PARAGRAPH_SEPARATOR, BULLET_CHAR in *.
  split; apply Z.eqb_neq; lia.
Qed.

(** X12. Sanitized text holds only code units 0..255 and the bullet
    U+2022, is never longer than the text, and sanitizing it again changes
    nothing; a text that already holds only such code units is returned as
    it is. *)
Theorem sanitizeForWinAnsi_output (text : JsString) :
  (forall c, In c (sanitizeForWinAnsi text) ->
             (0 <= c <= 255)%Z \/ c = 8226%Z) /\
  (List.length (sanitizeForWinAnsi text) <= List.length text)%nat /\
  sanitizeForWinAnsi (sanitizeForWinAnsi text) = sanitizeForWinAnsi text /\
  ((forall c, In c text -> (0 <= c <= 255)%Z \/ c = 8226%Z) ->
   sanitizeForWinAnsi text = text).
Proof.
  split; [|split; [|split]].
  - intros c Hc. apply winAnsiOrBullet_spec.
    pose proof (sanitize_winAnsi text) as H. rewrite Forall_forall in H.
    now apply H.
  - unfold sanitizeForWinAnsi, replaceAll.
    eapply Nat.le_trans; [apply filter_length_le|].
    now rewrite !length_map.
  - apply sanitize_fixpoint, sanitize_winAnsi.
  - intros Hall. apply sanitize_fixpoint, Forall_forall.
    intros c Hc. apply winAnsiOrBullet_spec. now apply Hall.
Qed.

Lemma sanitizeForWinAnsi_output_witness :
  (forall c, In c [72; 105; 8226]%Z -> (0 <= c <= 255)%Z \/ c = 8226%Z) /\
  sanitizeForWinAnsi [72; 105; 8226]%Z = [72; 105; 8226]%Z /\
  sanitizeForWinAnsi [72; 8232; 55357; 105]%Z = [72; 10; 105]%Z.
Proof.
  assert (Hall : forall c, In c [72; 105; 8226]%Z ->
                           (0 <= c <= 255)%Z \/ c = 8226%Z).
  { intros c [<- | [<- | [<- | []]]]; [left; lia | left; lia | now right]. }
  split; [exact Hall|]. split; [|reflexivity].
  exact (proj2 (proj2 (proj2 (sanitizeForWinAnsi_output [72; 105; 8226]%Z)))
           Hall).
Defined.

(** Sanitizing works code unit by code unit and keeps the order: a
    line separator U+2028 or paragraph separator U+2029 becomes a newline,
    another code unit is kept if it is in 0..255 or the bullet and dropped
    otherwise.  So the sanitized text has as many newlines as the text has
    newlines and separators together. *)
Theorem sanitizeForWinAnsi_per_unit (text : JsString) :
  sanitizeForWinAnsi text
  = flat_map
      (fun c =>
         if ((c =? 8232) || (c =? 8233))%Z then [10%Z]
         else if ((0 <=? c) && (c <=? 255) || (c =? 8226))%Z then [c]
              else [])
      text /\
  count_occ Z.eq_dec (sanitizeForWinAnsi text) 10%Z
  = (count_occ Z.eq_dec text 10%Z + count_occ Z.eq_dec text 8232%Z
     + count_occ Z.eq_dec text 8233%Z)%nat.
Proof.
  split.
  - induction text as [| c text IH]; [reflexivity|].
    rewrite sanitize_cons, IH. reflexivity.
  - induction text as [| c text IH]; [reflexivity|].
    rewrite sanitize_cons, count_occ_app, IH. cbn [count_occ].
    unfold LINE_SEPARATOR, PARAGRAPH_SEPARATOR, LF, winAnsiOrBullet,
      BULLET_CHAR.
    destruct (Z.eq_dec c 10) as [-> | H10].
    + cbn. lia.
    + destruct (Z.eq_dec c 8232) as [-> | H1].
      * cbn. lia.
      * destruct (Z.eq_dec c 8233) as [-> | H2].
        -- cbn. lia.
        -- replace ((c =? 8232) || (c =? 8233))%Z with false
             by (symmetry; apply orb_false_iff; split; apply Z.eqb_neq; lia).
           destruct ((0 <=? c) && (c <=? 255) || (c =? 8226))%Z;
             cbn [count_occ]; [|lia].
           destruct (Z.eq_dec c 10); [congruence | lia].
Qed.

(** ** Text: wrapping *)

Lemma split_pieces (sep : Z) (s : JsString) :
  split sep s <> [] /\ Forall (fun piece => ~ In sep piece) (split sep s).
Proof.
  induction s as [| c s [IHne IHall]]; cbn [split].
  - split; [discriminate | repeat constructor; auto].
  - destruct (c =? sep)%Z eqn:Hc.
    + split; [discriminate | constructor; auto].
    + apply Z.eqb_neq in Hc.
      destruct (split sep s) as [| piece pieces]; [congruence|].
      split; [discriminate|].
      inversion IHall as [| ? ? Hpiece Hrest]; subst.
      constructor; [|exact Hrest].
      intros [Heq | Hin]; [congruence | auto].
Qed.

Lemma trimStart_incl (s : JsString) (c : Z) : In c (trimStart s) -> In c s.
Proof.
  induction s as [| u s IH]; cbn [trimStart]; [auto|].
  destruct (isWhiteSpace u); [intros H; right; auto | auto].
Qed.

Lemma trim_incl (s : JsString) (c : Z) : In c (trim s) -> In c s.
Proof.
  unfold trim, trimEnd. intros H. apply in_rev in H.
  apply trimStart_incl in H. apply in_rev in H.
  now apply trimStart_incl.
Qed.

Section Wrapping.

Variable widthOfTextAtSize : StandardFonts -> JsString -> Q -> Q.
Variable maxWidth : Q.
Variable font : StandardFonts.
Variable size : Q.

Local Abbreviation acceptable :=
  (fitsOrUnbreakable widthOfTextAtSize maxWidth font size).

Local Abbreviation wrapInvariant :=
  (wrapLoopInvariant widthOfTextAtSize maxWidth font size).

Lemma wrapStep_invariant (state : list JsString * JsString) (word : JsString) :
  ~ In SPACE word ->
  wrapInvariant state ->
  wrapInvariant (wrapStep widthOfTextAtSize maxWidth font size state word).
Proof.
  intros Hword [Hlines Hcur]. destruct state as [lines cur].
  unfold wrapLoopInvariant. cbn [fst snd] in *. unfold wrapStep.
  destruct (Qle_bool
              (widthOfTextAtSize font (trim (cur ++ [SPACE] ++ word)) size)
              maxWidth) eqn:Hfit; cbn [orb].
  - split; [exact Hlines|]. left. now apply Qle_bool_iff.
  - destruct cur as [| c cur].
    + split; [exact Hlines|]. right. cbn [app snd].
      change (trim (SPACE :: word)) with (trim word).
      intros Hin. apply trim_incl in Hin. auto.
    + split; [|now right]. cbn [fst].
      apply Forall_app. split; [exact Hlines|].
      constructor; [|constructor]. split; [discriminate | exact Hcur].
Qed.

Lemma wrapLoop_invariant (words : list JsString) :
  forall state,
    Forall (fun word => ~ In SPACE word) words ->
    wrapInvariant state ->
    wrapInvariant
      (fold_left (wrapStep widthOfTextAtSize maxWidth font size) words state).
Proof.
  induction words as [| word words IH]; intros state Hwords Hinv; cbn.
  - exact Hinv.
  - inversion Hwords; subst. apply IH; [assumption|].
    now apply wrapStep_invariant.
Qed.

Lemma wrap_result (final : list JsString) :
  Forall (fun line => line <> [] /\ acceptable line) final ->
  let lines := match final with [] => [[]] | _ :: _ => final end in
  lines <> [] /\
  (lines = [[]] \/ Forall (fun line => line <> []) lines) /\
  Forall
    (fun line =>
       widthOfTextAtSize font line size <= maxWidth \/ ~ In SPACE line)
    lines.
Proof.
  intros Hall. destruct final as [| l0 rest]; cbv zeta.
  - split; [discriminate|]. split; [now left|].
    constructor; [|constructor]. right. auto.
  - split; [discriminate|]. split.
    + right. eapply Forall_impl; [|exact Hall]. intros l Hl. apply Hl.
    + eapply Forall_impl; [|exact Hall]. intros l Hl. apply Hl.
Qed.

Lemma wrapText_not_nil (text : JsString) :
  wrapText widthOfTextAtSize text maxWidth font size <> [].
Proof.
  unfold wrapText.
  destruct (fold_left (wrapStep widthOfTextAtSize maxWidth font size)
              (split SPACE text) ([], [])) as [ls cur].
  destruct (match cur with [] => ls | _ :: _ => ls ++ [cur] end);
    discriminate.
Qed.

(** X13. [wrapText] never returns an empty list; a line is empty only in
    the result that holds the empty line alone; and every line either fits in the wrap width or
    holds no space, so the only lines that overflow are single unbreakable
    words. *)
Theorem wrapText_lines (text : JsString) :
  let lines := wrapText widthOfTextAtSize text maxWidth font size in
  lines <> [] /\
  (lines = [[]] \/ Forall (fun line => line <> []) lines) /\
  Forall
    (fun line =>
       widthOfTextAtSize font line size <= maxWidth \/ ~ In SPACE line)
    lines.
Proof.
  unfold wrapText.
  pose proof (wrapLoop_invariant (split SPACE text) ([], [])
                (proj2 (split_pieces SPACE text))) as Hinv.
  destruct (fold_left (wrapStep widthOfTextAtSize maxWidth font size)
              (split SPACE text) ([], [])) as [ls cur].
  assert (H0 : wrapInvariant ([], [])).
  { split; [constructor | right; auto]. }
  destruct (Hinv H0) as [Hls Hcur]. cbn [fst snd] in Hls, Hcur.
  apply wrap_result.
  destruct cur as [| c cur]; [exact Hls|].
  apply Forall_app. split; [exact Hls|].
  constructor; [|constructor]. split; [discriminate | exact Hcur].
Qed.

Lemma wrapText_leading_space (text : JsString) :
  wrapText widthOfTextAtSize (SPACE :: text) maxWidth font size
  = wrapText widthOfTextAtSize text maxWidth font size.
Proof.
  unfold wrapText. cbn [split]. rewrite Z.eqb_refl. cbn [fold_left].
  unfold wrapStep at 2. cbn [app]. rewrite orb_true_r. reflexivity.
Qed.

(** X14. [wrapText] drops the spaces a text starts with, so the
    indentation of the bullet prefixes never reaches the page: a paragraph
    wraps to the same lines with the first-level prefix as with the
    second-level one, and each starts with the bullet. *)
Theorem bullet_indentation_is_dropped (text para : JsString) :
  wrapText widthOfTextAtSize (32%Z :: text) maxWidth font size
  = wrapText widthOfTextAtSize text maxWidth font size /\
  wrapText widthOfTextAtSize (getStylePrefix STYLE_BULLET ++ para)
    maxWidth font size
  = wrapText widthOfTextAtSize ([8226; 32]%Z ++ para) maxWidth font size /\
  wrapText widthOfTextAtSize (getStylePrefix STYLE_BULLET2 ++ para)
    maxWidth font size
  = wrapText widthOfTextAtSize (getStylePrefix STYLE_BULLET ++ para)
      maxWidth font size.
Proof.
  split; [apply wrapText_leading_space|].
  cbn [getStylePrefix STYLE_BULLET STYLE_BULLET2 app].
  change 32%Z with SPACE.
  split; now rewrite !wrapText_leading_space.
Qed.

End Wrapping.

(** A text wrapped at the width of five code units: the doubled space is
    absorbed, and the long word overflows on a line of its own. *)
Example wrapText_sample :
  wrapText halfEm (latin1 "aa bb  cc dddddddd e") 25 Helvetica 10
  = map latin1 ["aa bb"; "cc"; "dddddddd"; "e"]%string.
Proof. vm_compute. reflexivity. Qed.

(** ** Text: laying out a block *)

Lemma getFontSetting_cases (style : Z) :
  isBoldStyle style = true /\
  (getFontSetting style = mkFontSetting HelveticaBold 18 26
   \/ getFontSetting style = mkFontSetting HelveticaBold 13 23)
  \/ isBoldStyle style = false /\ getFontSetting style = DEFAULT_FONT.
Proof.
  destruct style as [| p | p];
    [ | destruct p as [[p | p |] | [p | p |] |] | ];
    cbn; auto.
Qed.

Lemma getFontSetting_lineHeight (style : Z) :
  23 <= lineHeight (getFontSetting style).
Proof.
  destruct (getFontSetting_cases style) as [[_ [-> | ->]] | [_ ->]];
    cbn; discriminate.
Qed.

Lemma StronglySorted_app {A : Type} (R : A -> A -> Prop) (l1 l2 : list A) :
  StronglySorted R l1 -> StronglySorted R l2 ->
  (forall u v, In u l1 -> In v l2 -> R u v) ->
  StronglySorted R (l1 ++ l2).
Proof.
  induction l1 as [| u l1 IH]; intros H1 H2 H12; cbn; [exact H2|].
  apply StronglySorted_inv in H1. destruct H1 as [H1 Hu].
  constructor.
  - apply IH; [exact H1 | exact H2 |]. intros a v Ha Hv.
    apply H12; [now right | exact Hv].
  - apply Forall_app. split; [exact Hu|].
    apply Forall_forall. intros v Hv. apply H12; [now left | exact Hv].
Qed.

Lemma inject_nat_succ (n : nat) :
  inject_Z (Z.of_nat (S n)) == inject_Z (Z.of_nat n) + 1.
Proof. rewrite Nat2Z.inj_succ. unfold Z.succ. now rewrite inject_Z_plus. Qed.

Lemma inject_nat_nonneg (n : nat) : 0 <= inject_Z (Z.of_nat n).
Proof.
  change 0 with (inject_Z 0). rewrite <- Zle_Qle. apply Nat2Z.is_nonneg.
Qed.

(** What one run of [drawLines] adds: one call per line, each at the block's
    x with the paragraph's size and font, each a line height below the
    one before, the cursor ending on the last baseline. *)
Lemma drawLines_spec (blockX : Q) (setting : FontSetting)
    (activeFont : StandardFonts) (lines : list JsString) :
  23 <= lineHeight setting ->
  forall (drawn : list DrawTextCall) (cursorY : Q),
    let state := drawLines blockX setting activeFont (drawn, cursorY) lines in
    exists new,
      fst state = drawn ++ new /\
      List.length new = List.length lines /\
      snd state
      == cursorY - lineHeight setting * inject_Z (Z.of_nat (List.length lines))
      /\
      Forall
        (fun c =>
           dt_x c = blockX /\ dt_size c = fontSize setting /\
           dt_font c = activeFont /\ dt_color c = mkRGB 0 0 0 /\
           snd state <= dt_y c /\ dt_y c <= cursorY - 23)
        new /\
      StronglySorted baselineGap new.
Proof.
  intros Hlh. unfold drawLines.
  induction lines as [| line lines IH]; intros drawn cursorY; cbn [fold_left].
  - exists []. cbn [fst snd List.length]. rewrite app_nil_r.
    split; [reflexivity|]. split; [reflexivity|].
    split; [change (inject_Z (Z.of_nat 0)) with 0; ring|].
    split; constructor.
  - destruct (IH (drawn
                  ++ [mkDrawTextCall line blockX
                        (cursorY - lineHeight setting) (fontSize setting)
                        activeFont (mkRGB 0 0 0)])
                (cursorY - lineHeight setting))
      as (new & Hfst & Hlen & Hsnd & Hall & Hsorted).
    set (final := fold_left _ lines _) in *.
    pose proof (inject_nat_nonneg (List.length lines)) as Hn.
    assert (Hdown : snd final <= cursorY - lineHeight setting) by nra.
    exists (mkDrawTextCall line blockX (cursorY - lineHeight setting)
              (fontSize setting) activeFont (mkRGB 0 0 0) :: new).
    split; [rewrite Hfst, <- app_assoc; reflexivity|].
    split; [cbn; now rewrite Hlen|].
    split; [cbn [List.length]; rewrite Hsnd, inject_nat_succ; ring|].
    split.
    + constructor.
      * cbn [dt_x dt_size dt_font dt_color dt_y]. repeat split; try lra.
      * eapply Forall_impl; [|exact Hall]. cbn beta.
        intros c (Hx & Hs & Hf & Hc & Hlo & Hhi). repeat split; auto. lra.
    + constructor; [exact Hsorted|].
      eapply Forall_impl; [|exact Hall]. cbn beta.
      intros c (_ & _ & _ & _ & _ & Hhi). unfold baselineGap.
      cbn [dt_y]. exact Hhi.
Qed.

Section TextBlocks.

Variable widthOfTextAtSize : StandardFonts -> JsString -> Q -> Q.
Variable utf16 : string -> JsString.
Variable tb : TextBlock.
Variable font boldFont : StandardFonts.
Variable blockX : Q.

Local Abbreviation renderOne :=
  (renderStep widthOfTextAtSize tb font boldFont blockX).
Local Abbreviation heightOne :=
  (heightStep widthOfTextAtSize tb font boldFont).

(** One paragraph: both loops move by the same height [h] of at least one
    line and to the same character offset. *)
Lemma paragraph_step (drawn : list DrawTextCall) (cursorY : Q)
    (charOffset : Z) (totalHeight : Q) (para : JsString) :
  let rs := renderOne (drawn, cursorY, charOffset) para in
  let hs := heightOne (totalHeight, charOffset) para in
  exists new h,
    23 <= h /\
    fst (fst rs) = drawn ++ new /\
    snd (fst rs) == cursorY - h /\
    snd rs = snd hs /\
    fst hs == totalHeight + h /\
    Forall
      (fun c =>
         styledCall blockX font boldFont c /\
         snd (fst rs) <= dt_y c /\ dt_y c <= cursorY - 23)
      new /\
    StronglySorted baselineGap new.
Proof.
  unfold renderStep, heightStep.
  pose proof (getFontSetting_lineHeight (paragraphStyle tb charOffset)) as Hlh.
  destruct (isBlank para); cbn [negb].
  - exists [], (lineHeight (getFontSetting (paragraphStyle tb charOffset))).
    cbn [fst snd]. rewrite app_nil_r.
    repeat split; try reflexivity; try constructor; exact Hlh.
  - set (style := paragraphStyle tb charOffset) in *.
    set (lines := paragraphLines widthOfTextAtSize tb font boldFont
                    charOffset para).
    destruct (drawLines_spec blockX (getFontSetting style)
                (if isBoldStyle style then boldFont else font) lines Hlh
                drawn cursorY)
      as (new & Hfst & Hlen & Hsnd & Hall & Hsorted).
    destruct (drawLines blockX (getFontSetting style)
                (if isBoldStyle style then boldFont else font)
                (drawn, cursorY) lines) as [drawn' cursorY'].
    cbn [fst snd] in *.
    assert (Hn : 1 <= inject_Z (Z.of_nat (List.length lines))).
    { change 1 with (inject_Z 1). rewrite <- Zle_Qle.
      assert (lines <> []) by apply wrapText_not_nil.
      destruct lines; [congruence | cbn [List.length]; lia]. }
    exists new,
      (lineHeight (getFontSetting style)
       * inject_Z (Z.of_nat (List.length lines))).
    split; [nra|]. split; [exact Hfst|]. split; [exact Hsnd|].
    split; [reflexivity|]. split; [reflexivity|].
    split; [|exact Hsorted].
    eapply Forall_impl; [|exact Hall]. cbn beta.
    intros c (Hx & Hs & Hf & Hc & Hlo & Hhi).
    split; [|split; assumption].
    unfold styledCall. rewrite Hx, Hs, Hf, Hc.
    split; [reflexivity|]. split; [reflexivity|].
    destruct (getFontSetting_cases style) as [[-> [-> | ->]] | [-> ->]];
      cbn [fontSize DEFAULT_FONT]; auto.
Qed.

(** The two loops over the paragraphs, run side by side. *)
Lemma paragraph_loops (paragraphs : list JsString) :
  forall (drawn : list DrawTextCall) (cursorY : Q) (charOffset : Z)
         (totalHeight : Q),
    let rs := fold_left renderOne paragraphs (drawn, cursorY, charOffset) in
    let hs := fold_left heightOne paragraphs (totalHeight, charOffset) in
    exists new,
      fst (fst rs) = drawn ++ new /\
      snd (fst rs) == cursorY - (fst hs - totalHeight) /\
      totalHeight + 23 * inject_Z (Z.of_nat (List.length paragraphs))
      <= fst hs /\
      snd (fst rs) <= cursorY /\
      Forall
        (fun c =>
           styledCall blockX font boldFont c /\
           snd (fst rs) <= dt_y c /\ dt_y c <= cursorY - 23)
        new /\
      StronglySorted baselineGap new.
Proof.
  induction paragraphs as [| para paragraphs IH];
    intros drawn cursorY charOffset totalHeight; cbn [fold_left].
  - exists []. cbn [fst snd List.length]. rewrite app_nil_r.
    split; [reflexivity|]. split; [ring|].
    split; [change (inject_Z (Z.of_nat 0)) with 0; lra|].
    split; [apply Qle_refl|]. split; constructor.
  - destruct (paragraph_step drawn cursorY charOffset totalHeight para)
      as (new1 & h & Hh & Hfst1 & Hcur1 & Hoff & Htot1 & Hall1 & Hsorted1).
    destruct (renderOne (drawn, cursorY, charOffset) para)
      as [[drawn1 cursorY1] off1].
    destruct (heightOne (totalHeight, charOffset) para) as [total1 off1'].
    cbn [fst snd] in *. subst off1'.
    destruct (IH drawn1 cursorY1 off1 total1)
      as (new2 & Hfst2 & Hcur2 & Htot2 & Hdown2 & Hall2 & Hsorted2).
    set (rs := fold_left renderOne paragraphs (drawn1, cursorY1, off1)) in *.
    set (hs := fold_left heightOne paragraphs (total1, off1)) in *.
    pose proof (inject_nat_succ (List.length paragraphs)) as Hsucc.
    exists (new1 ++ new2).
    split; [rewrite Hfst2, Hfst1, app_assoc; reflexivity|].
    split; [rewrite Hcur2, Hcur1, Htot1; ring|].
    split; [cbn [List.length]; rewrite Hsucc; lra|].
    split; [lra|]. split.
    + apply Forall_app. split.
      * eapply Forall_impl; [|exact Hall1]. cbn beta.
        intros c (Hs & Hlo & Hhi). split; [exact Hs|]. split; lra.
      * eapply Forall_impl; [|exact Hall2]. cbn beta.
        intros c (Hs & Hlo & Hhi). split; [exact Hs|]. split; lra.
    + apply StronglySorted_app; [exact Hsorted1 | exact Hsorted2 |].
      intros u v Hu Hv. rewrite Forall_forall in Hall1, Hall2.
      destruct (Hall1 u Hu) as (_ & Hlo & _).
      destruct (Hall2 v Hv) as (_ & _ & Hhi).
      unfold baselineGap. lra.
Qed.

End TextBlocks.

Section TextBlockTheorems.

Variable widthOfTextAtSize : StandardFonts -> JsString -> Q -> Q.
Variable utf16 : string -> JsString.

Local Abbreviation render := (renderTextBlock widthOfTextAtSize utf16).
Local Abbreviation renderState :=
  (renderTextBlockState widthOfTextAtSize utf16).
Local Abbreviation blockHeight :=
  (computeTextBlockHeightPt widthOfTextAtSize utf16).

Lemma renderTextBlockState_spec (tb : TextBlock) (geo : PageGeometry)
    (font boldFont : StandardFonts) :
  let origin := py (toPdf 0 (posY tb) geo) in
  let state := renderState tb geo font boldFont in
  let paragraphs := split LF (sanitizeForWinAnsi (utf16 (text tb))) in
  snd state == origin - blockHeight tb font boldFont /\
  23 * inject_Z (Z.of_nat (List.length paragraphs))
  <= blockHeight tb font boldFont /\
  Forall
    (fun c =>
       styledCall (px (toPdf (posX tb) (posY tb) geo)) font boldFont c /\
       origin - blockHeight tb font boldFont <= dt_y c /\
       dt_y c <= origin - 23)
    (fst state) /\
  StronglySorted baselineGap (fst state).
Proof.
  intros origin state paragraphs.
  destruct (paragraph_loops widthOfTextAtSize tb font boldFont
              (px (toPdf (posX tb) (posY tb) geo)) paragraphs [] origin 0%Z 0)
    as (new & Hfst & Hcur & Htot & _ & Hall & Hsorted).
  unfold state, renderTextBlockState, computeTextBlockHeightPt.
  fold paragraphs. fold origin.
  destruct (fold_left _ paragraphs ([], origin, 0%Z)) as [[drawn cursorY] off].
  cbn [fst snd app] in *. subst drawn.
  set (H := fst (fold_left _ paragraphs (0, 0%Z))) in *.
  assert (Hc : cursorY == origin - H) by (rewrite Hcur; ring).
  split; [exact Hc|]. split; [lra|]. split; [|exact Hsorted].
  eapply Forall_impl; [|exact Hall]. cbn beta.
  intros c (Hs & Hlo & Hhi). split; [exact Hs|]. split; lra.
Qed.

(** X15. A text block whose text is blank draws nothing.  Every [drawText]
    call of a block is at the block's calibrated x, (posX + xOffset) *
    COORD_SCALE, in black, and in size 18 or 13 with the bold font or in
    size 10 with the regular font. *)
Theorem renderTextBlock_calls (tb : TextBlock) (geo : PageGeometry)
    (font boldFont : StandardFonts) :
  (isBlank (utf16 (text tb)) = true -> render tb geo font boldFont = []) /\
  forall c,
    In c (render tb geo font boldFont) ->
    dt_x c = (posX tb + xOffset geo) * COORD_SCALE /\
    dt_color c = mkRGB 0 0 0 /\
    ((dt_size c = 18 \/ dt_size c = 13) /\ dt_font c = boldFont
     \/ dt_size c = 10 /\ dt_font c = font).
Proof.
  unfold renderTextBlock. split.
  - intros Hblank. now rewrite Hblank.
  - intros c Hc. destruct (isBlank (utf16 (text tb))); [contradiction|].
    destruct (renderTextBlockState_spec tb geo font boldFont)
      as (_ & _ & Hall & _).
    rewrite Forall_forall in Hall. destruct (Hall c Hc) as (Hs & _).
    exact Hs.
Qed.

(** X16. The baselines of a text block go strictly down: each [drawText]
    call is at least 23pt below the one before, the first is at least 23pt
    below the block's origin, and none is below the origin minus
    [computeTextBlockHeightPt]. *)
Theorem renderTextBlock_baselines (tb : TextBlock) (geo : PageGeometry)
    (font boldFont : StandardFonts) :
  let origin := pageHeightPt geo - (posY tb - yOffset geo) * COORD_SCALE in
  let calls := render tb geo font boldFont in
  StronglySorted (fun c1 c2 => dt_y c2 <= dt_y c1 - 23) calls /\
  Forall
    (fun c =>
       origin - blockHeight tb font boldFont <= dt_y c /\
       dt_y c <= origin - 23)
    calls.
Proof.
  intros origin calls. unfold calls, renderTextBlock.
  destruct (isBlank (utf16 (text tb))); [split; constructor|].
  destruct (renderTextBlockState_spec tb geo font boldFont)
    as (_ & _ & Hall & Hsorted).
  split; [exact Hsorted|].
  eapply Forall_impl; [|exact Hall]. cbn beta. intros c (_ & H). exact H.
Qed.

(** X17. [computeTextBlockHeightPt] is the distance the cursor of
    [renderTextBlock] travels: the loop ends with the cursor at the origin
    minus that height.  The height is at least 23pt per paragraph, empty
    paragraphs included, so at least 23pt. *)
Theorem textBlock_height_is_cursor_travel (tb : TextBlock)
    (geo : PageGeometry) (font boldFont : StandardFonts) :
  let origin := pageHeightPt geo - (posY tb - yOffset geo) * COORD_SCALE in
  let paragraphs := split 10%Z (sanitizeForWinAnsi (utf16 (text tb))) in
  snd (renderState tb geo font boldFont)
  == origin - blockHeight tb font boldFont /\
  23 * inject_Z (Z.of_nat (List.length paragraphs))
  <= blockHeight tb font boldFont /\
  23 <= blockHeight tb font boldFont.
Proof.
  intros origin paragraphs.
  destruct (renderTextBlockState_spec tb geo font boldFont)
    as (Hc & Hn & _ & _).
  split; [exact Hc|]. split; [exact Hn|].
  assert (H1 : 1 <= inject_Z (Z.of_nat (List.length paragraphs))).
  { change 1 with (inject_Z 1). rewrite <- Zle_Qle.
    destruct (split_pieces 10 (sanitizeForWinAnsi (utf16 (text tb))))
      as [Hne _].
    fold paragraphs in Hne.
    destruct paragraphs; [congruence | cbn [List.length]; lia]. }
  unfold LF in Hn. fold paragraphs in Hn. lra.
Qed.

End TextBlockTheorems.

(** The sample block: a heading line 26pt below the origin, an empty
    paragraph of 23pt, and a bulleted line 23pt further down, whose
    indentation the wrapping has dropped. *)
Example renderTextBlock_sample :
  let geo := computePageGeometry (emptyPage "p") in
  map (fun c => (dt_line c, dt_size c, dt_font c))
    (renderTextBlock halfEm latin1 sampleTextBlock geo Helvetica HelveticaBold)
  = [(latin1 "Ti", 18, HelveticaBold);
     ([8226; 32; 97; 32; 98]%Z, 10, Helvetica)] /\
  computeTextBlockHeightPt halfEm latin1 sampleTextBlock Helvetica HelveticaBold
  == 72.
Proof. split; vm_compute; reflexivity. Qed.

(** ** Sync manager: the hash *)

Import SyncManager.

Example simpleHash_samples :
  simpleHash [] = "811c9dc5"%string /\
  simpleHash [x61] = "e40c292c"%string /\
  simpleHash [x66; x6f; x6f; x62; x61; x72] = "bf9cf968"%string.
Proof. vm_compute. repeat split. Qed.

Lemma ToInt32_mod (n : Z) : (ToInt32 n mod 2 ^ 32 = n mod 2 ^ 32)%Z.
Proof.
  unfold ToInt32. change (2 ^ 32)%Z with 4294967296%Z.
  change (2 ^ 31)%Z with 2147483648%Z.
  Z.to_euclidean_division_equations. lia.
Qed.

Lemma lxor_mod_pow2 (u v k : Z) :
  (0 <= k)%Z ->
  (Z.lxor u v mod 2 ^ k = Z.lxor (u mod 2 ^ k) (v mod 2 ^ k))%Z.
Proof.
  intros Hk. apply Z.bits_inj'. intros m Hm.
  rewrite Z.lxor_spec.
  destruct (Z_lt_dec m k) as [Hlt | Hge].
  - rewrite !Z.mod_pow2_bits_low by lia. now rewrite Z.lxor_spec.
  - rewrite !Z.mod_pow2_bits_high by lia. reflexivity.
Qed.

Lemma byte_small (byte : Byte.byte) :
  (0 <= Z.of_N (Byte.to_N byte) < 256)%Z.
Proof.
  pose proof (Byte.to_N_bounded byte) as H. lia.
Qed.

Lemma hash_step_agrees (hash : Z) (byte : Byte.byte) :
  (Math_imul (xor32 hash (Z.of_N (Byte.to_N byte))) 16777619 mod 2 ^ 32
   = (Z.lxor (hash mod 2 ^ 32) (Z.of_N (Byte.to_N byte)) * 16777619)
     mod 2 ^ 32)%Z.
Proof.
  pose proof (byte_small byte) as Hb.
  unfold Math_imul, xor32.
  rewrite ToInt32_mod, Z.mul_mod by discriminate.
  rewrite !ToInt32_mod, (lxor_mod_pow2 _ _ 32) by lia.
  rewrite !ToInt32_mod.
  rewrite (Z.mod_small (Z.of_N (Byte.to_N byte)))
    by (change (2 ^ 32)%Z with 4294967296%Z; lia).
  reflexivity.
Qed.

Lemma fold_left_cons {A B : Type} (f : A -> B -> A) (x : B) (l : list B)
    (a : A) :
  fold_left f (x :: l) a = fold_left f l (f a x).
Proof. reflexivity. Qed.

Lemma fnv_fold_range (data : list byte) :
  forall h, (0 <= h < 2 ^ 32)%Z ->
    (0 <= fold_left
            (fun h byte =>
               (Z.lxor h (Z.of_N (Byte.to_N byte)) * 16777619) mod 2 ^ 32)%Z
            data h < 2 ^ 32)%Z.
Proof.
  induction data as [| byte data IH]; intros h Hh; cbn [fold_left].
  - exact Hh.
  - apply IH. apply Z.mod_pos_bound. reflexivity.
Qed.

Lemma hash_fold_agrees (data : list byte) :
  forall hash h,
    (hash mod 2 ^ 32 = h)%Z ->
    (fold_left
       (fun hash byte =>
          let hash := xor32 hash (Z.of_N (Byte.to_N byte)) in
          Math_imul hash 16777619)
       data hash mod 2 ^ 32
     = fold_left
         (fun h byte =>
            (Z.lxor h (Z.of_N (Byte.to_N byte)) * 16777619) mod 2 ^ 32)
         data h)%Z.
Proof.
  induction data as [| byte data IH]; intros hash h Hh.
  - exact Hh.
  - rewrite !fold_left_cons. apply IH. subst h. apply hash_step_agrees.
Qed.

(** X18. The loop of [simpleHash], which works on signed 32-bit integers
    ([^] and [Math.imul]), computes the FNV-1a hash: read as an unsigned
    32-bit word, its result is the textbook hash of the bytes. *)
Theorem simpleHash_is_fnv1a (data : list byte) :
  ToUint32 (hashLoop data) = fnv1a32 data /\
  (0 <= fnv1a32 data < 2 ^ 32)%Z /\
  forall byte,
    fnv1a32 (data ++ [byte])
    = ((Z.lxor (fnv1a32 data) (Z.of_N (Byte.to_N byte)) * 16777619)
       mod 2 ^ 32)%Z.
Proof.
  split; [|split].
  - unfold ToUint32, hashLoop, fnv1a32.
    apply hash_fold_agrees. reflexivity.
  - apply fnv_fold_range. split; [lia | reflexivity].
  - intros byte. unfold fnv1a32. now rewrite fold_left_app.
Qed.

(** ** Sync manager: the hexadecimal form of the hash *)

Lemma hexDigit_value (d : Z) :
  (0 <= d < 16)%Z -> hexDigitValue (hexDigit d) = Some d.
Proof.
  intros Hd.
  assert (H : (d = 0 \/ d = 1 \/ d = 2 \/ d = 3 \/ d = 4 \/ d = 5 \/ d = 6
               \/ d = 7 \/ d = 8 \/ d = 9 \/ d = 10 \/ d = 11 \/ d = 12
               \/ d = 13 \/ d = 14 \/ d = 15)%Z) by lia.
  repeat (destruct H as [-> | H]; [reflexivity|]). subst d. reflexivity.
Qed.

Lemma hexDigits_S (fuel : nat) (n : Z) (acc : string) :
  hexDigits (S fuel) n acc
  = if (n / 16 =? 0)%Z then String (hexDigit (n mod 16)) acc
    else hexDigits fuel (n / 16) (String (hexDigit (n mod 16)) acc).
Proof. reflexivity. Qed.

(** The digits [hexDigits] puts before [acc]: [k] of them, no leading zero,
    worth [n]. *)
Lemma hexDigits_spec (fuel : nat) :
  forall (n : Z) (acc : string),
    (0 <= n < 2 ^ Z.of_nat (S fuel))%Z ->
    exists k : nat,
      (1 <= k)%nat /\
      String.length (hexDigits (S fuel) n acc) = (k + String.length acc)%nat /\
      (k = 1%nat \/ 16 ^ (Z.of_nat k - 1) <= n)%Z /\
      forall a,
        hexValueFrom a (hexDigits (S fuel) n acc)
        = hexValueFrom (a * 16 ^ Z.of_nat k + n)%Z acc.
Proof.
  induction fuel as [| fuel IH]; intros n acc Hn;
    rewrite hexDigits_S; destruct (n / 16 =? 0)%Z eqn:Hq.
  - apply Z.eqb_eq in Hq. exists 1%nat.
    split; [lia|]. split; [reflexivity|]. split; [now left|].
    intros a. cbn [hexValueFrom].
    rewrite hexDigit_value by (apply Z.mod_pos_bound; lia).
    f_equal. change (16 ^ Z.of_nat 1)%Z with 16%Z.
    Z.to_euclidean_division_equations. lia.
  - apply Z.eqb_neq in Hq. exfalso. apply Hq.
    change (2 ^ Z.of_nat 1)%Z with 2%Z in Hn.
    Z.to_euclidean_division_equations. lia.
  - apply Z.eqb_eq in Hq. exists 1%nat.
    split; [lia|]. split; [reflexivity|]. split; [now left|].
    intros a. cbn [hexValueFrom].
    rewrite hexDigit_value by (apply Z.mod_pos_bound; lia).
    f_equal. change (16 ^ Z.of_nat 1)%Z with 16%Z.
    Z.to_euclidean_division_equations. lia.
  - apply Z.eqb_neq in Hq.
    assert (Hpow : (2 ^ Z.of_nat (S (S fuel)) = 2 * 2 ^ Z.of_nat (S fuel))%Z).
    { rewrite (Nat2Z.inj_succ (S fuel)). apply Z.pow_succ_r. lia. }
    assert (Hn' : (0 <= n / 16 < 2 ^ Z.of_nat (S fuel))%Z).
    { rewrite Hpow in Hn. Z.to_euclidean_division_equations. lia. }
    destruct (IH (n / 16)%Z (String (hexDigit (n mod 16)) acc) Hn')
      as (k & Hk & Hlen & Hlead & Hval).
    exists (S k). split; [lia|].
    split; [rewrite Hlen; cbn [String.length]; lia|].
    assert (Hk16 : (16 ^ Z.of_nat (S k) = 16 * 16 ^ Z.of_nat k)%Z).
    { rewrite Nat2Z.inj_succ. apply Z.pow_succ_r. lia. }
    split.
    + right. replace (Z.of_nat (S k) - 1)%Z with (Z.of_nat k) by lia.
      destruct Hlead as [-> | Hlead].
      * change (16 ^ Z.of_nat 1)%Z with 16%Z.
        Z.to_euclidean_division_equations. lia.
      * replace (Z.of_nat k) with (Z.succ (Z.of_nat k - 1)) by lia.
        rewrite Z.pow_succ_r by lia.
        Z.to_euclidean_division_equations. lia.
    + intros a. rewrite Hval. cbn [hexValueFrom].
      rewrite hexDigit_value by (apply Z.mod_pos_bound; lia).
      f_equal. rewrite Hk16.
      set (p := (16 ^ Z.of_nat k)%Z).
      Z.to_euclidean_division_equations. lia.
Qed.

Lemma hexValueFrom_zeros (n : nat) (s : string) (a : Z) :
  hexValueFrom a (string_of_list_ascii (repeat "0"%char n) ++ s)
  = hexValueFrom (a * 16 ^ Z.of_nat n)%Z s.
Proof.
  revert a. induction n as [| n IH]; intros a.
  - cbn [repeat string_of_list_ascii String.append].
    f_equal. change (16 ^ Z.of_nat 0)%Z with 1%Z. lia.
  - cbn [repeat string_of_list_ascii String.append hexValueFrom].
    change (hexDigitValue "0") with (Some 0%Z). cbv iota.
    rewrite IH. f_equal. rewrite Nat2Z.inj_succ, Z.pow_succ_r by lia. lia.
Qed.

Lemma length_zeros (n : nat) (s : string) :
  String.length (string_of_list_ascii (repeat "0"%char n) ++ s)
  = (n + String.length s)%nat.
Proof.
  induction n as [| n IH]; cbn [repeat string_of_list_ascii String.append
                                  String.length]; [reflexivity|].
  now rewrite IH.
Qed.

(** The hexadecimal form of an unsigned 32-bit word: 8 digits worth the
    word. *)
Lemma hex8 (u : Z) :
  (0 <= u < 2 ^ 32)%Z ->
  String.length (padStart0 (toString16 u) 8) = 8%nat /\
  hexValue (padStart0 (toString16 u) 8) = Some u.
Proof.
  intros Hu. unfold toString16.
  assert (Hfuel : (0 <= u < 2 ^ Z.of_nat (S (Z.to_nat (Z.log2 u))))%Z).
  { split; [lia|]. rewrite Nat2Z.inj_succ, Z2Nat.id by apply Z.log2_nonneg.
    destruct (Z.eq_dec u 0) as [-> | Hnz]; [reflexivity|].
    apply Z.log2_spec. lia. }
  destruct (hexDigits_spec (Z.to_nat (Z.log2 u)) u EmptyString Hfuel)
    as (k & Hk & Hlen & Hlead & Hval).
  set (s := hexDigits (S (Z.to_nat (Z.log2 u))) u EmptyString) in *.
  cbn [String.length] in Hlen. rewrite Nat.add_0_r in Hlen.
  assert (Hk8 : (k <= 8)%nat).
  { destruct Hlead as [-> | Hlead]; [lia|].
    destruct (le_dec k 8) as [Hle | Hgt]; [exact Hle|]. exfalso.
    assert (H8 : (16 ^ 8 <= 16 ^ (Z.of_nat k - 1))%Z)
      by (apply Z.pow_le_mono_r; lia).
    change (16 ^ 8)%Z with (2 ^ 32)%Z in H8. lia. }
  unfold padStart0, hexValue. rewrite length_zeros, hexValueFrom_zeros, Hlen.
  split; [lia|]. rewrite Hval. cbn [hexValueFrom]. f_equal; lia.
Qed.

(** X19. [simpleHash] always returns exactly 8 characters, all of them
    digits of [0-9a-f], and read as a hexadecimal number they give the
    FNV-1a hash of the bytes; so two byte strings get the same hash string
    exactly when their 32-bit FNV-1a hashes are equal. *)
Theorem simpleHash_is_8_hex_digits (data : list byte) :
  String.length (simpleHash data) = 8%nat /\
  hexValue (simpleHash data) = Some (fnv1a32 data) /\
  forall data',
    simpleHash data = simpleHash data' <-> fnv1a32 data = fnv1a32 data'.
Proof.
  assert (Hu : forall d, ToUint32 (hashLoop d) = fnv1a32 d).
  { intros d. unfold ToUint32, hashLoop, fnv1a32.
    apply hash_fold_agrees. reflexivity. }
  assert (Hr : forall d, (0 <= fnv1a32 d < 2 ^ 32)%Z).
  { intros d. apply fnv_fold_range. split; [lia | reflexivity]. }
  assert (Hv : forall d, hexValue (simpleHash d) = Some (fnv1a32 d)).
  { intros d. unfold simpleHash. rewrite Hu. apply hex8, Hr. }
  split; [unfold simpleHash; rewrite Hu; apply hex8, Hr|].
  split; [apply Hv|].
  intros data'. split.
  - intros Heq. pose proof (Hv data) as H1. rewrite Heq, Hv in H1.
    congruence.
  - intros Heq. unfold simpleHash. now rewrite !Hu, Heq.
Qed.

(** ** Sync manager: state and paths *)

Lemma lookup_recorded (st : SyncState) (id : string) (info : SyncedDocInfo) :
  lookup (setSyncedDoc st id info) id = FoundEntry info.
Proof.
  unfold setSyncedDoc, lookup.
  destruct (String.eqb id "__proto__") eqn:Hproto;
    destruct (syncedDocs st id) as [own |] eqn:Hown; cbn [andb];
    cbn [syncedDocs inherited];
    rewrite ?Hown, ?String.eqb_refl; reflexivity.
Qed.

Lemma setSyncedDoc_other_entries (st : SyncState) (id key : string)
    (info : SyncedDocInfo) :
  key <> id ->
  syncedDocs (setSyncedDoc st id info) key = syncedDocs st key.
Proof.
  intros Hkey. apply String.eqb_neq in Hkey. unfold setSyncedDoc.
  destruct (String.eqb id "__proto__" && _); cbn [syncedDocs];
    [reflexivity | now rewrite Hkey].
Qed.

Lemma lookup_other (st : SyncState) (id key : string) (info : SyncedDocInfo) :
  key <> id -> id <> "__proto__"%string ->
  lookup (setSyncedDoc st id info) key = lookup st key.
Proof.
  intros Hkey Hid. apply String.eqb_neq in Hkey, Hid.
  unfold setSyncedDoc, lookup. rewrite Hid. cbn [andb syncedDocs inherited].
  now rewrite Hkey.
Qed.

(** X20. Once [syncDocument] has recorded a document, that document no
    longer needs a sync, and a document with the same id needs one exactly
    when its version is higher than the recorded one.  Documents with
    other ids are judged as before, unless the recorded id is [__proto__],
    which replaces the prototype of the map.  A document whose id the
    map neither holds nor inherits needs a sync; in a state whose map has
    the prototype of every plain object, a document without an entry
    needs a sync unless its id is the name of a member of
    [Object.prototype] ([constructor], [toString], ...), and then it needs
    one exactly when its version is positive. *)
Theorem recorded_document_is_up_to_date (st : SyncState)
    (doc : DocumentMetadata) (relPath hashText time : string) :
  let st' := recordSync st doc relPath hashText time in
  needsSync st' doc = false /\
  (forall doc',
      doc_id doc' = doc_id doc ->
      needsSync st' doc' = (doc_version doc <? doc_version doc')%Z) /\
  (forall doc',
      doc_id doc' <> doc_id doc -> doc_id doc <> "__proto__"%string ->
      needsSync st' doc' = needsSync st doc') /\
  (forall doc', hasKey st (doc_id doc') = false -> needsSync st doc' = true)
  /\
  (forall doc',
      syncedDocs st (doc_id doc') = None -> inherited st = None ->
      needsSync st doc'
      = if existsb (String.eqb (doc_id doc')) objectPrototypeNames
        then (0 <? doc_version doc')%Z else true).
Proof.
  intros st'. unfold st', recordSync.
  split; [|split; [|split; [|split]]].
  - unfold needsSync. rewrite lookup_recorded. cbn [version].
    apply Z.ltb_irrefl.
  - intros doc' Hid. unfold needsSync. rewrite Hid, lookup_recorded.
    reflexivity.
  - intros doc' Hid Hproto. unfold needsSync.
    now rewrite lookup_other.
  - intros doc' Hkey. unfold hasKey in Hkey. unfold needsSync.
    destruct (lookup st (doc_id doc')); try discriminate Hkey. reflexivity.
  - intros doc' Hown Hproto. unfold needsSync, lookup.
    rewrite Hown, Hproto. unfold objectPrototypeMember.
    now destruct (existsb _ _).
Qed.

Lemma recorded_document_is_up_to_date_witness :
  let st := {| lastSync := None; syncedDocs := fun _ => None;
               inherited := None |} in
  let doc := mkDocumentMetadata "id-1" "Notes" 3 false "2024-01-01" in
  let newer := mkDocumentMetadata "id-1" "Notes" 4 false "2024-01-02" in
  let other := mkDocumentMetadata "id-2" "Plan" 0 false "2024-01-02" in
  let odd := mkDocumentMetadata "constructor" "Odd" 0 false "2024-01-02" in
  let st' := recordSync st doc "reMarkable/Notes.pdf" "811c9dc5"
               "2024-01-03" in
  needsSync st doc = true /\ needsSync st' doc = false /\
  needsSync st' newer = true /\ needsSync st' other = true /\
  needsSync st odd = false.
Proof.
  intros st doc newer other odd st'.
  pose proof (recorded_document_is_up_to_date st doc "reMarkable/Notes.pdf"
                "811c9dc5" "2024-01-03") as (H1 & H2 & H3 & H4 & H5).
  split; [exact (H4 doc eq_refl)|]. split; [exact H1|].
  split; [exact (H2 newer eq_refl)|].
  split.
  - refine (eq_trans (H3 other _ _) (H4 other eq_refl)); discriminate.
  - exact (H5 odd eq_refl eq_refl).
Defined.

Lemma mapString_length (f : ascii -> ascii) (s : string) :
  String.length (mapString f s) = String.length s.
Proof. induction s as [| c s IH]; cbn; [reflexivity | now rewrite IH]. Qed.

Lemma isReserved_underscore : isReserved "_" = false.
Proof. reflexivity. Qed.

Lemma isReserved_slash : isReserved "/" = false.
Proof. reflexivity. Qed.

Lemma safePath_chars (docPath : string) :
  Forall (fun c => isReserved c = false) (chars (safePath docPath)).
Proof.
  unfold chars, safePath.
  induction docPath as [| c s IH]; cbn [mapString list_ascii_of_string].
  - constructor.
  - constructor; [|exact IH].
    destruct (isReserved c) eqn:Hc; [apply isReserved_underscore | exact Hc].
Qed.

Lemma safePath_fixpoint (docPath : string) :
  Forall (fun c => isReserved c = false) (chars docPath) ->
  safePath docPath = docPath.
Proof.
  unfold chars, safePath.
  induction docPath as [| c s IH]; cbn [mapString list_ascii_of_string];
    intros H; [reflexivity|].
  inversion H as [| ? ? Hc Hs]; subst. now rewrite Hc, IH.
Qed.

Lemma safePath_slashes (docPath : string) :
  lastIndexOfSlash (safePath docPath) = lastIndexOfSlash docPath.
Proof.
  unfold safePath.
  induction docPath as [| c s IH]; cbn [mapString lastIndexOfSlash];
    [reflexivity|].
  rewrite IH. destruct (0 <=? lastIndexOfSlash s)%Z; [reflexivity|].
  destruct (isReserved c) eqn:Hc; [|reflexivity].
  destruct (Ascii.eqb c "/") eqn:Hs; [|reflexivity].
  apply Ascii.eqb_eq in Hs. subst c. discriminate Hc.
Qed.

Lemma safePath_get (docPath : string) :
  forall i,
    String.get i (safePath docPath)
    = option_map (fun c => if isReserved c then "_"%char else c)
        (String.get i docPath).
Proof.
  unfold safePath.
  induction docPath as [| c s IH]; intros i; cbn [mapString String.get];
    [reflexivity|].
  destruct i as [| i]; [reflexivity | apply IH].
Qed.

Lemma safePath_slash_positions (docPath : string) (i : nat) :
  String.get i (safePath docPath) = Some "/"%char
  <-> String.get i docPath = Some "/"%char.
Proof.
  rewrite safePath_get.
  destruct (String.get i docPath) as [c |]; cbn [option_map];
    [|split; discriminate].
  destruct (isReserved c) eqn:Hc; split; intros H.
  - discriminate H.
  - injection H as ->. discriminate Hc.
  - exact H.
  - exact H.
Qed.

(** X21. The path [syncDocument] makes safe has the length of the document
    path and none of the characters the expression replaces; making it
    safe again changes nothing, and a path without those characters is
    kept as it is.  Character by character, a replaced character becomes
    an underscore and any other is kept, so the slashes stay where they
    were: a position holds a slash after if and only if it did before, and
    the last slash is at the same index. *)
Theorem safePath_has_no_reserved_character (docPath : string) :
  String.length (safePath docPath) = String.length docPath /\
  (forall c, In c (chars (safePath docPath)) -> isReserved c = false) /\
  safePath (safePath docPath) = safePath docPath /\
  ((forall c, In c (chars docPath) -> isReserved c = false) ->
   safePath docPath = docPath) /\
  lastIndexOfSlash (safePath docPath) = lastIndexOfSlash docPath /\
  (forall i,
      String.get i (safePath docPath)
      = option_map (fun c => if isReserved c then "_"%char else c)
          (String.get i docPath)) /\
  (forall i,
      String.get i (safePath docPath) = Some "/"%char
      <-> String.get i docPath = Some "/"%char).
Proof.
  split; [apply mapString_length|].
  split; [apply Forall_forall, safePath_chars|].
  split; [apply safePath_fixpoint, safePath_chars|].
  split; [|split; [apply safePath_slashes|split]].
  - intros H. apply safePath_fixpoint, Forall_forall, H.
  - apply safePath_get.
  - apply safePath_slash_positions.
Qed.

Lemma safePath_has_no_reserved_character_witness :
  (forall c, In c (chars "Work/Plan") -> isReserved c = false) /\
  safePath "Work/Plan" = "Work/Plan"%string /\
  safePath "Q: what?" = "Q_ what_"%string.
Proof.
  assert (H : forall c, In c (chars "Work/Plan") -> isReserved c = false).
  { intros c Hc. cbn in Hc.
    repeat (destruct Hc as [<- | Hc]; [reflexivity|]). contradiction. }
  split; [exact H|]. split; [|reflexivity].
  exact (proj1 (proj2 (proj2 (proj2
           (safePath_has_no_reserved_character "Work/Plan")))) H).
Defined.

Lemma string_app_assoc (s1 s2 s3 : string) :
  ((s1 ++ s2) ++ s3 = s1 ++ (s2 ++ s3))%string.
Proof. induction s1 as [| c s1 IH]; cbn; [reflexivity | now rewrite IH]. Qed.

Lemma string_length_app (s1 s2 : string) :
  String.length (s1 ++ s2) = (String.length s1 + String.length s2)%nat.
Proof. induction s1 as [| c s1 IH]; cbn; [reflexivity | now rewrite IH]. Qed.

Lemma prefix_app (s1 s2 : string) : String.prefix s1 (s1 ++ s2) = true.
Proof.
  induction s1 as [| c s1 IH]; cbn; [now destruct s2|].
  destruct (ascii_dec c c) as [_ | Hne]; [exact IH | congruence].
Qed.

Lemma substring_all (s : string) :
  String.substring 0 (String.length s) s = s.
Proof. induction s as [| c s IH]; cbn; [reflexivity | now rewrite IH]. Qed.

Lemma substring_skip_app (s1 s2 : string) :
  String.substring (String.length s1) (String.length s2) (s1 ++ s2) = s2.
Proof.
  induction s1 as [| c s1 IH]; cbn [String.length String.append];
    [apply substring_all | exact IH].
Qed.

Lemma substring_take_app (s1 s2 : string) :
  String.substring 0 (String.length s1) (s1 ++ s2) = s1.
Proof.
  induction s1 as [| c s1 IH]; cbn; [now destruct s2 | now rewrite IH].
Qed.

Lemma lastIndexOfSlash_spec (s : string) :
  (lastIndexOfSlash s = (-1)%Z /\ ~ In "/"%char (chars s)) \/
  exists dir file,
    s = (dir ++ String "/" file)%string /\
    lastIndexOfSlash s = Z.of_nat (String.length dir) /\
    ~ In "/"%char (chars file).
Proof.
  unfold chars. induction s as [| c s IH]; cbn [lastIndexOfSlash].
  - left. split; [reflexivity | auto].
  - destruct IH as [[Hi Hno] | (dir & file & Hs & Hi & Hno)].
    + rewrite Hi. cbn [Z.leb Z.compare].
      destruct (Ascii.eqb c "/") eqn:Hc.
      * apply Ascii.eqb_eq in Hc. subst c. right.
        exists EmptyString, s. cbn. auto.
      * apply Ascii.eqb_neq in Hc. left. split; [reflexivity|].
        cbn [list_ascii_of_string]. intros [Heq | Hin]; auto.
    + right. exists (String c dir), file. rewrite Hi.
      replace (0 <=? Z.of_nat (String.length dir))%Z with true
        by (symmetry; apply Z.leb_le; lia).
      split; [cbn; now rewrite Hs|]. split; [|exact Hno].
      cbn [String.length]. lia.
Qed.

Lemma chars_app (s1 s2 : string) : chars (s1 ++ s2) = chars s1 ++ chars s2.
Proof.
  unfold chars. induction s1 as [| c s1 IH]; cbn; [reflexivity|].
  now rewrite IH.
Qed.

Lemma substringFrom_app (s1 s2 : string) :
  substringFrom (s1 ++ s2) (Z.of_nat (String.length s1)) = s2.
Proof.
  unfold substringFrom, substring. rewrite string_length_app.
  set (l1 := String.length s1). set (l2 := String.length s2).
  assert (Ha : Z.max 0 (Z.min (Z.of_nat l1) (Z.of_nat (l1 + l2)))
               = Z.of_nat l1) by lia.
  assert (Hb : Z.max 0 (Z.min (Z.of_nat (l1 + l2)) (Z.of_nat (l1 + l2)))
               = Z.of_nat (l1 + l2)) by lia.
  rewrite Ha, Hb, Z.min_l, Z.max_r by lia.
  rewrite Nat2Z.id.
  replace (Z.to_nat (Z.of_nat (l1 + l2) - Z.of_nat l1)) with l2 by lia.
  apply substring_skip_app.
Qed.

Lemma substring_to_app (s1 s2 : string) :
  substring (s1 ++ s2) 0 (Z.of_nat (String.length s1)) = s1.
Proof.
  unfold substring. rewrite string_length_app.
  set (l1 := String.length s1). set (l2 := String.length s2).
  assert (Ha : Z.max 0 (Z.min 0 (Z.of_nat (l1 + l2))) = 0%Z) by lia.
  assert (Hb : Z.max 0 (Z.min (Z.of_nat l1) (Z.of_nat (l1 + l2)))
               = Z.of_nat l1) by lia.
  rewrite Ha, Hb, Z.min_l, Z.max_r by lia.
  rewrite Z.sub_0_r, Nat2Z.id. apply substring_take_app.
Qed.

Lemma relativePath_unfold (vaultPath subfolder docPath : string) :
  let paths := syncPaths vaultPath subfolder docPath in
  relativePath paths
  = if startsWith (outputPath paths) (vaultPath ++ "/")
    then substringFrom (outputPath paths)
           (Z.of_nat (String.length vaultPath) + 1)
    else outputPath paths.
Proof. reflexivity. Qed.

Lemma parentDir_unfold (vaultPath subfolder docPath : string) :
  let paths := syncPaths vaultPath subfolder docPath in
  parentDir paths
  = substring (outputPath paths) 0 (lastIndexOfSlash (outputPath paths)).
Proof. reflexivity. Qed.

(** X22. The file of a document is written at vaultPath/subfolder/safe
    path.pdf; the path recorded in the state is always that path without
    the vault prefix, subfolder/safe path.pdf; and the directory created
    before writing is the path up to its last slash, so that the file is
    directly inside it. *)
Theorem syncPaths_layout (vaultPath subfolder docPath : string) :
  let paths := syncPaths vaultPath subfolder docPath in
  outputPath paths
  = (vaultPath ++ "/" ++ subfolder ++ "/" ++ safePath docPath ++ ".pdf")%string
  /\
  relativePath paths
  = (subfolder ++ "/" ++ safePath docPath ++ ".pdf")%string /\
  exists file,
    outputPath paths = (parentDir paths ++ "/" ++ file)%string /\
    ~ In "/"%char (chars file).
Proof.
  intros paths.
  assert (Hout : outputPath paths
                 = ((vaultPath ++ "/")
                    ++ (subfolder ++ "/" ++ safePath docPath ++ ".pdf"))%string).
  { unfold paths, syncPaths. cbn [outputPath].
    now rewrite !string_app_assoc. }
  split; [rewrite Hout; now rewrite !string_app_assoc|].
  split.
  - unfold paths. rewrite relativePath_unfold. fold paths.
    rewrite Hout. unfold startsWith. rewrite prefix_app.
    replace (Z.of_nat (String.length vaultPath) + 1)%Z
      with (Z.of_nat (String.length (vaultPath ++ "/")))
      by (rewrite string_length_app; cbn [String.length]; lia).
    apply substringFrom_app.
  - destruct (lastIndexOfSlash_spec (outputPath paths))
      as [[_ Hno] | (dir & file & Hs & Hi & Hno)].
    + exfalso. apply Hno. rewrite Hout, !chars_app.
      apply in_or_app. left. apply in_or_app. right. now left.
    + exists file. split; [|exact Hno].
      assert (Hp : parentDir paths = dir).
      { unfold paths. rewrite parentDir_unfold. fold paths.
        rewrite Hi, Hs. apply substring_to_app. }
      rewrite Hp. exact Hs.
Qed.

Example syncPaths_sample :
  syncPaths "/vault" "reMarkable" "Work/Q: plan?"
  = {| outputPath := "/vault/reMarkable/Work/Q_ plan_.pdf";
       parentDir := "/vault/reMarkable/Work";
       relativePath := "reMarkable/Work/Q_ plan_.pdf" |}.
Proof. reflexivity. Qed.

(** ** Sync manager: the loop *)

Lemma callBlocks_snoc (vaultPath subfolder : string)
    (blocks block : list Effect) :
  callBlocks vaultPath subfolder blocks ->
  documentCalls vaultPath subfolder block ->
  callBlocks vaultPath subfolder (blocks ++ block).
Proof.
  induction 1 as [| b rest Hb Hrest IH]; intros Hblock.
  - rewrite <- (app_nil_r block). cbn [app].
    now apply callBlocks_app; [|constructor].
  - rewrite <- app_assoc. apply callBlocks_app; [exact Hb | now apply IH].
Qed.

Section SyncFacts.

Variable isDocument : DocumentMetadata -> bool.
Variable buildFolderTree : list DocumentMetadata -> string -> option string.
Variable downloadDocument : list Effect -> string -> string + list byte.
Variable convertDocument : string -> list byte -> string + list byte.
Variable mkdir : list Effect -> string -> option string.
Variable writeBinaryFile : list Effect -> string -> list byte -> option string.
Variable writeFile : list Effect -> string -> SyncState -> option string.
Variable now : list Effect -> string.
Variable vaultPath subfolder : string.

Local Abbreviation syncOne :=
  (syncDocument downloadDocument convertDocument mkdir writeBinaryFile
     writeFile now vaultPath subfolder).
Local Abbreviation step :=
  (syncStep downloadDocument convertDocument mkdir writeBinaryFile
     writeFile now vaultPath subfolder).
Local Abbreviation runSync :=
  (sync isDocument buildFolderTree downloadDocument convertDocument mkdir
     writeBinaryFile writeFile now vaultPath subfolder).
Local Abbreviation filtered := (filteredDocuments isDocument buildFolderTree).

Lemma syncDocument_calls (m : Machine) (doc : DocumentMetadata)
    (docPath : string) :
  exists block,
    trace (snd (syncOne m doc docPath)) = trace m ++ block /\
    documentCalls vaultPath subfolder block.
Proof.
  unfold syncDocument, documentCalls.
  set (paths := syncPaths vaultPath subfolder docPath).
  destruct (downloadDocument (trace m) (doc_id doc)) as [msg | zipData].
  { exists [DownloadDocument (doc_id doc)]. split; [reflexivity|].
    exists (doc_id doc), docPath, [], (state m), 1%nat.
    split; [lia | reflexivity]. }
  destruct (convertDocument (doc_id doc) zipData) as [msg | pdfData].
  { exists [DownloadDocument (doc_id doc)]. split; [reflexivity|].
    exists (doc_id doc), docPath, [], (state m), 1%nat.
    split; [lia | reflexivity]. }
  destruct (mkdir _ _) as [msg |].
  { exists [DownloadDocument (doc_id doc); Mkdir (parentDir paths)].
    split; [cbn; now rewrite <- app_assoc|].
    exists (doc_id doc), docPath, [], (state m), 2%nat.
    split; [lia | reflexivity]. }
  destruct (writeBinaryFile _ _ _) as [msg |].
  { exists [DownloadDocument (doc_id doc); Mkdir (parentDir paths);
            WriteBinaryFile (outputPath paths) pdfData].
    split; [cbn; now rewrite <- !app_assoc|].
    exists (doc_id doc), docPath, pdfData, (state m), 3%nat.
    split; [lia | reflexivity]. }
  eexists [DownloadDocument (doc_id doc); Mkdir (parentDir paths);
           WriteBinaryFile (outputPath paths) pdfData; SaveState _ _].
  split; [cbn; rewrite <- !app_assoc; reflexivity|].
  eexists (doc_id doc), docPath, pdfData, _, 4%nat.
  split; [lia | reflexivity].
Qed.


Lemma syncDocument_state (m : Machine) (doc : DocumentMetadata)
    (docPath : string) (id : string) :
  id <> doc_id doc ->
  syncedDocs (state (snd (syncOne m doc docPath))) id
  = syncedDocs (state m) id.
Proof.
  intros Hid. unfold syncDocument.
  destruct (downloadDocument _ _); [reflexivity|].
  destruct (convertDocument _ _); [reflexivity|].
  destruct (mkdir _ _); [reflexivity|].
  destruct (writeBinaryFile _ _ _); [reflexivity|].
  cbn [save call snd state]. unfold recordSync.
  now apply setSyncedDoc_other_entries.
Qed.

Lemma syncStep_spec (opts : SyncOptions)
    (folderPaths : string -> option string) (results : SyncResults)
    (m : Machine) (doc : DocumentMetadata) :
  let acc := step opts folderPaths (results, m) doc in
  exists blocks,
    trace (snd acc) = trace m ++ blocks /\
    callBlocks vaultPath subfolder blocks /\
    reported (fst acc) = S (reported results) /\
    (force opts = true -> skipped (fst acc) = skipped results) /\
    (dryRun opts = true ->
     snd acc = m /\ errors (fst acc) = errors results) /\
    (force opts = false -> needsSync (state m) doc = false ->
     snd acc = m /\ synced (fst acc) = synced results /\
     errors (fst acc) = errors results /\
     skipped (fst acc) = skipped results ++ [reportedPath folderPaths doc]) /\
    (forall id, id <> doc_id doc ->
                syncedDocs (state (snd acc)) id = syncedDocs (state m) id).
Proof.
  unfold syncStep, reported, reportedPath.
  set (docPath := match folderPaths (doc_id doc) with
                  | Some p => p
                  | None => doc_name doc
                  end).
  destruct (force opts) eqn:Hforce; cbn [negb andb].
  - destruct (dryRun opts) eqn:Hdry.
    + exists []. cbn [fst snd synced skipped errors].
      rewrite app_nil_r, length_app. cbn [List.length].
      repeat split; try discriminate; try lia. constructor.
    + destruct (syncDocument_calls m doc docPath) as (block & Htrace & Hblock).
      pose proof (syncDocument_state m doc docPath) as Hstate.
      destruct (syncOne m doc docPath) as [[message |] m'];
        cbn [fst snd synced skipped errors] in *;
        exists block; rewrite length_app; cbn [List.length];
        (repeat split; try discriminate; try lia; try assumption);
        rewrite <- (app_nil_r block);
        (apply callBlocks_app; [assumption | constructor]).
  - destruct (needsSync (state m) doc) eqn:Hneeds; cbn [negb].
    + destruct (dryRun opts) eqn:Hdry.
      * exists []. cbn [fst snd synced skipped errors].
        rewrite app_nil_r, length_app. cbn [List.length].
        repeat split; try discriminate; try lia. constructor.
      * destruct (syncDocument_calls m doc docPath)
          as (block & Htrace & Hblock).
        pose proof (syncDocument_state m doc docPath) as Hstate.
        destruct (syncOne m doc docPath) as [[message |] m'];
          cbn [fst snd synced skipped errors] in *;
          exists block; rewrite length_app; cbn [List.length];
          (repeat split; try discriminate; try lia; try assumption);
          rewrite <- (app_nil_r block);
          (apply callBlocks_app; [assumption | constructor]).
    + exists []. cbn [fst snd synced skipped errors].
      rewrite app_nil_r, length_app. cbn [List.length].
      repeat split; try discriminate; try lia. constructor.
Qed.

Lemma callBlocks_concat (blocks blocks' : list Effect) :
  callBlocks vaultPath subfolder blocks ->
  callBlocks vaultPath subfolder blocks' ->
  callBlocks vaultPath subfolder (blocks ++ blocks').
Proof.
  induction 1 as [| b rest Hb Hrest IH]; intros H'; [exact H'|].
  rewrite <- app_assoc. apply callBlocks_app; [exact Hb | now apply IH].
Qed.

Lemma syncLoop_spec (opts : SyncOptions)
    (folderPaths : string -> option string)
    (docs : list DocumentMetadata) :
  forall (results : SyncResults) (m : Machine),
    let acc := fold_left (step opts folderPaths) docs (results, m) in
    exists blocks,
      trace (snd acc) = trace m ++ blocks /\
      callBlocks vaultPath subfolder blocks /\
      reported (fst acc) = (reported results + List.length docs)%nat /\
      (force opts = true -> skipped (fst acc) = skipped results) /\
      (dryRun opts = true ->
       snd acc = m /\ errors (fst acc) = errors results) /\
      (force opts = false ->
       Forall (fun doc => needsSync (state m) doc = false) docs ->
       snd acc = m /\ synced (fst acc) = synced results /\
       errors (fst acc) = errors results /\
       skipped (fst acc)
       = skipped results ++ map (reportedPath folderPaths) docs) /\
      (forall id, ~ In id (map doc_id docs) ->
                  syncedDocs (state (snd acc)) id = syncedDocs (state m) id).
Proof.
  induction docs as [| doc rest IH]; intros results m.
  - exists []. cbn. rewrite !app_nil_r.
    repeat split; try reflexivity. constructor. lia.
  - cbn [fold_left].
    destruct (syncStep_spec opts folderPaths results m doc)
      as (b1 & Ht1 & Hb1 & Hn1 & Hf1 & Hd1 & Hu1 & Hs1).
    destruct (step opts folderPaths (results, m) doc) as [results1 m1].
    cbn [fst snd] in *.
    destruct (IH results1 m1) as (b2 & Ht2 & Hb2 & Hn2 & Hf2 & Hd2 & Hu2 & Hs2).
    exists (b1 ++ b2). split; [|split; [|split; [|split; [|split; [|split]]]]].
    + now rewrite Ht2, Ht1, app_assoc.
    + now apply callBlocks_concat.
    + rewrite Hn2, Hn1. cbn [List.length]. lia.
    + intros Hforce. now rewrite (Hf2 Hforce), (Hf1 Hforce).
    + intros Hdry. destruct (Hd1 Hdry) as [-> He1].
      destruct (Hd2 Hdry) as [-> He2]. split; congruence.
    + intros Hforce Hall. inversion Hall as [| d l Hdoc Hrest]; subst.
      destruct (Hu1 Hforce Hdoc) as (-> & Hsy1 & He1 & Hsk1).
      destruct (Hu2 Hforce Hrest) as (-> & Hsy2 & He2 & Hsk2).
      repeat split; try congruence.
      rewrite Hsk2, Hsk1, <- app_assoc. reflexivity.
    + intros id Hid. cbn [map In] in Hid.
      rewrite Hs2, Hs1; [reflexivity | |]; intros H; apply Hid; auto.
Qed.

(** X23. A run of [sync] that returns reports every document it looped
    over exactly once, as synced, skipped or failed; with [force] nothing
    is skipped, and a dry run reports no error. *)
Theorem sync_reports_every_document (documents : list DocumentMetadata)
    (opts : SyncOptions) (m m' : Machine) (results : SyncResults) :
  runSync true (inr documents) opts m = (inr results, m') ->
  reported results = List.length (filtered opts documents) /\
  (force opts = true -> skipped results = []) /\
  (dryRun opts = true -> errors results = []).
Proof.
  unfold sync. cbn [negb].
  destruct (syncLoop_spec opts (buildFolderTree documents)
              (filtered opts documents)
              {| synced := []; skipped := []; errors := [] |} m)
    as (blocks & _ & _ & Hn & Hf & Hd & _).
  destruct (fold_left _ _ _) as [results0 m0]. cbn [fst snd] in *.
  unfold save. destruct (writeFile _ _ _); [discriminate|].
  intros H. injection H as <- _.
  split; [exact Hn|]. split; [exact Hf|].
  intros Hdry. exact (proj2 (Hd Hdry)).
Qed.

(** X24. A dry run makes no download and writes no document: its only call
    saves the state, in which nothing but the time of the last sync has
    changed. *)
Theorem dry_run_only_stamps_the_state (documents : list DocumentMetadata)
    (opts : SyncOptions) (m : Machine) :
  dryRun opts = true ->
  let m' := snd (runSync true (inr documents) opts m) in
  trace m' = trace m ++ [SaveState (stateFile vaultPath subfolder) (state m')]
  /\ syncedDocs (state m') = syncedDocs (state m)
  /\ lastSync (state m') = Some (now (trace m))
  /\ inherited (state m') = inherited (state m).
Proof.
  intros Hdry. unfold sync. cbn [negb].
  destruct (syncLoop_spec opts (buildFolderTree documents)
              (filtered opts documents)
              {| synced := []; skipped := []; errors := [] |} m)
    as (blocks & _ & _ & _ & _ & Hd & _).
  destruct (fold_left _ _ _) as [results0 m0]. cbn [fst snd] in *.
  destruct (Hd Hdry) as [-> _].
  unfold save. destruct (writeFile _ _ _); cbn; repeat split.
Qed.

(** X25. Without [force], when no document of the loop needs a sync, every
    one is reported as skipped, in order, and the only call saves the
    state. *)
Theorem up_to_date_documents_are_skipped (documents : list DocumentMetadata)
    (opts : SyncOptions) (m m' : Machine) (results : SyncResults) :
  force opts = false ->
  Forall (fun doc => needsSync (state m) doc = false)
    (filtered opts documents) ->
  runSync true (inr documents) opts m = (inr results, m') ->
  synced results = [] /\ errors results = [] /\
  skipped results
  = map (reportedPath (buildFolderTree documents)) (filtered opts documents)
  /\ trace m' = trace m ++ [SaveState (stateFile vaultPath subfolder) (state m')]
  /\ syncedDocs (state m') = syncedDocs (state m)
  /\ inherited (state m') = inherited (state m).
Proof.
  intros Hforce Hall. unfold sync. cbn [negb].
  destruct (syncLoop_spec opts (buildFolderTree documents)
              (filtered opts documents)
              {| synced := []; skipped := []; errors := [] |} m)
    as (blocks & _ & _ & _ & _ & _ & Hu & _).
  destruct (fold_left _ _ _) as [results0 m0]. cbn [fst snd] in *.
  destruct (Hu Hforce Hall) as (-> & Hsy & He & Hsk).
  unfold save. destruct (writeFile _ _ _); [discriminate|].
  intros H. injection H as <- <-. cbn. repeat split; assumption.
Qed.

(** The calls of a run of [sync] come in blocks, one for each document it
    tried: download, directory, file, state, up to the call that failed; a
    last call saves the state with the time of the sync. *)
Lemma sync_trace (documents : list DocumentMetadata)
    (opts : SyncOptions) (m : Machine) :
  let m' := snd (runSync true (inr documents) opts m) in
  exists blocks,
    trace m'
    = trace m ++ blocks ++ [SaveState (stateFile vaultPath subfolder) (state m')]
    /\ callBlocks vaultPath subfolder blocks
    /\ lastSync (state m') = Some (now (trace m ++ blocks)).
Proof.
  unfold sync. cbn [negb].
  destruct (syncLoop_spec opts (buildFolderTree documents)
              (filtered opts documents)
              {| synced := []; skipped := []; errors := [] |} m)
    as (blocks & Ht & Hb & _).
  destruct (fold_left _ _ _) as [results0 m0]. cbn [fst snd] in *.
  exists blocks. unfold save.
  destruct (writeFile _ _ _); cbn; rewrite Ht, <- app_assoc;
    repeat split; assumption.
Qed.

(** X26. A run of [sync] leaves alone the entry of every document it does
    not loop over. *)
Theorem sync_keeps_other_entries (documents : list DocumentMetadata)
    (opts : SyncOptions) (m : Machine) (id : string) :
  ~ In id (map doc_id (filtered opts documents)) ->
  syncedDocs (state (snd (runSync true (inr documents) opts m))) id
  = syncedDocs (state m) id.
Proof.
  intros Hid. unfold sync. cbn [negb].
  destruct (syncLoop_spec opts (buildFolderTree documents)
              (filtered opts documents)
              {| synced := []; skipped := []; errors := [] |} m)
    as (blocks & _ & _ & _ & _ & _ & _ & Hs).
  destruct (fold_left _ _ _) as [results0 m0]. cbn [fst snd] in *.
  unfold save. destruct (writeFile _ _ _); cbn; now apply Hs.
Qed.

End SyncFacts.

Lemma documentCalls_write (vaultPath subfolder : string)
    (block l1 l2 : list Effect) (file : string) (data : list byte) :
  documentCalls vaultPath subfolder block ->
  block = l1 ++ WriteBinaryFile file data :: l2 ->
  exists id docPath,
    l1 = [DownloadDocument id;
          Mkdir (parentDir (syncPaths vaultPath subfolder docPath))] /\
    file = outputPath (syncPaths vaultPath subfolder docPath).
Proof.
  intros (id & docPath & pdfData & st & k & Hk & ->) Heq.
  exists id, docPath.
  assert (Hall :
    exists rest,
      [DownloadDocument id;
       Mkdir (parentDir (syncPaths vaultPath subfolder docPath));
       WriteBinaryFile (outputPath (syncPaths vaultPath subfolder docPath))
         pdfData;
       SaveState (stateFile vaultPath subfolder) st]
      = l1 ++ WriteBinaryFile file data :: rest).
  { set (all := [_; _; _; _]) in *.
    exists (l2 ++ skipn k all).
    rewrite <- (firstn_skipn k all) at 1.
    rewrite Heq, <- app_assoc. reflexivity. }
  clear Heq. destruct Hall as [rest Hall].
  destruct l1 as [| e1 l1]; [discriminate Hall|].
  destruct l1 as [| e2 l1]; [discriminate Hall|].
  destruct l1 as [| e3 l1].
  - injection Hall as <- <- <- _ _. split; reflexivity.
  - destruct l1 as [| e4 l1]; [discriminate Hall|].
    destruct l1; discriminate Hall.
Qed.

Lemma callBlocks_write (vaultPath subfolder : string)
    (blocks : list Effect) :
  callBlocks vaultPath subfolder blocks ->
  forall l1 file data l2,
    blocks = l1 ++ WriteBinaryFile file data :: l2 ->
    exists l0 id docPath,
      l1 = l0 ++ [DownloadDocument id;
                  Mkdir (parentDir (syncPaths vaultPath subfolder docPath))]
      /\ file = outputPath (syncPaths vaultPath subfolder docPath).
Proof.
  induction 1 as [| block rest Hblock Hrest IH]; intros l1 file data l2 Heq.
  - destruct l1; discriminate Heq.
  - apply app_eq_app in Heq. destruct Heq as [l [[Hb Hr] | [Hl Hr]]].
    + destruct l as [| e l].
      * cbn [app] in Hr. symmetry in Hr.
        destruct (IH [] file data l2 Hr) as (l0 & id & docPath & Hnil & _).
        destruct l0; discriminate Hnil.
      * injection Hr as <- Hl2.
        rewrite Hb in Hblock.
        destruct (documentCalls_write _ _ _ _ _ _ _ Hblock eq_refl)
          as (id & docPath & Hl1 & Hfile).
        exists [], id, docPath. split; assumption.
    + destruct (IH l file data l2 Hr) as (l0 & id & docPath & Hl0 & Hfile).
      exists (block ++ l0), id, docPath. split; [|exact Hfile].
      rewrite Hl, Hl0, app_assoc. reflexivity.
Qed.

(** X27. A run of [sync] that stops at the authentication test, or
    because [listDocuments] throws, makes no call and leaves the state as
    it was.  A run that gets past both ends, whatever the downloads and the
    file operations answer, with a call that saves the state; before it,
    documents are written only to paths of the form output directory,
    slash, sanitised document path, [.pdf], and each such write comes right
    after the download of a document and the creation of the directory of
    that path. *)
Theorem documents_are_written_after_their_directory
    (isDocument : DocumentMetadata -> bool)
    (buildFolderTree : list DocumentMetadata -> string -> option string)
    (downloadDocument : list Effect -> string -> string + list byte)
    (convertDocument : string -> list byte -> string + list byte)
    (mkdir : list Effect -> string -> option string)
    (writeBinaryFile : list Effect -> string -> list byte -> option string)
    (writeFile : list Effect -> string -> SyncState -> option string)
    (now : list Effect -> string) (vaultPath subfolder : string)
    (isAuthenticated : bool)
    (listDocuments : string + list DocumentMetadata)
    (opts : SyncOptions) (m : Machine) :
  let run :=
    sync isDocument buildFolderTree downloadDocument convertDocument
      mkdir writeBinaryFile writeFile now vaultPath subfolder
      isAuthenticated listDocuments opts m in
  let m' := snd run in
  (isAuthenticated = false \/ (exists message, listDocuments = inl message) ->
   m' = m /\ exists message, fst run = inl message) /\
  (isAuthenticated = true ->
   forall documents,
     listDocuments = inr documents ->
     exists calls,
       trace m'
       = trace m ++ calls
         ++ [SaveState (stateFile vaultPath subfolder) (state m')]
       /\
       forall l1 file data l2,
         calls = l1 ++ WriteBinaryFile file data :: l2 ->
         exists l0 id docPath,
           l1 = l0
                ++ [DownloadDocument id;
                    Mkdir (parentDir
                             (syncPaths vaultPath subfolder docPath))]
           /\ file
              = (outputDir vaultPath subfolder ++ "/" ++ safePath docPath
                 ++ ".pdf")%string).
Proof.
  intros run m'. split.
  - intros Hstop. unfold m', run, sync.
    destruct isAuthenticated; cbn [negb].
    + destruct Hstop as [Hauth | [message ->]]; [discriminate Hauth|].
      cbn [fst snd]. split; [reflexivity | now exists message].
    + cbn [fst snd]. split; [reflexivity | eauto].
  - intros -> documents ->.
    destruct (sync_trace isDocument buildFolderTree downloadDocument
                convertDocument mkdir writeBinaryFile writeFile now vaultPath
                subfolder documents opts m)
      as (blocks & Htrace & Hblocks & _).
    fold run in Htrace. fold m' in Htrace.
    exists blocks. split; [exact Htrace|].
    intros l1 file data l2 Heq.
    exact (callBlocks_write _ _ _ Hblocks _ _ _ _ Heq).
Qed.

(** A run on three listed documents, one of them in the trash: the first
    is written, the conversion of the last fails. *)
Example sync_sample :
  fst (SyncExamples.run SyncExamples.plain SyncExamples.start)
  = inr {| synced := ["Work/Notes"%string]; skipped := [];
           errors := ["Plan: Q1: No pages found in document"%string] |} /\
  map (fun e => match e with
                | DownloadDocument id => ("download " ++ id)%string
                | Mkdir dir => ("mkdir " ++ dir)%string
                | WriteBinaryFile file _ => ("write " ++ file)%string
                | SaveState file _ => ("save " ++ file)%string
                end)
    (trace (snd (SyncExamples.run SyncExamples.plain SyncExamples.start)))
  = ["download id-a"; "mkdir vault/reMarkable/Work";
     "write vault/reMarkable/Work/Notes.pdf";
     "save vault/reMarkable/.remarkable-sync-state.json";
     "download id-b";
     "save vault/reMarkable/.remarkable-sync-state.json"]%string.
Proof. split; vm_compute; reflexivity. Qed.

Lemma sync_reports_every_document_witness :
  let results :=
    {| synced := ["Work/Notes"%string]; skipped := [];
       errors := ["Plan: Q1: No pages found in document"%string] |} in
  SyncExamples.run SyncExamples.plain SyncExamples.start
  = (inr results,
     snd (SyncExamples.run SyncExamples.plain SyncExamples.start)) /\
  reported results = 2%nat.
Proof.
  intros results. split; [reflexivity|].
  exact (proj1
           (sync_reports_every_document SyncExamples.isDocument
              SyncExamples.buildFolderTree SyncExamples.downloadDocument
              SyncExamples.convertDocument SyncExamples.mkdir
              SyncExamples.writeBinaryFile SyncExamples.writeFile
              SyncExamples.now "vault" "reMarkable" SyncExamples.documents
              SyncExamples.plain SyncExamples.start
              (snd (SyncExamples.run SyncExamples.plain SyncExamples.start))
              results eq_refl)).
Defined.

Lemma dry_run_only_stamps_the_state_witness :
  let m' := snd (SyncExamples.run SyncExamples.dry SyncExamples.start) in
  dryRun SyncExamples.dry = true /\
  trace m'
  = [SaveState "vault/reMarkable/.remarkable-sync-state.json" (state m')] /\
  syncedDocs (state m') = syncedDocs SyncExamples.emptyState.
Proof.
  intros m'. split; [reflexivity|].
  destruct (dry_run_only_stamps_the_state SyncExamples.isDocument
              SyncExamples.buildFolderTree SyncExamples.downloadDocument
              SyncExamples.convertDocument SyncExamples.mkdir
              SyncExamples.writeBinaryFile SyncExamples.writeFile
              SyncExamples.now "vault" "reMarkable" SyncExamples.documents
              SyncExamples.dry SyncExamples.start eq_refl)
    as (Htrace & Hdocs & _).
  split; [exact Htrace | exact Hdocs].
Defined.

Lemma up_to_date_documents_are_skipped_witness :
  let m := {| trace := []; state := syncedState |} in
  let r := SyncExamples.run SyncExamples.plain m in
  force SyncExamples.plain = false /\
  needsSync syncedState SyncExamples.docA = false /\
  needsSync syncedState SyncExamples.docB = false /\
  forall results, r = (inr results, snd r) ->
    synced results = [] /\ errors results = [] /\
    skipped results = ["Work/Notes"; "Plan: Q1"]%string.
Proof.
  intros m r. split; [reflexivity|]. split; [reflexivity|].
  split; [reflexivity|]. intros results Hrun.
  destruct (up_to_date_documents_are_skipped SyncExamples.isDocument
              SyncExamples.buildFolderTree SyncExamples.downloadDocument
              SyncExamples.convertDocument SyncExamples.mkdir
              SyncExamples.writeBinaryFile SyncExamples.writeFile
              SyncExamples.now "vault" "reMarkable" SyncExamples.documents
              SyncExamples.plain m (snd r) results eq_refl
              (Forall_cons _ (eq_refl : needsSync syncedState
                                          SyncExamples.docA = false)
                 (Forall_cons _ (eq_refl : needsSync syncedState
                                             SyncExamples.docB = false)
                    (Forall_nil _)))
              Hrun)
    as (Hsynced & Herrors & Hskipped & _).
  split; [exact Hsynced|]. split; [exact Herrors | exact Hskipped].
Defined.

Lemma sync_keeps_other_entries_witness :
  ~ In "id-c"%string
      (map doc_id
         (filteredDocuments SyncExamples.isDocument
            SyncExamples.buildFolderTree SyncExamples.plain
            SyncExamples.documents)) /\
  syncedDocs
    (state (snd (SyncExamples.run SyncExamples.plain SyncExamples.start)))
    "id-c"
  = None.
Proof.
  assert (Hid : ~ In "id-c"%string
                  (map doc_id
                     (filteredDocuments SyncExamples.isDocument
                        SyncExamples.buildFolderTree SyncExamples.plain
                        SyncExamples.documents))).
  { intros [H | [H | []]]; discriminate H. }
  split; [exact Hid|].
  exact (sync_keeps_other_entries SyncExamples.isDocument
           SyncExamples.buildFolderTree SyncExamples.downloadDocument
           SyncExamples.convertDocument SyncExamples.mkdir
           SyncExamples.writeBinaryFile SyncExamples.writeFile
           SyncExamples.now "vault" "reMarkable" SyncExamples.documents
           SyncExamples.plain SyncExamples.start "id-c" Hid).
Defined.

Lemma documents_are_written_after_their_directory_witness :
  (snd (sync SyncExamples.isDocument SyncExamples.buildFolderTree
          SyncExamples.downloadDocument SyncExamples.convertDocument
          SyncExamples.mkdir SyncExamples.writeBinaryFile
          SyncExamples.writeFile SyncExamples.now "vault" "reMarkable"
          true (inl "Request failed"%string) SyncExamples.plain
          SyncExamples.start)
   = SyncExamples.start) /\
  exists l0 id docPath,
    [DownloadDocument "id-a"; Mkdir "vault/reMarkable/Work"]
    = l0 ++ [DownloadDocument id;
             Mkdir (parentDir (syncPaths "vault" "reMarkable" docPath))] /\
    "vault/reMarkable/Work/Notes.pdf"%string
    = (outputDir "vault" "reMarkable" ++ "/" ++ safePath docPath ++ ".pdf")%string.
Proof.
  split.
  - exact (proj1
             (proj1
                (documents_are_written_after_their_directory
                   SyncExamples.isDocument
                   SyncExamples.buildFolderTree SyncExamples.downloadDocument
                   SyncExamples.convertDocument SyncExamples.mkdir
                   SyncExamples.writeBinaryFile SyncExamples.writeFile
                   SyncExamples.now "vault" "reMarkable" true
                   (inl "Request failed"%string) SyncExamples.plain
                   SyncExamples.start)
                (or_intror (ex_intro _ "Request failed"%string eq_refl)))).
  - destruct (proj2
                (documents_are_written_after_their_directory
                   SyncExamples.isDocument
                   SyncExamples.buildFolderTree SyncExamples.downloadDocument
                   SyncExamples.convertDocument SyncExamples.mkdir
                   SyncExamples.writeBinaryFile SyncExamples.writeFile
                   SyncExamples.now "vault" "reMarkable" true
                   (inr SyncExamples.documents) SyncExamples.plain
                   SyncExamples.start)
                eq_refl SyncExamples.documents eq_refl)
      as (calls & Htrace & Hwrites).
    apply (Hwrites _ _ [x01; x02]
             (skipn 3
                (removelast
                   (trace (snd (SyncExamples.run SyncExamples.plain
                                  SyncExamples.start)))))).
    symmetry.
    exact (proj1
             (app_inj_tail
                (removelast
                   (trace (snd (SyncExamples.run SyncExamples.plain
                                  SyncExamples.start))))
                calls _ _ Htrace)).
Defined.

(** ** The archive of a document *)

Import ZipContents.

Lemma typeByFile_none (fileList : list string) :
  typeByFile fileList = None ->
  Forall (fun name => endsWith name ".pdf" = false /\
                      endsWith name ".epub" = false) fileList.
Proof.
  induction fileList as [| name rest IH]; cbn [typeByFile]; intros H.
  - constructor.
  - destruct (endsWith name ".pdf") eqn:Hpdf; [discriminate|].
    destruct (endsWith name ".epub") eqn:Hepub; [discriminate|].
    constructor; [split; reflexivity + assumption | apply IH, H].
Qed.

Lemma typeByFile_some (fileList : list string) (t : DocumentConverter.DocType) :
  typeByFile fileList = Some t -> t <> DocumentConverter.notebook.
Proof.
  induction fileList as [| name rest IH]; cbn [typeByFile]; intros H.
  - discriminate.
  - destruct (endsWith name ".pdf"); [injection H as <-; discriminate|].
    destruct (endsWith name ".epub"); [injection H as <-; discriminate|].
    apply IH, H.
Qed.

Lemma no_original_without_typed_file (read : string -> option (list byte))
    (fileList : list string) :
  Forall (fun name => endsWith name ".pdf" = false /\
                      endsWith name ".epub" = false) fileList ->
  extractOriginalPdf read fileList = None /\
  extractOriginalEpub read fileList = None.
Proof.
  induction 1 as [| name rest [Hpdf Hepub] _ [IH1 IH2]];
    [split; reflexivity|].
  cbn [extractOriginalPdf extractOriginalEpub].
  rewrite Hpdf, Hepub. cbn [andb]. split; assumption.
Qed.

(** X28. A document typed as a notebook has no original file: whatever the
    archive gives when read, [extractOriginalPdf] and [extractOriginalEpub]
    both answer null, so that no page of it gets a background. *)
Theorem notebook_has_no_original_file (fileType : option string)
    (fileList : list string) (read : string -> option (list byte)) :
  determineDocType fileType fileList = DocumentConverter.notebook ->
  extractOriginalPdf read fileList = None /\
  extractOriginalEpub read fileList = None.
Proof.
  unfold determineDocType. intros Htype.
  destruct (typeByFile fileList) as [t |] eqn:Hfiles.
  - subst t. now apply typeByFile_some in Hfiles.
  - apply no_original_without_typed_file.
    apply typeByFile_none, Hfiles.
Qed.

Lemma notebook_has_no_original_file_witness :
  determineDocType (Some "notebook"%string)
    ["doc.content"; "doc/p1.rm"; "doc/p1-metadata.json"]%string
  = DocumentConverter.notebook /\
  extractOriginalPdf (fun _ => Some [x01])
    ["doc.content"; "doc/p1.rm"; "doc/p1-metadata.json"]%string
  = None.
Proof.
  split; [reflexivity|].
  exact (proj1
           (notebook_has_no_original_file (Some "notebook"%string)
              ["doc.content"; "doc/p1.rm"; "doc/p1-metadata.json"]%string
              (fun _ => Some [x01]) eq_refl)).
Defined.

(** X29. The original PDF of a document, when there is one, is the content
    of the first file of the archive whose name ends in [.pdf] but not in
    [-metadata.pdf] and which can be read; files of that kind before it
    could not be read.  The document is then not typed as a notebook. *)
Theorem extractOriginalPdf_first_readable (fileType : option string)
    (fileList : list string) (read : string -> option (list byte))
    (data : list byte) :
  extractOriginalPdf read fileList = Some data ->
  (exists before name after,
      fileList = before ++ name :: after /\
      endsWith name ".pdf" = true /\
      endsWith name "-metadata.pdf" = false /\
      read name = Some data /\
      Forall (fun other =>
                endsWith other ".pdf" = true ->
                endsWith other "-metadata.pdf" = false ->
                read other = None) before) /\
  determineDocType fileType fileList <> DocumentConverter.notebook.
Proof.
  intros Hfound. split.
  - induction fileList as [| name rest IH]; [discriminate|].
    cbn [extractOriginalPdf] in Hfound.
    destruct (endsWith name ".pdf") eqn:Hpdf;
      [destruct (endsWith name "-metadata.pdf") eqn:Hmeta|];
      cbn [andb negb] in Hfound.
    + destruct (IH Hfound) as (before & n & after & -> & H1 & H2 & H3 & H4).
      exists (name :: before), n, after. repeat split; try assumption.
      constructor; [congruence | exact H4].
    + destruct (read name) as [d |] eqn:Hread.
      * injection Hfound as ->. exists [], name, rest.
        repeat split; try assumption. constructor.
      * destruct (IH Hfound) as (before & n & after & -> & H1 & H2 & H3 & H4).
        exists (name :: before), n, after. repeat split; try assumption.
        constructor; [intros _ _; exact Hread | exact H4].
    + destruct (IH Hfound) as (before & n & after & -> & H1 & H2 & H3 & H4).
      exists (name :: before), n, after. repeat split; try assumption.
      constructor; [congruence | exact H4].
  - unfold determineDocType. intros Htype.
    destruct (typeByFile fileList) as [t |] eqn:Hfiles.
    + subst t. now apply typeByFile_some in Hfiles.
    + apply typeByFile_none in Hfiles.
      destruct (no_original_without_typed_file read fileList Hfiles)
        as [Hnone _].
      congruence.
Qed.

Lemma extractOriginalPdf_first_readable_witness :
  let read := fun name : string =>
                if String.eqb name "doc/broken.pdf" then None
                else Some [x25; x50] in
  let fileList := ["doc.content"; "doc/p1-metadata.pdf"; "doc/broken.pdf";
                   "doc.pdf"]%string in
  extractOriginalPdf read fileList = Some [x25; x50] /\
  determineDocType None fileList <> DocumentConverter.notebook.
Proof.
  intros read fileList. split; [reflexivity|].
  exact (proj2
           (extractOriginalPdf_first_readable None fileList read [x25; x50]
              eq_refl)).
Defined.

(** A file list whose only PDF is a metadata file: the document is typed
    as a PDF, and has no original PDF. *)
Example pdf_type_without_original :
  determineDocType None ["doc.content"; "doc/p1-metadata.pdf"]%string
  = DocumentConverter.pdf /\
  extractOriginalPdf (fun _ => Some [x25])
    ["doc.content"; "doc/p1-metadata.pdf"]%string
  = None.
Proof. split; reflexivity. Qed.

(** ** [listRemote] *)

Import RemoteListing.

Lemma remoteEntries_fold (isDocument : DocumentMetadata -> bool)
    (folderPaths : string -> option string) (st : SyncState)
    (documents : list DocumentMetadata) :
  forall result,
    fold_left
      (fun result doc =>
         if isDocument doc && negb (isTrashed doc) then
           result
           ++ [{| re_id := doc_id doc;
                  re_name := doc_name doc;
                  re_path :=
                    match folderPaths (doc_id doc) with
                    | Some p => p
                    | None => doc_name doc
                    end;
                  re_version := doc_version doc;
                  re_modified := modifiedTime doc;
                  re_synced := hasKey st (doc_id doc) |}]
         else result)
      documents result
    = result
      ++ map (fun doc =>
                {| re_id := doc_id doc;
                   re_name := doc_name doc;
                   re_path := reportedPath folderPaths doc;
                   re_version := doc_version doc;
                   re_modified := modifiedTime doc;
                   re_synced := hasKey st (doc_id doc) |})
          (filter (fun doc => isDocument doc && negb (isTrashed doc))
             documents).
Proof.
  induction documents as [| doc rest IH]; intros result;
    cbn [fold_left filter].
  - now rewrite app_nil_r.
  - rewrite IH. destruct (isDocument doc && negb (isTrashed doc)).
    + cbn [map]. now rewrite <- app_assoc.
    + reflexivity.
Qed.

(** X30. [listRemote] lets the error of [listDocuments] through.  On a
    listing, it lists the documents that [sync] loops over when it has no
    folder filter: the same ones, in the same order, under the paths
    [sync] reports them by.  The synced flag of a document is [id in
    syncedDocs]: it is set when the map holds an entry for the id, and also
    when the map only inherits a property of that name; a listed document
    whose flag is not set is one [needsSync] says to sync. *)
Theorem listRemote_lists_what_sync_loops_over
    (isDocument : DocumentMetadata -> bool)
    (buildFolderTree : list DocumentMetadata -> string -> option string)
    (st : SyncState) (documents : list DocumentMetadata)
    (opts : SyncOptions) :
  folderFilter opts = None ->
  let looped := filteredDocuments isDocument buildFolderTree opts documents in
  (forall message,
      listRemote isDocument buildFolderTree st (inl message) = inl message) /\
  exists listing,
    listRemote isDocument buildFolderTree st (inr documents) = inr listing /\
    map re_id listing = map doc_id looped /\
    map re_path listing
    = map (reportedPath (buildFolderTree documents)) looped /\
    map re_version listing = map doc_version looped /\
    map re_synced listing = map (fun doc => hasKey st (doc_id doc)) looped /\
    Forall (fun doc =>
              (syncedDocs st (doc_id doc) <> None ->
               hasKey st (doc_id doc) = true) /\
              (hasKey st (doc_id doc) = false -> needsSync st doc = true))
      looped.
Proof.
  intros Hfilter looped. split; [reflexivity|].
  exists (remoteEntries isDocument buildFolderTree st documents).
  split; [reflexivity|].
  unfold looped, remoteEntries, filteredDocuments.
  rewrite Hfilter, remoteEntries_fold.
  cbn [app]. rewrite !map_map. cbn [re_id re_path re_version re_synced].
  repeat split.
  apply Forall_forall. intros doc _. unfold hasKey, needsSync, lookup. split.
  - intros Hown. destruct (syncedDocs st (doc_id doc)); [reflexivity|].
    now contradiction Hown.
  - intros Hkey.
    destruct (syncedDocs st (doc_id doc)); [discriminate Hkey|].
    fold (lookup st (doc_id doc)) in *.
    match goal with
    | |- match ?found with _ => _ end = true =>
        destruct found; try discriminate Hkey; reflexivity
    end.
Qed.

Lemma listRemote_lists_what_sync_loops_over_witness :
  folderFilter SyncExamples.plain = None /\
  exists listing,
    listRemote SyncExamples.isDocument SyncExamples.buildFolderTree
      SyncExamples.emptyState (inr SyncExamples.documents)
    = inr listing /\
    map re_path listing = ["Work/Notes"; "Plan: Q1"]%string /\
    map re_synced listing = [false; false].
Proof.
  split; [reflexivity|].
  destruct (proj2
              (listRemote_lists_what_sync_loops_over SyncExamples.isDocument
                 SyncExamples.buildFolderTree SyncExamples.emptyState
                 SyncExamples.documents SyncExamples.plain eq_refl))
    as (listing & Hlist & _ & Hpath & _ & Hsynced & _).
  exists listing. split; [exact Hlist|]. split; [exact Hpath | exact Hsynced].
Defined.

(** A document whose id is the name of a member of [Object.prototype] is
    listed as synced by a state that holds no entry at all. *)
Example listRemote_inherited_name :
  listRemote SyncExamples.isDocument SyncExamples.buildFolderTree
    SyncExamples.emptyState
    (inr [mkDocumentMetadata "constructor" "Odd" 0 false "2024-01-02"])
  = inr [mkRemoteEntry "constructor" "Odd" "Odd" 0 "2024-01-02" true].
Proof. reflexivity. Qed.
